(** * CalBridge: the request/response correlation engine

    A shallow embedding of the correlation core of the cal-bridge client
    and the properties of its natural-language specification: the response
    watcher (email-receiver.ts), the sender (email-sender.ts), the types
    (types.ts) and the client facade, in its version with [executeApiCall]
    and the list of supported actions.

    Conventions.
    - A JavaScript string is the list of its UTF-16 code units.
    - A JavaScript exception is an explicit [Raise] outcome; [try]/[catch]
      is the combinator [try_catch].
    - A number that the code handles as a quantity of time is a [jsnum]: a
      rational, an infinity or [NaN]; a value that may be [undefined] is an
      [option].
    - The Gmail API, the clock, timers and the other host built-ins the code
      calls are the fields of a [Platform]; every transport call the code
      issues is recorded in a call log.
    - The [Logger] only writes to the console (and only in debug mode); its
      calls are left out. *)

From Stdlib Require Import ZArith NArith QArith Qround List Ascii String Lia Bool.
From stdpp Require Import base decidable countable gmap list.

Import ListNotations.
Close Scope Q_scope.
Local Open Scope Z_scope.

(** ** JavaScript strings *)

Module JsString.

Definition code_unit := N.
Definition jsstring := list code_unit.

(** The JavaScript string with the given ASCII text. *)
Definition lit (s : string) : jsstring :=
  List.map N_of_ascii (list_ascii_of_string s).

(** The same, with an apostrophe in the text standing for a double quote. *)
Definition dq (s : string) : jsstring :=
  List.map (fun c => if (c =? 39)%N then 34%N else c) (lit s).

Definition unit_eqb (a b : code_unit) : bool := N.eqb a b.

(** [startsWith s d]: [d] is a prefix of [s]. *)
Fixpoint startsWith (s d : jsstring) {struct d} : bool :=
  match d, s with
  | [], _ => true
  | b :: d', a :: s' => unit_eqb a b && startsWith s' d'
  | _ :: _, [] => false
  end.

(** [String.prototype.indexOf]: the first position at which [d] occurs in
    [s], counted from [i], or [-1]. *)
Fixpoint indexOf_from (s d : jsstring) (i : Z) : Z :=
  if startsWith s d then i
  else match s with
       | [] => -1
       | _ :: s' => indexOf_from s' d (i + 1)
       end.

Definition indexOf (s d : jsstring) : Z := indexOf_from s d 0.

(** [String.prototype.lastIndexOf]: the last position at which [d] occurs
    in [s], or [-1]. *)
Fixpoint lastIndexOf_from (s d : jsstring) (i : Z) : Z :=
  match s with
  | [] => if startsWith [] d then i else -1
  | _ :: s' =>
      let later := lastIndexOf_from s' d (i + 1) in
      if later =? -1 then (if startsWith s d then i else -1) else later
  end.

Definition lastIndexOf (s d : jsstring) : Z := lastIndexOf_from s d 0.

(** [String.prototype.includes]. *)
Definition includes (s d : jsstring) : bool := negb (indexOf s d =? -1).

Definition clamp (len i : Z) : Z := Z.max 0 (Z.min i len).

(** [String.prototype.substring]: both ends are clamped to the string, and
    swapped when they come in the wrong order. *)
Definition substring (s : jsstring) (a b : Z) : jsstring :=
  let len := Z.of_nat (List.length s) in
  let a' := clamp len a in
  let b' := clamp len b in
  let lo := Z.min a' b' in
  let hi := Z.max a' b' in
  firstn (Z.to_nat (hi - lo)) (skipn (Z.to_nat lo) s).

(** [s.replace(/c/g, r)] for a single code unit [c]. *)
Fixpoint replace_unit (c : code_unit) (r : jsstring) (s : jsstring) : jsstring :=
  match s with
  | [] => []
  | a :: s' => (if unit_eqb a c then r else [a]) ++ replace_unit c r s'
  end.

(** [s.replace(/=+$/, "")]: the final run of [c] is dropped. *)
Fixpoint strip_trailing (c : code_unit) (s : jsstring) : jsstring :=
  match s with
  | [] => []
  | a :: s' =>
      match strip_trailing c s' with
      | [] => if unit_eqb a c then [] else [a]
      | t => a :: t
      end
  end.

(** [parts.join(sep)]. *)
Fixpoint join (sep : jsstring) (parts : list jsstring) : jsstring :=
  match parts with
  | [] => []
  | [p] => p
  | p :: ps => p ++ sep ++ join sep ps
  end.

(** Decimal digits of a natural number, most significant first. *)
Fixpoint digits_fuel (fuel : nat) (n : N) (acc : jsstring) : jsstring :=
  match fuel with
  | O => acc
  | S fuel' =>
      let acc' := (48 + n mod 10)%N :: acc in
      if (n <? 10)%N then acc' else digits_fuel fuel' (n / 10)%N acc'
  end.

(** [String(z)] for an integer. *)
Definition of_Z (z : Z) : jsstring :=
  let n := Z.to_N (Z.abs z) in
  let ds := digits_fuel (S (N.to_nat (N.log2 n))) n [] in
  if z <? 0 then 45%N :: ds else ds.

End JsString.

Export JsString.

(** ** Outcomes: a value returned or an exception thrown *)

Inductive outcome (E A : Type) : Type :=
| Ok (a : A)
| Raise (e : E).
Arguments Ok {E A} a.
Arguments Raise {E A} e.

(** ** JSON values and [JSON.parse] *)

Module Json.

(** A JSON number is kept as the decimal it is written as,
    [mantissa * 10 ^ exponent]. The code never computes with a parsed number;
    the one test it makes on one, truthiness, goes by the double that the
    decimal is rounded to. *)
#[warnings="-register-all"] Inductive json : Type :=
| JNull
| JBool (b : bool)
| JNumber (mantissa exponent : Z)
| JString (s : jsstring)
| JArray (elems : list json)
| JObject (members : list (jsstring * json)).

Definition members := list (jsstring * json).

(** Property lookup, [o[k]]; [None] stands for [undefined]. *)
Fixpoint obj_get (k : jsstring) (o : members) : option json :=
  match o with
  | [] => None
  | (k', v) :: o' => if decide (k' = k) then Some v else obj_get k o'
  end.

(** Property definition, [o[k] = v]: an existing property keeps its place
    and takes the new value, a new one is added last. (JavaScript lists
    integer-like keys first; the order of the members is not observed by
    the code and is not tracked beyond this.) *)
Fixpoint obj_set (k : jsstring) (v : json) (o : members) : members :=
  match o with
  | [] => [(k, v)]
  | (k', v') :: o' =>
      if decide (k' = k) then (k, v) :: o' else (k', v') :: obj_set k v o'
  end.

(** The elements of an array under their indices. *)
Fixpoint index_from (i : Z) (vs : list json) : members :=
  match vs with
  | [] => []
  | v :: vs' => (of_Z i, v) :: index_from (i + 1) vs'
  end.

(** Own enumerable properties of a value, as object spread copies them:
    the members of an object, the indexed elements of an array. *)
Definition own_properties (v : json) : members :=
  match v with
  | JObject ms => ms
  | JArray vs => index_from 0 vs
  | _ => []
  end.

(** [{ ...target, ...source }]. *)
Definition spread (target : members) (source : members) : members :=
  fold_left (fun o kv => obj_set (fst kv) (snd kv) o) source target.

(** [typeof v === "object" && v !== null]. *)
Definition is_object (v : json) : bool :=
  match v with
  | JObject _ | JArray _ => true
  | _ => false
  end.

(** Whether the double nearest to [m * 10 ^ e] is zero: the decimal is zero,
    or at most [2 ^ -1075] in size, half the smallest positive double (a tie
    is rounded to the even neighbour, which is zero). *)
Definition rounds_to_zero (m e : Z) : bool :=
  if m =? 0 then true
  else if 0 <=? e then false
  else Z.abs m * 2 ^ 1075 <=? 10 ^ (- e).

(** Truthiness, as [if (v)] tests it. *)
Definition truthy (v : json) : bool :=
  match v with
  | JNull => false
  | JBool b => b
  | JNumber m e => negb (rounds_to_zero m e)
  | JString s => match s with [] => false | _ => true end
  | JArray _ | JObject _ => true
  end.

(** *** Lexical analysis *)

Inductive token : Type :=
| TLBrace | TRBrace | TLBracket | TRBracket | TColon | TComma
| TString (s : jsstring)
| TNumber (mantissa exponent : Z)
| TTrue | TFalse | TNull.

Definition is_digit (c : code_unit) : bool := ((48 <=? c) && (c <=? 57))%N.
Definition is_ws (c : code_unit) : bool :=
  ((c =? 32) || (c =? 9) || (c =? 10) || (c =? 13))%N.
Definition is_lower (c : code_unit) : bool := ((97 <=? c) && (c <=? 122))%N.
Definition is_number_unit (c : code_unit) : bool :=
  (is_digit c || (c =? 45) || (c =? 43) || (c =? 46) || (c =? 101) || (c =? 69))%N.

Definition hex_value (c : code_unit) : option N :=
  if is_digit c then Some (c - 48)%N
  else if ((97 <=? c) && (c <=? 102))%N then Some (c - 87)%N
  else if ((65 <=? c) && (c <=? 70))%N then Some (c - 55)%N
  else None.

(** The leading run of digits of [s] and what follows it. *)
Fixpoint span_digits (s : jsstring) : jsstring * jsstring :=
  match s with
  | c :: s' =>
      if is_digit c then let (ds, r) := span_digits s' in (c :: ds, r)
      else ([], s)
  | [] => ([], [])
  end.

Definition digits_value (ds : jsstring) : Z :=
  fold_left (fun acc c => 10 * acc + Z.of_N (c - 48)%N) ds 0.

(** The number grammar: an optional minus sign; an integer part, a single
    zero or a non-zero digit followed by digits; an optional fraction, a
    point and at least one digit; an optional exponent, e or E, an optional
    sign and at least one digit. *)
Definition number_of_lexeme (s : jsstring) : option (Z * Z) :=
  let (neg, s1) := match s with 45%N :: r => (true, r) | _ => (false, s) end in
  let (ip, s2) := span_digits s1 in
  match ip with
  | [] => None
  | d :: ds =>
      if (d =? 48)%N && negb (match ds with [] => true | _ => false end) then None
      else
        let frac :=
          match s2 with
          | 46%N :: r =>
              let (fp, s3) := span_digits r in
              match fp with [] => None | _ => Some (fp, s3) end
          | _ => Some ([], s2)
          end in
        match frac with
        | None => None
        | Some (fp, s3) =>
            let expo :=
              match s3 with
              | [] => Some 0
              | e :: r =>
                  if ((e =? 101) || (e =? 69))%N then
                    let (eneg, r1) :=
                      match r with
                      | 45%N :: r' => (true, r')
                      | 43%N :: r' => (false, r')
                      | _ => (false, r)
                      end in
                    let (ep, rest) := span_digits r1 in
                    match ep, rest with
                    | _ :: _, [] =>
                        Some (if eneg then - digits_value ep else digits_value ep)
                    | _, _ => None
                    end
                  else None
              end in
            match expo with
            | None => None
            | Some e =>
                let m := digits_value (ip ++ fp) in
                Some (if neg then - m else m, e - Z.of_nat (List.length fp))
            end
        end
  end.

Definition word_token (w : jsstring) : option token :=
  if decide (w = lit "true") then Some TTrue
  else if decide (w = lit "false") then Some TFalse
  else if decide (w = lit "null") then Some TNull
  else None.

Inductive lex_mode : Type :=
| LDefault
| LStr (acc : jsstring)
| LEsc (acc : jsstring)
| LUni (acc : jsstring) (digits : list N)
| LNum (acc : jsstring)
| LWord (acc : jsstring).

(** One code unit read between tokens. *)
Definition lex_default (c : code_unit) (toks : list token)
  : option (lex_mode * list token) :=
  if is_ws c then Some (LDefault, toks)
  else if (c =? 123)%N then Some (LDefault, TLBrace :: toks)
  else if (c =? 125)%N then Some (LDefault, TRBrace :: toks)
  else if (c =? 91)%N then Some (LDefault, TLBracket :: toks)
  else if (c =? 93)%N then Some (LDefault, TRBracket :: toks)
  else if (c =? 58)%N then Some (LDefault, TColon :: toks)
  else if (c =? 44)%N then Some (LDefault, TComma :: toks)
  else if (c =? 34)%N then Some (LStr [], toks)
  else if (is_digit c || (c =? 45)%N) then Some (LNum [c], toks)
  else if is_lower c then Some (LWord [c], toks)
  else None.

Definition unescape (c : code_unit) : option code_unit :=
  if (c =? 34)%N then Some 34%N            (* quote *)
  else if (c =? 92)%N then Some 92%N       (* backslash *)
  else if (c =? 47)%N then Some 47%N       (* slash *)
  else if (c =? 98)%N then Some 8%N        (* backspace *)
  else if (c =? 102)%N then Some 12%N      (* form feed *)
  else if (c =? 110)%N then Some 10%N      (* line feed *)
  else if (c =? 114)%N then Some 13%N      (* carriage return *)
  else if (c =? 116)%N then Some 9%N       (* tab *)
  else None.

(** One step of the scanner; tokens are accumulated newest first. *)
Definition lex_step (c : code_unit) (st : lex_mode * list token)
  : option (lex_mode * list token) :=
  let (mode, toks) := st in
  match mode with
  | LDefault => lex_default c toks
  | LStr acc =>
      if (c =? 34)%N then Some (LDefault, TString (rev acc) :: toks)
      else if (c =? 92)%N then Some (LEsc acc, toks)
      else if (c <? 32)%N then None
      else Some (LStr (c :: acc), toks)
  | LEsc acc =>
      if (c =? 117)%N then Some (LUni acc [], toks)
      else match unescape c with
           | Some u => Some (LStr (u :: acc), toks)
           | None => None
           end
  | LUni acc ds =>
      match hex_value c with
      | None => None
      | Some h =>
          match ds with
          | [a; b; d] =>
              Some (LStr ((((a * 16 + b) * 16 + d) * 16 + h)%N :: acc), toks)
          | _ => Some (LUni acc (ds ++ [h]), toks)
          end
      end
  | LNum acc =>
      if is_number_unit c then Some (LNum (c :: acc), toks)
      else match number_of_lexeme (rev acc) with
           | Some (m, e) => lex_default c (TNumber m e :: toks)
           | None => None
           end
  | LWord acc =>
      if is_lower c then Some (LWord (c :: acc), toks)
      else match word_token (rev acc) with
           | Some t => lex_default c (t :: toks)
           | None => None
           end
  end.

Fixpoint lex_run (s : jsstring) (st : lex_mode * list token)
  : option (lex_mode * list token) :=
  match s with
  | [] => Some st
  | c :: s' =>
      match lex_step c st with
      | Some st' => lex_run s' st'
      | None => None
      end
  end.

Definition lex_finish (st : lex_mode * list token) : option (list token) :=
  let (mode, toks) := st in
  match mode with
  | LDefault => Some (rev toks)
  | LNum acc =>
      match number_of_lexeme (rev acc) with
      | Some (m, e) => Some (rev (TNumber m e :: toks))
      | None => None
      end
  | LWord acc =>
      match word_token (rev acc) with
      | Some t => Some (rev (t :: toks))
      | None => None
      end
  | LStr _ | LEsc _ | LUni _ _ => None
  end.

Definition tokenize (s : jsstring) : option (list token) :=
  match lex_run s (LDefault, []) with
  | Some st => lex_finish st
  | None => None
  end.

(** *** Syntax analysis: a pushdown automaton over the tokens *)

(** A container under construction whose next element is being read. *)
Inductive frame : Type :=
| FArr (elems_rev : list json)
| FObj (ms : members) (key : jsstring).

Inductive parse_state : Type :=
| SValue (close_ok : bool) (stk : list frame)
| SKey (close_ok : bool) (ms : members) (stk : list frame)
| SColon (ms : members) (key : jsstring) (stk : list frame)
| SAfterElem (elems_rev : list json) (stk : list frame)
| SAfterMember (ms : members) (stk : list frame)
| SDone (v : json).

(** A value is complete: it is the result, or goes into the container on
    top of the stack. A repeated key keeps its last value. *)
Definition complete (v : json) (stk : list frame) : parse_state :=
  match stk with
  | [] => SDone v
  | FArr es :: stk' => SAfterElem (v :: es) stk'
  | FObj ms k :: stk' => SAfterMember (obj_set k v ms) stk'
  end.

Definition parse_step (t : token) (st : parse_state) : option parse_state :=
  match st with
  | SValue close_ok stk =>
      match t with
      | TLBrace => Some (SKey true [] stk)
      | TLBracket => Some (SValue true (FArr [] :: stk))
      | TString s => Some (complete (JString s) stk)
      | TNumber m e => Some (complete (JNumber m e) stk)
      | TTrue => Some (complete (JBool true) stk)
      | TFalse => Some (complete (JBool false) stk)
      | TNull => Some (complete JNull stk)
      | TRBracket =>
          match close_ok, stk with
          | true, FArr [] :: stk' => Some (complete (JArray []) stk')
          | _, _ => None
          end
      | TRBrace | TColon | TComma => None
      end
  | SKey close_ok ms stk =>
      match t with
      | TString k => Some (SColon ms k stk)
      | TRBrace => if close_ok then Some (complete (JObject ms) stk) else None
      | _ => None
      end
  | SColon ms k stk =>
      match t with
      | TColon => Some (SValue false (FObj ms k :: stk))
      | _ => None
      end
  | SAfterElem es stk =>
      match t with
      | TComma => Some (SValue false (FArr es :: stk))
      | TRBracket => Some (complete (JArray (rev es)) stk)
      | _ => None
      end
  | SAfterMember ms stk =>
      match t with
      | TComma => Some (SKey false ms stk)
      | TRBrace => Some (complete (JObject ms) stk)
      | _ => None
      end
  | SDone _ => None
  end.

Fixpoint parse_run (ts : list token) (st : parse_state) : option parse_state :=
  match ts with
  | [] => Some st
  | t :: ts' =>
      match parse_step t st with
      | Some st' => parse_run ts' st'
      | None => None
      end
  end.

Definition parse_tokens (ts : list token) : option json :=
  match parse_run ts (SValue false []) with
  | Some (SDone v) => Some v
  | _ => None
  end.

End Json.

Export Json.

(** ** Exceptions *)

(** What the code throws and catches: a [CalendarApiError] (types.ts), any
    other [Error], or a value that is not an [Error]. Of such a value the
    code can see two things: [text], its [String(...)], and [message], the
    text that its [message] property has in a template literal -- [None]
    when the value is [null] or [undefined], whose properties cannot be
    read. (A value whose conversion to a string throws is not covered.) *)
Inductive JsError : Type :=
| CalendarApiError (message code : jsstring) (requestId : option jsstring)
| OtherError (message : jsstring)
| ThrownValue (text : jsstring) (message : option jsstring).

Module ErrorCodes.
Definition AUTH_FAILED := lit "AUTH_FAILED".
Definition SEND_FAILED := lit "SEND_FAILED".
Definition TIMEOUT := lit "TIMEOUT".
Definition INVALID_RESPONSE := lit "INVALID_RESPONSE".
Definition MISSING_REQUEST_ID := lit "MISSING_REQUEST_ID".
Definition PARSE_ERROR := lit "PARSE_ERROR".
Definition NOT_CONNECTED := lit "NOT_CONNECTED".
Definition UNKNOWN := lit "UNKNOWN".
End ErrorCodes.

(** [JSON.parse]: the parsed value, or a thrown [SyntaxError]. *)
Definition JSON_parse (text : jsstring) : outcome JsError json :=
  match tokenize text with
  | Some ts =>
      match parse_tokens ts with
      | Some v => Ok v
      | None => Raise (OtherError (lit "SyntaxError"))
      end
  | None => Raise (OtherError (lit "SyntaxError"))
  end.

(** [try { body } catch (err) { handler(err) }] for code without state. *)
Definition try_catch {E A : Type} (body : outcome E A) (handler : E -> outcome E A)
  : outcome E A :=
  match body with
  | Ok a => Ok a
  | Raise e => handler e
  end.

(** ** The reply decoder ([ResponseWatcher.extractApiResponse]) *)

(** An [ApiResponse] is a plain object; only [status] and [requestId] are
    sure to be there by its type, and a cast does not check them. *)
Definition ApiResponse := members.

Definition delimiter : jsstring := lit "________________________________________".

(** The text handed to [JSON.parse] (the first half of
    [extractApiResponse]); [None] when the function gives up before. *)
Definition potentialJson (body : jsstring) : option jsstring :=
  (* Strip email history if delimiter is present *)
  let delimiterIndex := indexOf body delimiter in
  let body := if negb (delimiterIndex =? -1) then substring body 0 delimiterIndex
              else body in
  (* Replace newlines with escaped newlines *)
  let body := replace_unit 10%N (lit "\n") (replace_unit 13%N (lit "\r") body) in
  (* find the first '{' and last '}' *)
  let startIndex := indexOf body (lit "{") in
  let endIndex := lastIndexOf body (lit "}") in
  if (startIndex =? -1) || (endIndex =? -1) || (startIndex >=? endIndex) then None
  else Some (substring body startIndex (endIndex + 1)).

(** [{ requestId, messageId, ...parsed }]. *)
Definition build_response (requestId messageId : jsstring) (parsed : json)
  : ApiResponse :=
  spread [(lit "requestId", JString requestId);
          (lit "messageId", JString messageId)]
         (own_properties parsed).

Definition extractApiResponse (body requestId messageId : jsstring)
  : outcome JsError (option ApiResponse) :=
  match potentialJson body with
  | None => Ok None
  | Some text =>
      match
        try_catch
          (match JSON_parse text with
           | Ok parsed =>
               if is_object parsed
               then Ok (Some (build_response requestId messageId parsed))
               else Ok None
           | Raise e => Raise e
           end)
          (fun _ => Ok None)          (* Ignore parse errors *)
      with
      | Ok (Some response) => Ok (Some response)
      | Ok None => Ok None
      | Raise e => Raise e
      end
  end.

(** ** Numbers *)

(** A JavaScript number where the code handles one as a quantity of time: a
    rational (every finite double is one), an infinity, or [NaN]. *)
Inductive jsnum : Type :=
| Num (q : Q)
| PosInf
| NegInf
| NaN.

Definition of_int (z : Z) : jsnum := Num (inject_Z z).

Definition Qlt_bool (p q : Q) : bool := negb (Qle_bool q p).

(** [a < b]; a comparison with [NaN] is false. *)
Definition num_lt (a b : jsnum) : bool :=
  match a, b with
  | NaN, _ | _, NaN => false
  | Num p, Num q => Qlt_bool p q
  | NegInf, (Num _ | PosInf) => true
  | Num _, PosInf => true
  | _, _ => false
  end.

(** [a > b]. *)
Definition num_gt (a b : jsnum) : bool := num_lt b a.

(** [ToNumber] of a number that may be [undefined]. *)
Definition to_number (v : option jsnum) : jsnum := default NaN v.

(** An integer that a double holds exactly. *)
Definition is_safe_integer (q : Q) : bool :=
  Pos.eqb (Qden (Qred q)) 1 && (Z.abs (Qnum (Qred q)) <=? 9007199254740991).

(** A string that may be [undefined], as a template literal prints it. *)
Definition template_text (s : option jsstring) : jsstring :=
  default (lit "undefined") s.

(** ** The host platform *)

(** The shapes the Gmail API hands back (googleapis [gmail_v1]); an absent or
    [null] field is [None]. *)
Record MessageRef : Type := mkRef {
  ref_id : option jsstring;
  ref_threadId : option jsstring
}.

Record Header : Type := mkHeader {
  h_name : option jsstring;
  h_value : option jsstring
}.

(** A message part; [part_data] is [part.body?.data]. *)
#[warnings="-register-all"] Inductive MessagePart : Type :=
| mkPart (mimeType : option jsstring) (headers : option (list Header))
         (part_data : option jsstring) (parts : option (list MessagePart)).

Record Message : Type := mkMessage {
  msg_id : option jsstring;
  msg_threadId : option jsstring;
  msg_payload : option MessagePart;
  msg_internalDate : option jsstring
}.

Record SendResult : Type := mkSendResult {
  sent_id : option jsstring;
  sent_threadId : option jsstring
}.

(** Everything outside the repository that the code calls. [Env] is the
    state of the outside world (mailbox, clock, network, random source); a
    call returns or throws and leaves the world in a new state. A call that
    never comes back is outside this model. *)
Record Platform : Type := {
  Env : Type;
  (* Date.now() *)
  Date_now : Env -> Z;
  (* setTimeout(callback, ms): the world in which the callback starts *)
  setTimeout : jsnum -> Env -> Env;
  (* String(x) for a finite number x that is not a safe integer *)
  Number_toString : Q -> jsstring;
  (* getFullYear(), getMonth(), getDate() of new Date(t) *)
  local_date : Z -> Z * Z * Z;
  uuidv4 : Env -> jsstring * Env;
  (* Buffer.from(s, "base64").toString("utf-8") *)
  base64_to_utf8 : jsstring -> jsstring;
  (* Buffer.from(s).toString("base64") *)
  utf8_to_base64 : jsstring -> jsstring;
  toLowerCase : jsstring -> jsstring;
  JSON_stringify : json -> jsstring;
  (* gmail.users.messages.*; list yields response.data.messages, get yields
     response.data *)
  messages_list : jsstring -> Z -> Env ->
                  outcome JsError (option (list MessageRef)) * Env;
  messages_get : jsstring -> Env -> outcome JsError (option Message) * Env;
  messages_modify : jsstring -> list jsstring -> Env -> outcome JsError unit * Env;
  messages_send : jsstring -> Env -> outcome JsError SendResult * Env;
  messages_batchModify : list json -> list jsstring -> Env ->
                         outcome JsError unit * Env;
  (* GmailAuth.authenticate() *)
  authenticate : Env -> outcome JsError unit * Env
}.

(** A transport call, as a call-counting fake transport would record it. *)
Inductive Call : Type :=
| CallList (q : jsstring) (maxResults : Z)
| CallGet (id : jsstring)
| CallModify (id : jsstring) (removeLabelIds : list jsstring)
| CallSend (raw : jsstring)
| CallBatchModify (ids : list json) (addLabelIds : list jsstring).

(** ** Stateful computations that may throw *)

Definition M (S A : Type) : Type := S -> outcome JsError A * S.

Definition ret {S A} (a : A) : M S A := fun s => (Ok a, s).
Definition throw {S A} (e : JsError) : M S A := fun s => (Raise e, s).
Definition bind {S A B} (c : M S A) (k : A -> M S B) : M S B :=
  fun s => match c s with
           | (Ok a, s') => k a s'
           | (Raise e, s') => (Raise e, s')
           end.
(** [try { c } catch (err) { handler(err) }]: state changes made before the
    throw stay. *)
Definition catch {S A} (c : M S A) (handler : JsError -> M S A) : M S A :=
  fun s => match c s with
           | (Ok a, s') => (Ok a, s')
           | (Raise e, s') => handler e s'
           end.
Definition pure_outcome {S A} (o : outcome JsError A) : M S A := fun s => (o, s).
Definition gets {S A} (f : S -> A) : M S A := fun s => (Ok (f s), s).
Definition modify {S} (f : S -> S) : M S unit := fun s => (Ok tt, f s).

Notation "'let*' x ':=' c 'in' k" := (bind c (fun x => k))
  (at level 10, x pattern, c at level 100, k at level 200).
Notation "c ';;' k" := (bind c (fun _ => k))
  (at level 100, k at level 200, right associativity).

(** [`${(error as Error).message}`] for a caught value: reading the
    property of [null] or [undefined] throws a [TypeError]. *)
Definition read_message (e : JsError) : outcome JsError jsstring :=
  match e with
  | CalendarApiError m _ _ => Ok m
  | OtherError m => Ok m
  | ThrownValue _ (Some m) => Ok m
  | ThrownValue text None =>
      Raise (OtherError (lit "Cannot read properties of " ++ text
                           ++ lit " (reading 'message')"))
  end.

(** [parseInt(s, 10)]; [None] is [NaN]. Leading white space is skipped, then
    an optional sign and the longest run of digits are read. *)
Definition is_js_space (c : code_unit) : bool :=
  existsb (N.eqb c)
    [9; 10; 11; 12; 13; 32; 160; 5760; 8192; 8193; 8194; 8195; 8196; 8197;
     8198; 8199; 8200; 8201; 8202; 8232; 8233; 8239; 8287; 12288; 65279]%N.

Fixpoint skip_space (s : jsstring) : jsstring :=
  match s with
  | c :: s' => if is_js_space c then skip_space s' else s
  | [] => []
  end.

Definition parseInt (s : jsstring) : option Z :=
  let s1 := skip_space s in
  let (neg, s2) :=
    match s1 with
    | 45%N :: r => (true, r)
    | 43%N :: r => (false, r)
    | _ => (false, s1)
    end in
  match fst (span_digits s2) with
  | [] => None
  | ds => Some (if neg then - digits_value ds else digits_value ds)
  end.

Inductive ApiMethod : Type := GET | POST | PATCH | DELETE.
Inductive ApiAction : Type := list_ | create | update | event | health.

Definition ApiMethod_text (m : ApiMethod) : jsstring :=
  match m with
  | GET => lit "GET" | POST => lit "POST"
  | PATCH => lit "PATCH" | DELETE => lit "DELETE"
  end.

Definition ApiAction_text (a : ApiAction) : jsstring :=
  match a with
  | list_ => lit "list" | create => lit "create" | update => lit "update"
  | event => lit "event" | health => lit "health"
  end.

#[global] Instance ApiAction_eq_dec : EqDecision ApiAction.
Proof. solve_decision. Defined.

Section Engine.

Variable P : Platform.

(** The world a call runs in: the outside state and the log of the
    transport calls made so far, newest first. *)
Record World : Type := mkWorld {
  env : Env P;
  calls : list Call
}.

(** A transport primitive run in the world: logged, then performed. *)
Definition transport {A : Type} (c : Call)
  (op : Env P -> outcome JsError A * Env P) : M World A :=
  fun w => let (r, e') := op (env w) in (r, mkWorld e' (c :: calls w)).

Definition now : World -> Z := fun w => Date_now P (env w).

Definition sleep (ms : jsnum) (w : World) : World :=
  mkWorld (setTimeout P ms (env w)) (calls w).

(** The text of a number in a template literal. *)
Definition number_text (n : jsnum) : jsstring :=
  match n with
  | NaN => lit "NaN"
  | PosInf => lit "Infinity"
  | NegInf => lit "-Infinity"
  | Num q =>
      if is_safe_integer q then of_Z (Qnum (Qred q)) else Number_toString P q
  end.

(** *** [ResponseWatcher] (email-receiver.ts) *)

Record ReceivedEmail : Type := mkEmail {
  messageId : jsstring;
  threadId : jsstring;
  from : jsstring;
  subject : jsstring;
  body : jsstring;
  timestamp : option Z
}.

(** The fields of the watcher; the responder's address is a string by its
    type, and [undefined] when the configuration had it so. *)
Record ResponseWatcher : Type := mkWatcher {
  responseSenderEmail : option jsstring;
  requestId : jsstring;
  pollIntervalMs : jsnum;
  timeoutMs : jsnum;
  startTime : Z;
  processedMessageIds : gset jsstring
}.

(** The constructor: an interval or a timeout passed as [undefined] takes
    its default, 2000 and 30000; the set of processed ids starts empty and
    the clock is read once. *)
Definition new_ResponseWatcher (responseSenderEmail : option jsstring)
  (requestId : jsstring) (pollIntervalMs timeoutMs : option jsnum) (w : World)
  : ResponseWatcher :=
  mkWatcher responseSenderEmail requestId
            (default (of_int 2000) pollIntervalMs)
            (default (of_int 30000) timeoutMs) (now w) ∅.

(** A method of the watcher runs on the watcher's fields and the world. *)
Definition WatcherM (A : Type) : Type := M (ResponseWatcher * World) A.

Definition in_world {A : Type} (c : M World A) : WatcherM A :=
  fun s => let (r, w') := c (snd s) in (r, (fst s, w')).

Definition this {A : Type} (f : ResponseWatcher -> A) : WatcherM A :=
  gets (fun s => f (fst s)).

Definition with_processed (t : ResponseWatcher) (ids : gset jsstring)
  : ResponseWatcher :=
  mkWatcher (responseSenderEmail t) (requestId t) (pollIntervalMs t)
            (timeoutMs t) (startTime t) ids.

(** [this.processedMessageIds.add(id)]. *)
Definition add_processed (id : jsstring) : WatcherM unit :=
  modify (fun s =>
    (with_processed (fst s) ({[ id ]} ∪ processedMessageIds (fst s)), snd s)).

Definition nonempty (s : jsstring) : bool :=
  match s with [] => false | _ => true end.

(** The first [text/plain] part that carries data. *)
Fixpoint find_plain (ps : list MessagePart) : option jsstring :=
  match ps with
  | [] => None
  | mkPart mime _ data _ :: ps' =>
      match data with
      | Some d =>
          if bool_decide (mime = Some (lit "text/plain")) && nonempty d
          then Some d else find_plain ps'
      | None => find_plain ps'
      end
  end.

(** [extractBody]: direct data, else the first plain-text part, else the
    first part, searched in depth, that yields a non-empty body. *)
Fixpoint extractBody_part (p : MessagePart) : jsstring :=
  match p with
  | mkPart _ _ data parts =>
      if match data with Some d => nonempty d | None => false end
      then base64_to_utf8 P (default [] data)
      else
        match parts with
        | Some ps =>
            match find_plain ps with
            | Some d => base64_to_utf8 P d
            | None =>
                (fix first (l : list MessagePart) : jsstring :=
                   match l with
                   | [] => []
                   | q :: l' =>
                       let b := extractBody_part q in
                       if nonempty b then b else first l'
                   end) ps
            end
        | None => []
        end
  end.

Definition extractBody (payload : option MessagePart) : jsstring :=
  match payload with
  | None => []
  | Some p => extractBody_part p
  end.

Definition part_headers (p : MessagePart) : option (list Header) :=
  match p with mkPart _ hs _ _ => hs end.

(** [headers.find((h) => h.name?.toLowerCase() === name)?.value ?? ""]. *)
Definition header_value (name : jsstring) (headers : list Header) : jsstring :=
  match
    List.find (fun h => bool_decide (option_map (toLowerCase P) (h_name h) = Some name))
              headers
  with
  | Some h => default [] (h_value h)
  | None => []
  end.

(** [fetchAndParseMessage]: any failure of the fetch yields [null]. *)
Definition fetchAndParseMessage (messageId : jsstring)
  : M World (option ReceivedEmail) :=
  catch
    (let* data := transport (CallGet messageId) (messages_get P messageId) in
     match data with
     | None => ret None
     | Some message =>
         let headers :=
           default [] (match msg_payload message with
                       | Some p => part_headers p
                       | None => None
                       end) in
         let from := header_value (lit "from") headers in
         let subject := header_value (lit "subject") headers in
         let body := extractBody (msg_payload message) in
         ret (Some (mkEmail (default [] (msg_id message))
                            (default [] (msg_threadId message))
                            from subject body
                            (parseInt (default (lit "0") (msg_internalDate message)))))
     end)
    (fun _ => ret None).

(** [markAsRead]: a failure to drop the UNREAD label is ignored. *)
Definition markAsRead (messageId : jsstring) : M World unit :=
  catch
    (transport (CallModify messageId [lit "UNREAD"])
               (messages_modify P messageId [lit "UNREAD"]))
    (fun _ => ret tt).

(** The body of [for (const msg of messages)] in [poll]. *)
Fixpoint poll_messages (messages : list MessageRef)
  : WatcherM (option ApiResponse) :=
  match messages with
  | [] => ret None
  | msg :: rest =>
      match ref_id msg with
      | None => poll_messages rest
      | Some id =>
          if negb (nonempty id) then poll_messages rest
          else
            let* processed := this processedMessageIds in
            (* Skip already processed messages *)
            if bool_decide (id ∈ processed) then poll_messages rest
            else
              add_processed id ;;
              let* email := in_world (fetchAndParseMessage id) in
              match email with
              | None => poll_messages rest
              | Some email =>
                  let* rid := this requestId in
                  (* Double check header subject contains request ID *)
                  if negb (includes (subject email) rid) then poll_messages rest
                  else
                    let* apiResponse :=
                      pure_outcome (extractApiResponse (body email) rid id) in
                    match apiResponse with
                    | Some response =>
                        (* Mark as read only if we successfully parsed it *)
                        in_world (markAsRead id) ;;
                        ret (Some response)
                    | None => poll_messages rest
                    end
              end
      end
  end.

(** The search query of [poll]: unread mail from the responder, not older
    than the day of one minute before the watcher started. *)
Definition poll_query (t : ResponseWatcher) : jsstring :=
  let '(year, month, day) := local_date P (startTime t - 60000) in
  let afterStr := of_Z year ++ lit "/" ++ of_Z (month + 1) ++ lit "/" ++ of_Z day in
  lit "from:" ++ template_text (responseSenderEmail t)
    ++ lit " is:unread after:" ++ afterStr.

Definition poll : WatcherM (option ApiResponse) :=
  let* query := this poll_query in
  let* messages :=
    in_world (transport (CallList query 35) (messages_list P query 35)) in
  match messages with
  | None => ret None
  | Some [] => ret None
  | Some messages => poll_messages messages
  end.

Definition timeout_error (t : ResponseWatcher) : JsError :=
  CalendarApiError
    (lit "Request timed out after " ++ number_text (timeoutMs t) ++ lit "ms")
    ErrorCodes.TIMEOUT (Some (requestId t)).

(** [Date.now() - this.startTime > this.timeoutMs]. *)
Definition timed_out (t : ResponseWatcher) (w : World) : bool :=
  num_gt (of_int (now w - startTime t)) (timeoutMs t).

(** [waitForResponse]: the chain of [check] calls, each one started by the
    timer of the one before. [fuel] bounds the number of polls; [None] means
    that the promise is still pending after that many. *)
Fixpoint check (fuel : nat) (s : ResponseWatcher * World)
  : option (outcome JsError ApiResponse * (ResponseWatcher * World)) :=
  if timed_out (fst s) (snd s) then
    Some (Raise (timeout_error (fst s)), s)
  else
    match fuel with
    | O => None
    | S fuel' =>
        match poll s with
        | (Ok (Some response), s') => Some (Ok response, s')
        | (Ok None, s') =>
            check fuel' (fst s', sleep (pollIntervalMs (fst s')) (snd s'))
        | (Raise err, s') =>
            (* Keep trying until timeout *)
            check fuel' (fst s', sleep (pollIntervalMs (fst s')) (snd s'))
        end
    end.

Definition waitForResponse := check.

(** *** [sendApiEmail] (email-sender.ts) *)

Record SentEmailMetadata : Type := mkSent {
  sent_requestId : jsstring;
  sent_messageId : jsstring;
  sent_thread : jsstring;
  sent_timestamp : Z
}.

Definition CRLF : jsstring := [13; 10]%N.

Definition buildRawEmail (from to subject body : jsstring) : jsstring :=
  join CRLF
    [lit "From: " ++ from;
     lit "To: " ++ to;
     lit "Subject: " ++ subject;
     lit "MIME-Version: 1.0";
     lit "Content-Type: text/plain; charset=utf-8";
     [];
     body].

(** base64 with [+] and [/] replaced and the padding dropped. *)
Definition encodeBase64Url (raw : jsstring) : jsstring :=
  strip_trailing 61%N
    (replace_unit 47%N (lit "_")
       (replace_unit 43%N (lit "-") (utf8_to_base64 P raw))).

Definition request_subject (method : ApiMethod) (action : ApiAction)
  (requestId : jsstring) : jsstring :=
  lit "#calendarapi " ++ ApiMethod_text method ++ lit " "
    ++ ApiAction_text action ++ lit " [" ++ requestId ++ lit "]".

Definition sendApiEmail (method : ApiMethod) (action : ApiAction) (payload : json)
  (senderEmail recipientEmail : jsstring) : M World SentEmailMetadata :=
  let* requestId :=
    (fun w => let (id, e') := uuidv4 P (env w) in (Ok id, mkWorld e' (calls w))) in
  let subject := request_subject method action requestId in
  (* JSON body with ONLY the payload (no requestId) *)
  let body := JSON_stringify P payload in
  let rawEmail := buildRawEmail senderEmail recipientEmail subject body in
  let encodedEmail := encodeBase64Url rawEmail in
  catch
    (let* response :=
       transport (CallSend encodedEmail) (messages_send P encodedEmail) in
     let* timestamp := gets now in
     ret (mkSent requestId (default [] (sent_id response))
                 (default [] (sent_threadId response)) timestamp))
    (fun error =>
       let* message := pure_outcome (read_message error) in
       throw (CalendarApiError (lit "Failed to send email: " ++ message)
                               ErrorCodes.SEND_FAILED (Some requestId))).

(** *** [CalendarEmailClient] (client.ts) *)

(** The fields of the configuration that the request path reads. The
    constructor has validated the first two; the others are what the caller
    gave, [undefined] included. *)
Record CalendarClientConfig : Type := mkConfig {
  senderEmail : jsstring;
  recipientEmail : jsstring;
  cfg_responseSenderEmail : option jsstring;
  cfg_pollIntervalMs : option jsnum;
  requestTimeoutMs : option jsnum
}.

(** The fields of the client; [gmail] tells whether the handle is set. *)
Record CalendarEmailClient : Type := mkClient {
  config : CalendarClientConfig;
  gmail : bool;
  connected : bool;
  supportedActions : list ApiAction
}.

(** The constructor: not connected, and only [list] is enabled. *)
Definition new_CalendarEmailClient (cfg : CalendarClientConfig)
  : CalendarEmailClient :=
  mkClient cfg false false [list_].

Definition connect (c : CalendarEmailClient)
  : M World CalendarEmailClient :=
  if connected c then ret c
  else
    fun w =>
      match authenticate P (env w) with
      | (Ok _, e') =>
          (Ok (mkClient (config c) true true (supportedActions c)),
           mkWorld e' (calls w))
      | (Raise error, e') => (Raise error, mkWorld e' (calls w))
      end.

Definition disconnect (c : CalendarEmailClient) : CalendarEmailClient :=
  if negb (connected c) then c
  else mkClient (config c) (gmail c) false (supportedActions c).

Definition ensureConnected (c : CalendarEmailClient) : M World unit :=
  if negb (connected c) || negb (gmail c) then
    throw (CalendarApiError (lit "Client is not connected. Call connect() first.")
                            ErrorCodes.NOT_CONNECTED None)
  else ret tt.

(** [cleanupMessages]: one batch call, whose failure is only logged. *)
Definition cleanupMessages (c : CalendarEmailClient) (messageIds : list json)
  : M World unit :=
  if negb (gmail c) || match messageIds with [] => true | _ => false end
  then ret tt
  else
    catch
      (transport (CallBatchModify messageIds [lit "TRASH"])
                 (messages_batchModify P messageIds [lit "TRASH"]))
      (fun _ => ret tt).

Definition skipped_response : ApiResponse :=
  [(lit "status", JString (lit "skipped"));
   (lit "requestId", JString (lit "no-op"));
   (lit "data",
    JObject
      [(lit "message",
        JString (lit "Not implemented in backend yet. This action is currently disabled in the client."))])].

(** A call that is started and not awaited (fire and forget). What the
    callee issues before its first [await] -- for [cleanupMessages] its one
    transport call -- is issued when the caller goes on; the call itself
    completes later, on its own: the caller goes on in the outside world as
    it was. *)
Definition detach {A : Type} (c : M World A) (w : World) : World :=
  mkWorld (env w) (calls (snd (c w))).

(** A computation that may still be pending when the polls run out. *)
Definition Pending (A : Type) : Type :=
  World -> option (outcome JsError A * World).

(** [sendRequest]; its outer [try]/[catch] only logs and throws again. *)
Definition sendRequest (c : CalendarEmailClient) (fuel : nat)
  (method : ApiMethod) (action : ApiAction) (payload : json)
  : Pending ApiResponse :=
  fun w =>
    (* Check if the action is currently supported *)
    if negb (bool_decide (action ∈ supportedActions c)) then
      Some (Ok skipped_response, w)
    else
      match ensureConnected c w with
      | (Raise error, w1) => Some (Raise error, w1)
      | (Ok _, w1) =>
          (* Send the email *)
          match sendApiEmail method action payload
                             (senderEmail (config c)) (recipientEmail (config c)) w1
          with
          | (Raise error, w2) => Some (Raise error, w2)
          | (Ok sentMeta, w2) =>
              (* Watch for response *)
              let watcher :=
                new_ResponseWatcher (cfg_responseSenderEmail (config c))
                  (sent_requestId sentMeta) (cfg_pollIntervalMs (config c))
                  (requestTimeoutMs (config c)) w2 in
              match waitForResponse fuel (watcher, w2) with
              | None => None
              | Some (Raise error, (_, w3)) => Some (Raise error, w3)
              | Some (Ok response, (_, w3)) =>
                  (* Cleanup emails (fire and forget) *)
                  let messagesToDelete :=
                    JString (sent_messageId sentMeta)
                    :: match obj_get (lit "messageId") response with
                       | Some v => if truthy v then [v] else []
                       | None => []
                       end in
                  let w4 := detach (cleanupMessages c messagesToDelete) w3 in
                  Some (Ok response, w4)
              end
          end
      end.

Definition paramsErrorMessage (error : JsError) : ApiResponse :=
  let message :=
    match error with
    | CalendarApiError m _ _ | OtherError m => m
    | ThrownValue text _ => text
    end in
  let code :=
    match error with
    | CalendarApiError _ code _ => code
    | _ => ErrorCodes.UNKNOWN
    end in
  [(lit "status", JString (lit "error"));
   (lit "requestId", JString []);
   (lit "error", JString message);
   (lit "data", JObject [(lit "code", JString code)])].

(** [executeApiCall]: the duration is stamped on whatever comes back, and a
    thrown error comes back as a response. *)
Definition executeApiCall (operation : Pending ApiResponse) : Pending ApiResponse :=
  fun w =>
    let start := now w in
    match operation w with
    | None => None
    | Some (Ok response, w') =>
        Some (Ok (obj_set (lit "durationMs") (JNumber (now w' - start) 0) response), w')
    | Some (Raise error, w') =>
        let response := paramsErrorMessage error in
        Some (Ok (obj_set (lit "durationMs") (JNumber (now w' - start) 0) response), w')
    end.

Definition listEvents (c : CalendarEmailClient) (fuel : nat) (start end_ : jsstring)
  : Pending ApiResponse :=
  executeApiCall
    (sendRequest c fuel GET list_
       (JObject [(lit "start", JString start); (lit "end", JString end_)])).

Definition createEvent (c : CalendarEmailClient) (fuel : nat) (eventData : json)
  : Pending ApiResponse :=
  executeApiCall (sendRequest c fuel POST create eventData).

Definition updateEvent (c : CalendarEmailClient) (fuel : nat) (eventData : json)
  : Pending ApiResponse :=
  executeApiCall (sendRequest c fuel PATCH update eventData).

Definition deleteEvent (c : CalendarEmailClient) (fuel : nat) (eventId : jsstring)
  : Pending ApiResponse :=
  executeApiCall (sendRequest c fuel DELETE event (JObject [(lit "id", JString eventId)])).

Definition healthCheck (c : CalendarEmailClient) (fuel : nat) : Pending ApiResponse :=
  executeApiCall (sendRequest c fuel GET health (JObject [])).

End Engine.

(** ** A fake platform

    A call-counting stand-in for Gmail and the host, for running the engine
    on concrete mailboxes: the messages of [inbox] that are not marked read
    are listed in order, a run of [outages] list calls fails first, every
    transport call takes [latency] milliseconds, and a timer fires exactly
    on time. Its text functions cover ASCII text and safe integers. *)

Module Fake.

Record FakeEnv : Type := mkEnv {
  clock : Z;
  inbox : list Message;
  read : list jsstring;
  outages : nat
}.

Definition latency : Z := 5.

Definition tick (e : FakeEnv) : FakeEnv :=
  mkEnv (clock e + latency) (inbox e) (read e) (outages e).

Definition is_unread (e : FakeEnv) (m : Message) : bool :=
  match msg_id m with
  | Some id => negb (bool_decide (id ∈ read e))
  | None => true
  end.

Definition fake_list (q : jsstring) (maxResults : Z) (e : FakeEnv)
  : outcome JsError (option (list MessageRef)) * FakeEnv :=
  match outages e with
  | S n => (Raise (OtherError (lit "ECONNRESET")),
            mkEnv (clock e + latency) (inbox e) (read e) n)
  | O =>
      match List.filter (is_unread e) (inbox e) with
      | [] => (Ok None, tick e)
      | ms => (Ok (Some (List.map (fun m => mkRef (msg_id m) (msg_threadId m)) ms)),
               tick e)
      end
  end.

Definition fake_get (id : jsstring) (e : FakeEnv)
  : outcome JsError (option Message) * FakeEnv :=
  match List.find (fun m => bool_decide (msg_id m = Some id)) (inbox e) with
  | Some m => (Ok (Some m), tick e)
  | None => (Raise (OtherError (lit "Not Found")), tick e)
  end.

Definition fake_modify (id : jsstring) (labels : list jsstring) (e : FakeEnv)
  : outcome JsError unit * FakeEnv :=
  (Ok tt, mkEnv (clock e + latency) (inbox e) (id :: read e) (outages e)).

Definition fake_send (raw : jsstring) (e : FakeEnv)
  : outcome JsError SendResult * FakeEnv :=
  (Ok (mkSendResult (Some (lit "sent-1")) (Some (lit "thread-1"))), tick e).

Definition fake_batchModify (ids : list json) (labels : list jsstring) (e : FakeEnv)
  : outcome JsError unit * FakeEnv :=
  (Ok tt, tick e).

Definition fake_uuid : jsstring := lit "3f2b8c1e-5d4a-4b7e-9c1a-2e6f0a7b8c9d".

(** The UTC calendar date of a time stamp (year, month from 0, day). *)
Definition utc_date (t : Z) : Z * Z * Z :=
  let z := t / 86400000 + 719468 in
  let era := z / 146097 in
  let doe := z - era * 146097 in
  let yoe := (doe - doe / 1460 + doe / 36524 - doe / 146096) / 365 in
  let doy := doe - (365 * yoe + yoe / 4 - yoe / 100) in
  let mp := (5 * doy + 2) / 153 in
  let d := doy - (153 * mp + 2) / 5 + 1 in
  let m := if mp <? 10 then mp + 3 else mp - 9 in
  (yoe + era * 400 + (if m <=? 2 then 1 else 0), m - 1, d).

Definition ascii_lower (s : jsstring) : jsstring :=
  List.map (fun c => if ((65 <=? c) && (c <=? 90))%N then (c + 32)%N else c) s.

(** base64 *)
Definition sextet_of (c : code_unit) : option N :=
  if ((65 <=? c) && (c <=? 90))%N then Some (c - 65)%N
  else if ((97 <=? c) && (c <=? 122))%N then Some (c - 71)%N
  else if ((48 <=? c) && (c <=? 57))%N then Some (c + 4)%N
  else if ((c =? 43) || (c =? 45))%N then Some 62%N
  else if ((c =? 47) || (c =? 95))%N then Some 63%N
  else None.

Definition unit_of_sextet (n : N) : code_unit :=
  if (n <? 26)%N then (n + 65)%N
  else if (n <? 52)%N then (n + 71)%N
  else if (n <? 62)%N then (n - 4)%N
  else if (n =? 62)%N then 43%N else 47%N.

Fixpoint sextets (s : jsstring) : list N :=
  match s with
  | [] => []
  | c :: s' =>
      if (c =? 61)%N then []
      else match sextet_of c with
           | Some n => n :: sextets s'
           | None => sextets s'
           end
  end.

Fixpoint bytes_of_sextets (l : list N) : list N :=
  match l with
  | a :: b :: c :: d :: r =>
      (a * 4 + b / 16)%N :: ((b mod 16) * 16 + c / 4)%N
        :: ((c mod 4) * 64 + d)%N :: bytes_of_sextets r
  | [a; b; c] => [(a * 4 + b / 16)%N; ((b mod 16) * 16 + c / 4)%N]
  | [a; b] => [(a * 4 + b / 16)%N]
  | _ => []
  end.

Definition fake_decode (s : jsstring) : jsstring :=
  List.map (fun b => if (b <? 128)%N then b else 65533%N)
           (bytes_of_sextets (sextets s)).

Fixpoint sextets_of_bytes (l : list N) : jsstring :=
  match l with
  | a :: b :: c :: r =>
      List.map unit_of_sextet
        [a / 4; (a mod 4) * 16 + b / 16; (b mod 16) * 4 + c / 64; c mod 64]%N
        ++ sextets_of_bytes r
  | [a; b] =>
      List.map unit_of_sextet [a / 4; (a mod 4) * 16 + b / 16; (b mod 16) * 4]%N
        ++ [61%N]
  | [a] => List.map unit_of_sextet [a / 4; (a mod 4) * 16]%N ++ [61; 61]%N
  | [] => []
  end.

Definition fake_encode (s : jsstring) : jsstring :=
  sextets_of_bytes (List.map (fun c => (c mod 128)%N) s).

(** A serializer for the request payloads of the examples. *)
Definition hex_digit (n : N) : code_unit :=
  if (n <? 10)%N then (48 + n)%N else (87 + n)%N.

Definition escape_unit (c : code_unit) : jsstring :=
  if (c =? 34)%N then [92; 34]%N
  else if (c =? 92)%N then [92; 92]%N
  else if (c =? 8)%N then lit "\b"
  else if (c =? 12)%N then lit "\f"
  else if (c =? 10)%N then lit "\n"
  else if (c =? 13)%N then lit "\r"
  else if (c =? 9)%N then lit "\t"
  else if (c <? 32)%N then lit "\u00" ++ [hex_digit (c / 16); hex_digit (c mod 16)]
  else [c].

Definition quote (s : jsstring) : jsstring :=
  [34%N] ++ List.concat (List.map escape_unit s) ++ [34%N].

Fixpoint fake_stringify (v : json) : jsstring :=
  match v with
  | JNull => lit "null"
  | JBool true => lit "true"
  | JBool false => lit "false"
  | JNumber m e => if e =? 0 then of_Z m else of_Z m ++ lit "e" ++ of_Z e
  | JString s => quote s
  | JArray vs =>
      lit "[" ++ join (lit ",") (List.map fake_stringify vs) ++ lit "]"
  | JObject ms =>
      lit "{"
        ++ join (lit ",")
             (List.map (fun kv => quote (fst kv) ++ lit ":" ++ fake_stringify (snd kv)) ms)
        ++ lit "}"
  end.

(** The time a timer takes: the whole milliseconds asked for, and at least
    one. *)
Definition delay (ms : jsnum) : Z :=
  match ms with
  | Num q => Z.max 1 (Qfloor q)
  | _ => 1
  end.

Definition platform : Platform := {|
  Env := FakeEnv;
  Date_now := clock;
  setTimeout := fun ms e => mkEnv (clock e + delay ms) (inbox e) (read e) (outages e);
  Number_toString := fun _ => lit "?";
  local_date := utc_date;
  uuidv4 := fun e => (fake_uuid, e);
  base64_to_utf8 := fake_decode;
  utf8_to_base64 := fake_encode;
  toLowerCase := ascii_lower;
  JSON_stringify := fake_stringify;
  messages_list := fake_list;
  messages_get := fake_get;
  messages_modify := fake_modify;
  messages_send := fake_send;
  messages_batchModify := fake_batchModify;
  authenticate := fun e => (Ok tt, e)
|}.

(** A reply as the responder's mail client delivers it: plain text in
    base64, with From and Subject headers. *)
Definition reply (id from subject text : jsstring) : Message :=
  mkMessage (Some id) (Some (lit "thread-1"))
    (Some (mkPart (Some (lit "text/plain"))
                  (Some [mkHeader (Some (lit "From")) (Some from);
                         mkHeader (Some (lit "Subject")) (Some subject)])
                  (Some (fake_encode text)) None))
    (Some (lit "1767225600000")).

Definition world (now : Z) (inbox : list Message) (outages : nat) : World platform :=
  mkWorld platform (mkEnv now inbox [] outages) [].

End Fake.

(** ** Vocabulary of the properties *)

Definition keys (o : members) : list jsstring := List.map fst o.

Definition wf_top (v : json) : Prop :=
  match v with
  | JObject ms => NoDup (keys ms)
  | _ => True
  end.

Definition frame_ok (f : frame) : Prop :=
  match f with
  | FObj ms _ => NoDup (keys ms)
  | FArr _ => True
  end.

Definition state_ok (st : parse_state) : Prop :=
  match st with
  | SValue _ stk | SAfterElem _ stk => Forall frame_ok stk
  | SKey _ ms stk | SColon ms _ stk | SAfterMember ms stk =>
      NoDup (keys ms) ∧ Forall frame_ok stk
  | SDone v => wf_top v
  end.

(** The keys of an array are decimal numerals, hence never a name. *)
Definition numeral_unit (c : code_unit) : Prop := (c = 45 ∨ 48 <= c <= 57)%N.

(** The ids fetched by a run of calls. *)
Definition fetched (cs : list Call) : list jsstring :=
  omap (λ c, match c with CallGet id => Some id | _ => None end) cs.

(** What a stretch of polling may add to the call log, given the processed
    set before and after it: list calls, fetches of ids that were not yet
    processed before and are processed after, each fetched once, and
    read-marks of processed ids. *)
Definition log_ok (before after : gset jsstring) (new : list Call) : Prop :=
  Forall (λ c, match c with
               | CallList _ _ => True
               | CallGet id => (id ∉ before) ∧ (id ∈ after)
               | CallModify id _ => id ∈ after
               | CallSend _ | CallBatchModify _ _ => False
               end) new
  ∧ NoDup (fetched new).

(** The request a watcher waits for stays what it is. *)
Definition same_request (t t' : ResponseWatcher) : Prop :=
  responseSenderEmail t' = responseSenderEmail t
  ∧ requestId t' = requestId t
  ∧ pollIntervalMs t' = pollIntervalMs t
  ∧ timeoutMs t' = timeoutMs t
  ∧ startTime t' = startTime t.

(** The platform's clock never runs backwards across a transport call, and
    a timer does not fire early. (Node keeps the latter for delays from 1
    to 2147483647 ms; it runs a longer delay, and one that is not a number,
    as a delay of 1 ms.) *)
Record ClockSound (P : Platform) : Prop := {
  timer_waits : ∀ ms e,
    Date_now P e + Qfloor ms ≤ Date_now P (setTimeout P (Num ms) e);
  list_takes_time : ∀ q n e,
    Date_now P e ≤ Date_now P (snd (messages_list P q n e));
  get_takes_time : ∀ id e,
    Date_now P e ≤ Date_now P (snd (messages_get P id e));
  modify_takes_time : ∀ id ls e,
    Date_now P e ≤ Date_now P (snd (messages_modify P id ls e))
}.

(** [response] was decoded from one of the listed messages, fetched in some
    world, whose subject contains the awaited id. *)
Definition built_from (P : Platform) (requestId : jsstring)
  (messages : list MessageRef) (response : ApiResponse) : Prop :=
  ∃ msg id email w w',
    msg ∈ messages
    ∧ ref_id msg = Some id
    ∧ fetchAndParseMessage P id w = (Ok (Some email), w')
    ∧ includes (subject email) requestId = true
    ∧ extractApiResponse (body email) requestId id = Ok (Some response).

(** The effect of a stretch of polling on the watcher and the call log. *)
Definition effect (P : Platform) (s s' : ResponseWatcher * World P) : Prop :=
  same_request (fst s) (fst s')
  ∧ processedMessageIds (fst s) ⊆ processedMessageIds (fst s')
  ∧ ∃ new, calls P (snd s') = new ++ calls P (snd s)
           ∧ log_ok (processedMessageIds (fst s)) (processedMessageIds (fst s')) new.

(** The clock across a poll cycle. *)
Definition not_earlier (P : Platform) (s s' : ResponseWatcher * World P) : Prop :=
  now P (snd s) ≤ now P (snd s').

(** The five public operations of the client. *)
Inductive PublicCall : Type :=
| ListEvents (start end_ : jsstring)
| CreateEvent (eventData : json)
| UpdateEvent (eventData : json)
| DeleteEvent (eventId : jsstring)
| HealthCheck.

Definition action_of (call : PublicCall) : ApiAction :=
  match call with
  | ListEvents _ _ => list_
  | CreateEvent _ => create
  | UpdateEvent _ => update
  | DeleteEvent _ => event
  | HealthCheck => health
  end.

Definition perform (P : Platform) (c : CalendarEmailClient) (fuel : nat)
  (call : PublicCall) : Pending P ApiResponse :=
  match call with
  | ListEvents start end_ => listEvents P c fuel start end_
  | CreateEvent eventData => createEvent P c fuel eventData
  | UpdateEvent eventData => updateEvent P c fuel eventData
  | DeleteEvent eventId => deleteEvent P c fuel eventId
  | HealthCheck => healthCheck P c fuel
  end.

Definition method_of (call : PublicCall) : ApiMethod :=
  match call with
  | ListEvents _ _ | HealthCheck => GET
  | CreateEvent _ => POST
  | UpdateEvent _ => PATCH
  | DeleteEvent _ => DELETE
  end.

Definition payload_of (call : PublicCall) : json :=
  match call with
  | ListEvents start end_ =>
      JObject [(lit "start", JString start); (lit "end", JString end_)]
  | CreateEvent eventData | UpdateEvent eventData => eventData
  | DeleteEvent eventId => JObject [(lit "id", JString eventId)]
  | HealthCheck => JObject []
  end.

Definition status (response : ApiResponse) : option json :=
  obj_get (lit "status") response.

(** [response.durationMs = d]. *)
Definition stamp (d : Z) (response : ApiResponse) : ApiResponse :=
  obj_set (lit "durationMs") (JNumber d 0) response.

(** What [sendApiEmail] throws when the send has thrown [error]. *)
Definition send_failure (requestId : jsstring) (error : JsError) : JsError :=
  match read_message error with
  | Ok message =>
      CalendarApiError (lit "Failed to send email: " ++ message)
                       ErrorCodes.SEND_FAILED (Some requestId)
  | Raise typeError => typeError
  end.

Definition not_connected_response : ApiResponse :=
  [(lit "status", JString (lit "error"));
   (lit "requestId", JString []);
   (lit "error", JString (lit "Client is not connected. Call connect() first."));
   (lit "data", JObject [(lit "code", JString ErrorCodes.NOT_CONNECTED)]);
   (lit "durationMs", JNumber 0 0)].

(** ** Scenarios on the fake platform *)

Module Scenario.

Import Fake.

Definition responder : jsstring := lit "calendar@example.com".

(** The default poll interval and timeout of config.ts. *)
Definition cfg : CalendarClientConfig :=
  mkConfig (lit "me@example.com") (lit "calendar@example.com") (Some responder)
           (Some (of_int 3000)) (Some (of_int 180000)).

(** 2026-01-01T00:00:00Z *)
Definition t0 : Z := 1767225600000.

Definition watcher (requestId : jsstring) (pollIntervalMs timeoutMs : Z)
  : ResponseWatcher :=
  mkWatcher (Some responder) requestId (of_int pollIntervalMs) (of_int timeoutMs) t0 ∅.

(** A client with the given whole numbers of milliseconds as its timing. *)
Definition client_with (pollIntervalMs timeoutMs : Z) : CalendarEmailClient :=
  mkClient (mkConfig (lit "me@example.com") (lit "calendar@example.com")
                     (Some responder) (Some (of_int pollIntervalMs))
                     (Some (of_int timeoutMs)))
           true true [list_].

(** A reply to the request tagged [abc-123]. *)
Definition reply_abc_123 : Message :=
  reply (lit "m1") responder (lit "Re: " ++ request_subject GET list_ (lit "abc-123"))
        (dq "{'status':'success','events':[]}").

(** A reply to the only request the fake platform ever tags, whose payload
    has a status of its own making. *)
Definition reply_pending : Message :=
  reply (lit "m7") responder (lit "Re: " ++ request_subject GET list_ fake_uuid)
        (dq "{'status':'pending'}").

Definition connected_client : CalendarEmailClient := mkClient cfg true true [list_].

End Scenario.

(** ** Configuration (config.ts) *)

(** A [CalendarClientConfig] as [resolveConfig] leaves it. By its type every
    field holds a value; a field that the caller gave as [undefined] holds
    [undefined] ([None]). *)
Record ResolvedConfig : Type := mkResolved {
  rc_senderEmail : option jsstring;
  rc_recipientEmail : option jsstring;
  rc_responseSenderEmail : option jsstring;
  rc_credentialsPath : option jsstring;
  rc_tokenPath : option jsstring;
  rc_pollIntervalMs : option jsnum;
  rc_requestTimeoutMs : option jsnum;
  rc_scopes : option (list jsstring)
}.

(** A [Partial<CalendarClientConfig>]: a key is left out ([None]), given as
    [undefined] ([Some None]), or given with a value. *)
Record PartialConfig : Type := mkPartial {
  p_senderEmail : option (option jsstring);
  p_recipientEmail : option (option jsstring);
  p_responseSenderEmail : option (option jsstring);
  p_credentialsPath : option (option jsstring);
  p_tokenPath : option (option jsstring);
  p_pollIntervalMs : option (option jsnum);
  p_requestTimeoutMs : option (option jsnum);
  p_scopes : option (option (list jsstring))
}.

Definition no_overrides : PartialConfig :=
  mkPartial None None None None None None None None.

Definition DEFAULT_CONFIG : ResolvedConfig :=
  mkResolved
    (Some (lit "abdatta1998@gmail.com"))
    (Some (lit "abhishek.datta.2027@anderson.ucla.edu"))
    (Some (lit "abhishek.datta.2027@anderson.ucla.edu"))
    (Some (lit "credentials.json"))
    (Some (lit "token.json"))
    (Some (of_int 3000))
    (Some (of_int 180000))
    (Some [lit "https://www.googleapis.com/auth/gmail.send";
           lit "https://www.googleapis.com/auth/gmail.readonly";
           lit "https://www.googleapis.com/auth/gmail.modify"]).

(** One key of an object spread: a key that the source has wins, with
    whatever it holds. *)
Definition override {A : Type} (target : option A) (source : option (option A))
  : option A :=
  match source with
  | None => target
  | Some v => v
  end.

(** [{ ...DEFAULT_CONFIG, ...partial }]; spreading [undefined] adds
    nothing. *)
Definition merge_config (partial : option PartialConfig) : ResolvedConfig :=
  match partial with
  | None => DEFAULT_CONFIG
  | Some p =>
      mkResolved
        (override (rc_senderEmail DEFAULT_CONFIG) (p_senderEmail p))
        (override (rc_recipientEmail DEFAULT_CONFIG) (p_recipientEmail p))
        (override (rc_responseSenderEmail DEFAULT_CONFIG) (p_responseSenderEmail p))
        (override (rc_credentialsPath DEFAULT_CONFIG) (p_credentialsPath p))
        (override (rc_tokenPath DEFAULT_CONFIG) (p_tokenPath p))
        (override (rc_pollIntervalMs DEFAULT_CONFIG) (p_pollIntervalMs p))
        (override (rc_requestTimeoutMs DEFAULT_CONFIG) (p_requestTimeoutMs p))
        (override (rc_scopes DEFAULT_CONFIG) (p_scopes p))
  end.

(** [!s] for a string that may be [undefined]. *)
Definition is_empty (s : option jsstring) : bool :=
  match s with
  | Some (_ :: _) => false
  | _ => true
  end.

(** [resolveConfig]: the defaults, overridden by what is given, then
    validated; the first failing test throws. *)
Definition resolveConfig (partial : option PartialConfig)
  : outcome JsError ResolvedConfig :=
  let config := merge_config partial in
  if is_empty (rc_senderEmail config) then
    Raise (OtherError (lit "Config: senderEmail is required"))
  else if is_empty (rc_recipientEmail config) then
    Raise (OtherError (lit "Config: recipientEmail is required"))
  else if is_empty (rc_credentialsPath config) then
    Raise (OtherError (lit "Config: credentialsPath is required"))
  else if num_lt (to_number (rc_pollIntervalMs config)) (of_int 500) then
    Raise (OtherError (lit "Config: pollIntervalMs must be at least 500ms"))
  else if num_lt (to_number (rc_requestTimeoutMs config)) (of_int 5000) then
    Raise (OtherError (lit "Config: requestTimeoutMs must be at least 5000ms"))
  else Ok config.

(** The fields of the configuration that the request path reads; the two
    addresses have passed the validation and are not [undefined]. *)
Definition client_config (rc : ResolvedConfig) : CalendarClientConfig :=
  mkConfig (default [] (rc_senderEmail rc)) (default [] (rc_recipientEmail rc))
           (rc_responseSenderEmail rc)
           (rc_pollIntervalMs rc) (rc_requestTimeoutMs rc).

(** [new CalendarEmailClient(config)]: the constructor resolves the
    configuration first, and throws what [resolveConfig] throws. *)
Definition construct_client (partial : option PartialConfig)
  : outcome JsError CalendarEmailClient :=
  match resolveConfig partial with
  | Ok rc => Ok (new_CalendarEmailClient (client_config rc))
  | Raise e => Raise e
  end.

(** A number of milliseconds that is a number, and not [NaN] nor an
    infinity. *)
Definition finite (n : jsnum) : Prop :=
  match n with
  | Num _ => True
  | _ => False
  end.

(** The whole milliseconds of a finite number. *)
Definition whole (n : jsnum) : Z :=
  match n with
  | Num q => Qfloor q
  | _ => 0
  end.

(** The ids marked read by a run of calls, and its number of list calls. *)
Definition marked (cs : list Call) : list jsstring :=
  omap (λ c, match c with CallModify id _ => Some id | _ => None end) cs.

Definition list_calls (cs : list Call) : nat :=
  List.length (List.filter (λ c, match c with CallList _ _ => true | _ => false end) cs).

(** The ids of a list of message references. *)
Definition ref_ids (ms : list MessageRef) : list jsstring := omap ref_id ms.

(** The messages that the list call of a poll cycle started in [s] returns. *)
Definition listed (P : Platform) (s : ResponseWatcher * World P) : list MessageRef :=
  match fst (messages_list P (poll_query P (fst s)) 35 (env P (snd s))) with
  | Ok (Some ms) => ms
  | _ => []
  end.

(** The world in which the loop of that poll cycle begins: the list call has
    been made. *)
Definition after_list (P : Platform) (s : ResponseWatcher * World P) : World P :=
  mkWorld P (snd (messages_list P (poll_query P (fst s)) 35 (env P (snd s))))
          (CallList (poll_query P (fst s)) 35 :: calls P (snd s)).


(** A stretch of the log made by a watcher alone: list, get and modify. *)
Definition polling_only (cs : list Call) : Prop :=
  Forall (λ c, match c with
               | CallList _ _ | CallGet _ | CallModify _ _ => True
               | CallSend _ | CallBatchModify _ _ => False
               end) cs.

(** The raw message that [sendApiEmail] hands to the transport. *)
Definition raw_request (P : Platform) (method : ApiMethod) (action : ApiAction)
  (payload : json) (from to requestId : jsstring) : jsstring :=
  encodeBase64Url P
    (buildRawEmail from to (request_subject method action requestId)
                   (JSON_stringify P payload)).

(** The stages of a request that a connected client makes in the world [w]:
    the id it mints, the raw message it sends, what the send gives, the
    world after the send, and the watcher it constructs there. *)
Definition minted (P : Platform) (w : World P) : jsstring := fst (uuidv4 P (env P w)).

Definition sent_raw (P : Platform) (c : CalendarEmailClient) (call : PublicCall)
  (w : World P) : jsstring :=
  raw_request P (method_of call) (action_of call) (payload_of call)
              (senderEmail (config c)) (recipientEmail (config c)) (minted P w).

Definition send_result (P : Platform) (c : CalendarEmailClient) (call : PublicCall)
  (w : World P) : outcome JsError SendResult * Env P :=
  messages_send P (sent_raw P c call w) (snd (uuidv4 P (env P w))).

Definition after_send (P : Platform) (c : CalendarEmailClient) (call : PublicCall)
  (w : World P) : World P :=
  mkWorld P (snd (send_result P c call w)) (CallSend (sent_raw P c call w) :: calls P w).

Definition watcher_of (P : Platform) (c : CalendarEmailClient) (call : PublicCall)
  (w : World P) : ResponseWatcher :=
  new_ResponseWatcher P (cfg_responseSenderEmail (config c)) (minted P w)
    (cfg_pollIntervalMs (config c)) (requestTimeoutMs (config c))
    (after_send P c call w).

(** The ids that [sendRequest] hands to [cleanupMessages] after a match. *)
Definition messagesToDelete (sentId : jsstring) (response : ApiResponse) : list json :=
  JString sentId
  :: match obj_get (lit "messageId") response with
     | Some v => if truthy v then [v] else []
     | None => []
     end.

(** The timing of the watcher that a client makes. *)
Definition watch_interval (c : CalendarEmailClient) : jsnum :=
  default (of_int 2000) (cfg_pollIntervalMs (config c)).

Definition watch_timeout (c : CalendarEmailClient) : jsnum :=
  default (of_int 30000) (requestTimeoutMs (config c)).

(** The response that [executeApiCall] makes of a thrown [CalendarApiError]. *)
Definition error_response (message code : jsstring) (d : Z) : ApiResponse :=
  [(lit "status", JString (lit "error"));
   (lit "requestId", JString []);
   (lit "error", JString message);
   (lit "data", JObject [(lit "code", JString code)]);
   (lit "durationMs", JNumber d 0)].

(** The two replacements that [extractApiResponse] makes before it looks
    for the braces: carriage return and line feed become the two-unit texts
    backslash-r and backslash-n. *)
Definition escape_newlines (s : jsstring) : jsstring :=
  replace_unit 10%N (lit "\n") (replace_unit 13%N (lit "\r") s).

(** A part that [extractBody] takes for plain text: [text/plain] with data. *)
Definition is_plain_with_data (p : MessagePart) : Prop :=
  match p with
  | mkPart mime _ data _ =>
      mime = Some (lit "text/plain") ∧ ∃ d, data = Some d ∧ d ≠ []
  end.

(** The list calls of a run of calls. *)
Definition list_queries (cs : list Call) : list (jsstring * Z) :=
  omap (λ c, match c with CallList q n => Some (q, n) | _ => None end) cs.

(** ** Authentication ([GmailAuth], the OAuth module) *)

Module Auth.

(** A stored token, as the code reads it: the access token and the expiry
    date (a number of milliseconds), either of which may be missing. *)
Record TokenData : Type := mkToken {
  access_token : option jsstring;
  expiry_date : option Z
}.

(** A request that the handler of the local callback server is called
    with: one without a URL; one whose target [new URL(req.url, base)]
    rejects, throwing [e]; or one whose URL parses, with the [code] and
    [error] parameters of its query ([None]: the parameter is absent). *)
Inductive AuthRequest : Type :=
| NoUrl
| BadUrl (e : JsError)
| Callback (code error : option jsstring).

(** What the module calls outside: the clock, the token file, Google's
    OAuth client, the browser and the callback server. *)
Record AuthHost : Type := {
  AEnv : Type;
  auth_now : AEnv -> Z;
  (* fs.readFile(tokenPath, "utf-8") *)
  read_file : AEnv -> outcome JsError jsstring * AEnv;
  (* JSON.parse(content) as TokenData; None is a falsy value *)
  parse_token : jsstring -> outcome JsError (option TokenData);
  (* fs.writeFile(tokenPath, JSON.stringify(token, null, 2)) *)
  write_token : TokenData -> AEnv -> outcome JsError unit * AEnv;
  refresh_access_token : AEnv -> outcome JsError TokenData * AEnv;
  (* generateAuthUrl({ ..., scope: this.config.scopes, ... }) *)
  generate_auth_url : option (list jsstring) -> jsstring;
  open_browser : jsstring -> AEnv -> outcome JsError unit * AEnv;
  (* http.createServer(handler).listen(3847): the requests the handler is
     called with, in order, until the promise is settled or the five minutes
     are over; or the error event of a server that cannot listen *)
  serve : AEnv -> outcome JsError (list AuthRequest) * AEnv;
  get_token : jsstring -> AEnv -> outcome JsError TokenData * AEnv
}.

Inductive AuthEvent : Type :=
| EvReadToken
| EvRefresh
| EvSave (token : TokenData)
| EvBrowser (url : jsstring)
| EvListen
| EvExchange (code : jsstring).

Definition REDIRECT_URI : jsstring := lit "http://localhost:3847/oauth2callback".

Record OAuthClient : Type := mkOAuth {
  redirectUri : jsstring;
  credentials : option TokenData
}.

(** [this.config.credentials], of which [authenticate] reads the redirect
    URIs; the client id and secret are only handed on. *)
Record Credentials : Type := mkCredentials {
  redirect_uris : option (list jsstring)
}.

(** The fields of a [GmailAuth] and the parts of its configuration that
    [authenticate] reads; [None] is [undefined]. *)
Record GmailAuth : Type := mkAuth {
  config_credentials : option Credentials;
  scopes : option (list jsstring);
  oauth2Client : option OAuthClient;
  gmailClient : bool
}.

(** How an asynchronous call ends: its promise is settled, or the process
    dies of an exception thrown where no [catch] of the code is around it
    (in an event handler). *)
Inductive fate (A : Type) : Type :=
| Settled (o : outcome JsError A)
| Died (e : JsError).
Arguments Settled {A} o.
Arguments Died {A} e.

Section Flow.

Variable H : AuthHost.

Record AuthWorld : Type := mkAuthWorld {
  aenv : AEnv H;
  events : list AuthEvent
}.

Definition AuthM (A : Type) : Type :=
  GmailAuth * AuthWorld -> fate A * (GmailAuth * AuthWorld).

Definition aret {A} (a : A) : AuthM A := fun s => (Settled (Ok a), s).
Definition athrow {A} (e : JsError) : AuthM A := fun s => (Settled (Raise e), s).
Definition apure {A} (o : outcome JsError A) : AuthM A := fun s => (Settled o, s).
Definition abind {A B} (c : AuthM A) (k : A -> AuthM B) : AuthM B :=
  fun s => match c s with
           | (Settled (Ok a), s') => k a s'
           | (Settled (Raise e), s') => (Settled (Raise e), s')
           | (Died e, s') => (Died e, s')
           end.
(** [try]/[catch] sees what is thrown in its block, and nothing else. *)
Definition acatch {A} (c : AuthM A) (handler : JsError -> AuthM A) : AuthM A :=
  fun s => match c s with
           | (Settled (Raise e), s') => handler e s'
           | r => r
           end.
Definition agets {A} (f : GmailAuth * AuthWorld -> A) : AuthM A :=
  fun s => (Settled (Ok (f s)), s).
Definition amodify (f : GmailAuth * AuthWorld -> GmailAuth * AuthWorld) : AuthM unit :=
  fun s => (Settled (Ok tt), f s).

Notation "'let+' x ':=' c 'in' k" := (abind c (fun x => k))
  (at level 10, x pattern, c at level 100, k at level 200).
Notation "c ';+' k" := (abind c (fun _ => k))
  (at level 100, k at level 200, right associativity).

Definition host {A : Type} (ev : AuthEvent)
  (op : AEnv H -> outcome JsError A * AEnv H) : AuthM A :=
  fun s => let (r, e') := op (aenv (snd s)) in
           (Settled r, (fst s, mkAuthWorld e' (ev :: events (snd s)))).

Definition set_client (c : option OAuthClient) : AuthM unit :=
  amodify (fun s =>
    (mkAuth (config_credentials (fst s)) (scopes (fst s)) c (gmailClient (fst s)),
     snd s)).

(** [this.oauth2Client.setCredentials(token)]. *)
Definition setCredentials (token : TokenData) : AuthM unit :=
  amodify (fun s =>
    (mkAuth (config_credentials (fst s)) (scopes (fst s))
            (option_map (fun c => mkOAuth (redirectUri c) (Some token))
                        (oauth2Client (fst s)))
            (gmailClient (fst s)), snd s)).

Definition set_gmailClient : AuthM unit :=
  amodify (fun s =>
    (mkAuth (config_credentials (fst s)) (scopes (fst s)) (oauth2Client (fst s)) true,
     snd s)).

(** [loadToken]: the parsed token file, or [null] when reading or parsing
    fails. *)
Definition loadToken : AuthM (option TokenData) :=
  acatch
    (let+ content := host EvReadToken (read_file H) in
     apure (parse_token H content))
    (fun _ => aret None).

Definition saveToken (token : TokenData) : AuthM unit :=
  host (EvSave token) (write_token H token).

(** [isTokenExpired]: no expiry date, or less than five minutes to it. *)
Definition isTokenExpired (token : option TokenData) (now : Z) : bool :=
  match match token with Some t => expiry_date t | None => None end with
  | None => true
  | Some expiryDate =>
      if expiryDate =? 0 then true
      else now >=? expiryDate - 5 * 60 * 1000
  end.

(** What the handler of the callback server does with a request: nothing
    that settles the promise, or it settles it, or it throws. *)
Inductive handled : Type :=
| Ignored
| Decided (o : outcome JsError jsstring)
| Uncaught (e : JsError).

Definition handle_request (req : AuthRequest) : handled :=
  match req with
  | NoUrl => Ignored
  | BadUrl e => Uncaught e
  | Callback code error =>
      match error with
      | Some (c :: error) =>
          Decided (Raise (CalendarApiError (lit "Authorization denied: " ++ c :: error)
                                           ErrorCodes.AUTH_FAILED None))
      | _ =>
          match code with
          | Some (c :: code) => Decided (Ok (c :: code))
          | _ => Ignored
          end
      end
  end.

(** The promise of [waitForAuthCode] over the requests that the handler is
    called with; when they run out, the timer rejects. *)
Fixpoint await_code (reqs : list AuthRequest) : fate jsstring :=
  match reqs with
  | [] => Settled (Raise (CalendarApiError (lit "Authorization timed out")
                                           ErrorCodes.AUTH_FAILED None))
  | req :: reqs' =>
      match handle_request req with
      | Decided result => Settled result
      | Uncaught e => Died e
      | Ignored => await_code reqs'
      end
  end.

(** [waitForAuthCode]; the error event of a server that cannot listen has
    no listener. *)
Definition waitForAuthCode : AuthM jsstring :=
  fun s =>
    let (served, e') := serve H (aenv (snd s)) in
    (match served with
     | Ok reqs => await_code reqs
     | Raise e => Died e
     end,
     (fst s, mkAuthWorld e' (EvListen :: events (snd s)))).

Definition runConsentFlow : AuthM unit :=
  let+ client := agets (fun s => oauth2Client (fst s)) in
  match client with
  | None =>
      athrow (CalendarApiError (lit "OAuth2 client not initialized")
                               ErrorCodes.AUTH_FAILED None)
  | Some _ =>
      let+ sc := agets (fun s => scopes (fst s)) in
      let authUrl := generate_auth_url H sc in
      (* Open browser; a failure only changes what is printed *)
      acatch (host (EvBrowser authUrl) (open_browser H authUrl)) (fun _ => aret tt) ;+
      (* Wait for callback *)
      let+ code := waitForAuthCode in
      (* Exchange code for tokens *)
      let+ tokens := host (EvExchange code) (get_token H code) in
      setCredentials tokens ;+
      saveToken tokens
  end.

Definition refreshToken : AuthM unit :=
  let+ client := agets (fun s => oauth2Client (fst s)) in
  match client with
  | None => aret tt
  | Some _ =>
      acatch
        (let+ creds := host EvRefresh (refresh_access_token H) in
         setCredentials creds ;+
         saveToken creds)
        (* If refresh fails, need full re-auth *)
        (fun _ => runConsentFlow)
  end.

(** The [TypeError] of destructuring [this.config.credentials] when the
    configuration has none. *)
Definition no_credentials : JsError :=
  OtherError
    (lit "Cannot destructure property 'client_id' of 'this.config.credentials' as it is undefined.").

Definition authenticate : AuthM unit :=
  acatch
    (let+ creds := agets (fun s => config_credentials (fst s)) in
     match creds with
     | None => athrow no_credentials
     | Some creds =>
         (* Use the first redirect URI or a default *)
         let redirectUri :=
           match redirect_uris creds with
           | Some (uri :: _) => uri
           | _ => REDIRECT_URI
           end in
         set_client (Some (mkOAuth redirectUri None)) ;+
         (* Try to load existing token *)
         let+ existingToken := loadToken in
         match existingToken with
         | Some token =>
             setCredentials token ;+
             let+ now := agets (fun s => auth_now H (aenv (snd s))) in
             (if isTokenExpired (Some token) now then refreshToken else aret tt)
         | None =>
             (* First-time auth: run consent flow *)
             runConsentFlow
         end ;+
         set_gmailClient
     end)
    (fun error =>
       match error with
       | CalendarApiError _ _ _ => athrow error
       | _ =>
           let+ message := apure (read_message error) in
           athrow (CalendarApiError (lit "Authentication failed: " ++ message)
                                    ErrorCodes.AUTH_FAILED None)
       end).

(** [getClient]. *)
Definition getClient (a : GmailAuth) : outcome JsError unit :=
  if gmailClient a then Ok tt
  else Raise (CalendarApiError (lit "Not authenticated. Call authenticate() first.")
                               ErrorCodes.NOT_CONNECTED None).

(** [isAuthenticated]. *)
Definition isAuthenticated (a : GmailAuth) (now : Z) : bool :=
  match oauth2Client a with
  | None => false
  | Some client =>
      match match credentials client with
            | Some t => access_token t
            | None => None
            end with
      | Some (_ :: _) => negb (isTokenExpired (credentials client) now)
      | _ => false
      end
  end.

End Flow.

End Auth.

(** A host for the authentication module that can be run: the token file
    is a string parsed with [JSON_parse], Google's answers and the requests
    at the callback server are given in advance. *)
Module FakeAuth.

Import Auth.

Record FakeAuthEnv : Type := mkAuthEnv {
  fa_clock : Z;
  token_file : option jsstring;
  disk_full : bool;
  refresh_answer : option TokenData;
  port_in_use : bool;
  callback_requests : list AuthRequest;
  exchange_answer : option TokenData
}.

Definition google_answer (t : option TokenData) : outcome JsError TokenData :=
  match t with
  | Some token => Ok token
  | None => Raise (OtherError (lit "invalid_grant"))
  end.

Definition token_json (t : TokenData) : json :=
  JObject
    (match access_token t with
     | Some s => [(lit "access_token", JString s)]
     | None => []
     end
     ++ match expiry_date t with
        | Some d => [(lit "expiry_date", JNumber d 0)]
        | None => []
        end).

Definition token_of_json (j : json) : option TokenData :=
  if truthy j then
    Some (match j with
          | JObject ms =>
              mkToken
                (match obj_get (lit "access_token") ms with
                 | Some (JString s) => Some s
                 | _ => None
                 end)
                (match obj_get (lit "expiry_date") ms with
                 | Some (JNumber d 0) => Some d
                 | _ => None
                 end)
          | _ => mkToken None None
          end)
  else None.

Definition fake_read (e : FakeAuthEnv) : outcome JsError jsstring * FakeAuthEnv :=
  match token_file e with
  | Some content => (Ok content, e)
  | None => (Raise (OtherError (lit "ENOENT: no such file or directory")), e)
  end.

Definition fake_write (t : TokenData) (e : FakeAuthEnv)
  : outcome JsError unit * FakeAuthEnv :=
  if disk_full e then (Raise (OtherError (lit "ENOSPC: no space left on device")), e)
  else (Ok tt,
        mkAuthEnv (fa_clock e) (Some (Fake.fake_stringify (token_json t)))
                  (disk_full e) (refresh_answer e) (port_in_use e)
                  (callback_requests e) (exchange_answer e)).

Definition fake_serve (e : FakeAuthEnv)
  : outcome JsError (list AuthRequest) * FakeAuthEnv :=
  if port_in_use e
  then (Raise (OtherError (lit "listen EADDRINUSE: address already in use :::3847")), e)
  else (Ok (callback_requests e), e).

Definition auth_host : AuthHost := {|
  AEnv := FakeAuthEnv;
  auth_now := fa_clock;
  read_file := fake_read;
  parse_token := fun content =>
    match JSON_parse content with
    | Ok j => Ok (token_of_json j)
    | Raise _ => Raise (OtherError (lit "Unexpected token in JSON"))
    end;
  write_token := fake_write;
  refresh_access_token := fun e => (google_answer (refresh_answer e), e);
  generate_auth_url := fun scopes =>
    lit "https://accounts.google.com/o/oauth2/v2/auth?scope="
      ++ join (lit " ") (default [] scopes);
  open_browser := fun _ e => (Ok tt, e);
  serve := fake_serve;
  get_token := fun _ e => (google_answer (exchange_answer e), e)
|}.

(** A [GmailAuth] just constructed, from a configuration with credentials
    that name no redirect URI. *)
Definition fresh_auth : GmailAuth :=
  mkAuth (Some (mkCredentials None))
         (Some [lit "https://www.googleapis.com/auth/gmail.modify"]) None false.

Definition token_2026 : TokenData :=
  mkToken (Some (lit "ya29.a0")) (Some 1767229200000).

(** A machine with no token file, where the user will grant access. *)
Definition first_run : FakeAuthEnv :=
  mkAuthEnv 1767225600000 None false None false
            [Callback None None; Callback (Some (lit "4/0AX4")) None]
            (Some token_2026).

(** The same machine when the user refuses. *)
Definition first_run_denied : FakeAuthEnv :=
  mkAuthEnv 1767225600000 None false None false
            [Callback None (Some (lit "access_denied"))]
            (Some token_2026).

(** A machine with a token file; the token in it expires at [expiry]. *)
Definition returning (expiry : Z) (refreshed : option TokenData) : FakeAuthEnv :=
  mkAuthEnv 1767225600000
            (Some (Fake.fake_stringify
                     (token_json (mkToken (Some (lit "ya29.old")) (Some expiry)))))
            false refreshed false
            [Callback (Some (lit "4/0AX4")) None]
            (Some token_2026).

Definition consent_url : jsstring :=
  generate_auth_url auth_host (scopes fresh_auth).

End FakeAuth.

(** A failure of the host that the code can wrap: not a [CalendarApiError],
    and not a thrown [null] or [undefined]. *)
Definition foreign {A : Type} (o : outcome JsError A) : Prop :=
  match o with
  | Raise (CalendarApiError _ _ _) => False
  | Raise (ThrownValue _ None) => False
  | _ => True
  end.

Definition host_errors_foreign (H : Auth.AuthHost) : Prop :=
  (∀ e, foreign (fst (Auth.read_file H e)))
  ∧ (∀ t e, foreign (fst (Auth.write_token H t e)))
  ∧ (∀ e, foreign (fst (Auth.refresh_access_token H e)))
  ∧ (∀ u e, foreign (fst (Auth.open_browser H u e)))
  ∧ (∀ c e, foreign (fst (Auth.get_token H c e)))
  ∧ (∀ c, foreign (Auth.parse_token H c)).

(** No usable token on disk: the file cannot be read or parsed, or holds a
    falsy value. *)
Definition no_stored_token (H : Auth.AuthHost) (read : outcome JsError jsstring)
  : Prop :=
  match read with
  | Ok content =>
      match Auth.parse_token H content with
      | Ok (Some _) => False
      | _ => True
      end
  | Raise _ => True
  end.

(** The redirect URI [authenticate] gives the OAuth client. *)
Definition chosen_redirect (creds : Auth.Credentials) : jsstring :=
  match Auth.redirect_uris creds with
  | Some (uri :: _) => uri
  | _ => Auth.REDIRECT_URI
  end.

(** A request that the handler of the callback server passes over: it has
    no URL, or its query has neither an error nor a code (an empty one
    counts as none). *)
Definition passed_over (req : Auth.AuthRequest) : Prop :=
  match req with
  | Auth.NoUrl => True
  | Auth.BadUrl _ => False
  | Auth.Callback code error =>
      (code = None ∨ code = Some []) ∧ (error = None ∨ error = Some [])
  end.

(** * Properties *)

(** ** Pairs *)

Lemma pair_of_fst {A B : Type} (x : A * B) (a : A) : fst x = a → x = (a, snd x).
Proof. intros <-. apply surjective_pairing. Qed.

(** A settled computation, from its outcome alone. *)
Lemma settled_with {A B : Type} (x : option (A * B)) (a : A) :
  option_map fst x = Some a → ∃ b, x = Some (a, b).
Proof. destruct x as [[a' b]|]; cbn; intros; simplify_eq; eauto. Qed.

(** ** Numbers *)

Lemma Qlt_bool_floor (q : Q) (a : Z) : Qlt_bool q (inject_Z a) = (Qfloor q <? a).
Proof.
  unfold Qlt_bool. destruct (Z.ltb_spec (Qfloor q) a) as [Hlt|Hge].
  - apply negb_true_iff. destruct (Qle_bool (inject_Z a) q) eqn:Hle; [|reflexivity].
    apply Qle_bool_iff in Hle. apply Qfloor_resp_le in Hle.
    rewrite Qfloor_Z in Hle. lia.
  - apply negb_false_iff. apply Qle_bool_iff.
    apply Qle_trans with (inject_Z (Qfloor q)); [|apply Qfloor_le].
    rewrite <- Zle_Qle. exact Hge.
Qed.

(** A comparison of a whole number with a finite one goes by the whole
    part. *)
Lemma num_gt_whole (a : Z) (n : jsnum) :
  finite n → num_gt (of_int a) n = (a >? whole n).
Proof.
  destruct n as [q| | |]; try contradiction. intros _.
  unfold num_gt, num_lt, of_int, whole. rewrite Qlt_bool_floor.
  rewrite Z.gtb_ltb. reflexivity.
Qed.

Lemma num_lt_whole (n : jsnum) (a : Z) :
  finite n → num_lt n (of_int a) = (whole n <? a).
Proof.
  destruct n as [q| | |]; try contradiction. intros _.
  unfold num_lt, of_int, whole. apply Qlt_bool_floor.
Qed.

Lemma whole_of_int (z : Z) : whole (of_int z) = z.
Proof. unfold whole, of_int. apply Qfloor_Z. Qed.

(** ** Strings *)

Section StringFacts.

Implicit Types s d p r : jsstring.

Lemma startsWith_app d r : startsWith (d ++ r) d = true.
Proof.
  induction d as [|c d IH]; simpl; [reflexivity|].
  unfold unit_eqb. rewrite N.eqb_refl. exact IH.
Qed.

Lemma indexOf_from_skip c s c0 d i :
  c ≠ c0 → indexOf_from (c :: s) (c0 :: d) i = indexOf_from s (c0 :: d) (i + 1).
Proof.
  intros Hne. simpl. unfold unit_eqb.
  destruct (N.eqb_spec c c0) as [->|_]; [contradiction|reflexivity].
Qed.

(** The first occurrence of [c0 :: d] after a prefix without [c0] is right
    after the prefix. *)
Lemma indexOf_from_after p c0 d r i :
  Forall (λ c, c ≠ c0) p →
  indexOf_from (p ++ (c0 :: d) ++ r) (c0 :: d) i = i + Z.of_nat (List.length p).
Proof.
  intros Hp. revert i. induction Hp as [|c p Hc Hp IH]; intros i.
  - change ([] ++ (c0 :: d) ++ r) with ((c0 :: d) ++ r).
    destruct ((c0 :: d) ++ r) eqn:E; [discriminate|].
    rewrite <- E. unfold indexOf_from at 1.
    destruct ((c0 :: d) ++ r) eqn:E'; [discriminate|].
    rewrite <- E'. rewrite startsWith_app. simpl. lia.
  - change ((c :: p) ++ (c0 :: d) ++ r) with (c :: (p ++ (c0 :: d) ++ r)).
    rewrite indexOf_from_skip by assumption. rewrite IH.
    rewrite length_cons. lia.
Qed.

Lemma indexOf_from_absent p c0 d i :
  Forall (λ c, c ≠ c0) p → indexOf_from p (c0 :: d) i = -1.
Proof.
  intros Hp. revert i. induction Hp as [|c p Hc Hp IH]; intros i.
  - reflexivity.
  - rewrite indexOf_from_skip by assumption. apply IH.
Qed.

Lemma substring_prefix p r :
  substring (p ++ r) 0 (Z.of_nat (List.length p)) = p.
Proof.
  unfold substring, clamp. rewrite length_app.
  replace (Z.max 0 (Z.min 0 _)) with 0 by lia.
  replace (Z.max 0 (Z.min (Z.of_nat (List.length p)) _))
    with (Z.of_nat (List.length p)) by lia.
  rewrite Z.min_l, Z.max_r by lia.
  rewrite Z.sub_0_r, Nat2Z.id. change (Z.to_nat 0) with 0%nat.
  cbn [skipn]. apply take_app_length.
Qed.

End StringFacts.

(** ** The decoder *)

(** Everything from the first delimiter on is dropped, when the text before
    it has no underscore. *)
Lemma potentialJson_truncates (p r : jsstring) :
  Forall (λ c, c ≠ 95%N) p →
  potentialJson (p ++ delimiter ++ r) = potentialJson p.
Proof.
  intros Hp. unfold potentialJson, indexOf.
  change delimiter with (95%N :: List.tl delimiter).
  rewrite indexOf_from_after, indexOf_from_absent by assumption.
  rewrite Z.add_0_l.
  destruct (Z.eqb_spec (Z.of_nat (List.length p)) (-1)) as [E|_]; [lia|].
  cbn [negb]. rewrite substring_prefix. reflexivity.
Qed.

(** C4: a payload followed by the reply-quote delimiter and any quoted
    history -- another object included -- decodes to the payload before the
    delimiter: the body is cut at the first delimiter before the braces are
    looked for. *)
Theorem extractApiResponse_truncates_quoted_history :
  ∀ quoted requestId messageId : jsstring,
    extractApiResponse (dq "{'a':1}" ++ delimiter ++ quoted) requestId messageId
    = Ok (Some [(lit "requestId", JString requestId);
                (lit "messageId", JString messageId);
                (lit "a", JNumber 1 0)]).
Proof.
  intros quoted rid mid. unfold extractApiResponse.
  rewrite potentialJson_truncates.
  - vm_compute. reflexivity.
  - vm_compute. repeat constructor; discriminate.
Qed.

(** ** Objects *)

Lemma obj_get_obj_set k k' v o :
  obj_get k (obj_set k' v o) = if decide (k' = k) then Some v else obj_get k o.
Proof.
  induction o as [|[k1 v1] o IH]; simpl.
  - reflexivity.
  - destruct (decide (k1 = k')) as [->|Hne]; simpl.
    + destruct (decide (k' = k)); reflexivity.
    + rewrite IH. destruct (decide (k1 = k)) as [->|]; [|reflexivity].
      destruct (decide (k' = k)); [congruence|reflexivity].
Qed.

Lemma obj_get_None k o : obj_get k o = None ↔ k ∉ keys o.
Proof.
  induction o as [|[k1 v1] o IH]; simpl.
  - split; [intros _; apply not_elem_of_nil|reflexivity].
  - rewrite not_elem_of_cons.
    destruct (decide (k1 = k)) as [->|Hne].
    + split; [discriminate|intros [? _]; congruence].
    + rewrite IH. split; [intros ?; split; congruence|intros [_ ?]; assumption].
Qed.

Lemma keys_obj_set k v o :
  keys (obj_set k v o) = if bool_decide (k ∈ keys o) then keys o else keys o ++ [k].
Proof.
  induction o as [|[k1 v1] o IH]; simpl.
  - reflexivity.
  - destruct (decide (k1 = k)) as [->|Hne]; simpl.
    + rewrite bool_decide_eq_true_2 by (apply elem_of_cons; left; reflexivity). reflexivity.
    + rewrite IH. destruct (bool_decide (k ∈ keys o)) eqn:E.
      * apply bool_decide_eq_true in E.
        rewrite bool_decide_eq_true_2 by (apply elem_of_cons; right; exact E).
        reflexivity.
      * apply bool_decide_eq_false in E.
        rewrite bool_decide_eq_false_2; [reflexivity|].
        rewrite elem_of_cons. intros [?|?]; [congruence|contradiction].
Qed.

Lemma NoDup_keys_obj_set k v o : NoDup (keys o) → NoDup (keys (obj_set k v o)).
Proof.
  intros Hnd. rewrite keys_obj_set.
  destruct (bool_decide (k ∈ keys o)) eqn:E; [assumption|].
  apply bool_decide_eq_false in E. apply NoDup_app. split; [assumption|].
  split; [|apply NoDup_singleton].
  intros x Hx Hk. apply list_elem_of_singleton in Hk. subst. contradiction.
Qed.

(** [{ ...target, ...source }[k]]: the source's value where it has the key,
    the target's otherwise. *)
Lemma obj_get_spread k target source :
  NoDup (keys source) →
  obj_get k (spread target source)
  = match obj_get k source with Some v => Some v | None => obj_get k target end.
Proof.
  unfold spread. revert target.
  induction source as [|[k1 v1] s IH]; intros target Hnd; simpl.
  - reflexivity.
  - simpl in Hnd. apply NoDup_cons in Hnd as [Hk1 Hnd].
    rewrite IH by assumption. rewrite obj_get_obj_set.
    destruct (decide (k1 = k)) as [->|Hne]; [|reflexivity].
    apply obj_get_None in Hk1. rewrite Hk1. reflexivity.
Qed.

Lemma obj_get_spread_absent k target source :
  obj_get k source = None →
  obj_get k (spread target source) = obj_get k target.
Proof.
  unfold spread. revert target.
  induction source as [|[k1 v1] s IH]; intros target Hk; simpl in *.
  - reflexivity.
  - destruct (decide (k1 = k)) as [->|Hne]; [discriminate|].
    rewrite IH by assumption. rewrite obj_get_obj_set.
    destruct (decide (k1 = k)); [contradiction|reflexivity].
Qed.

(** ** [JSON.parse] yields objects without repeated keys *)

Lemma complete_ok v stk :
  wf_top v → Forall frame_ok stk → state_ok (complete v stk).
Proof.
  intros Hv Hstk. destruct stk as [|[es|ms k] stk]; simpl.
  - exact Hv.
  - by apply Forall_cons_1 in Hstk as [_ ?].
  - apply Forall_cons_1 in Hstk as [Hms ?]. split; [|assumption].
    by apply NoDup_keys_obj_set.
Qed.

Lemma parse_step_ok t st st' :
  state_ok st → parse_step t st = Some st' → state_ok st'.
Proof.
  destruct st as [c stk|c ms stk|ms k stk|es stk|ms stk|v]; simpl; intros Hok Hstep.
  - destruct t; simplify_eq; try (apply complete_ok; simpl; auto; fail).
    + simpl. split; [apply NoDup_nil_2|assumption].
    + simpl. apply Forall_cons; split; simpl; auto.
    + destruct c; [|discriminate].
      destruct stk as [|[[|]|] stk]; simplify_eq.
      apply complete_ok; simpl; auto. by apply Forall_cons_1 in Hok as [_ ?].
  - destruct Hok as [Hms Hstk]. destruct t; simplify_eq.
    + destruct c; simplify_eq. by apply complete_ok.
    + simpl. auto.
  - destruct Hok as [Hms Hstk]. destruct t; simplify_eq.
    simpl. apply Forall_cons; split; simpl; auto.
  - destruct t; simplify_eq.
    + apply complete_ok; simpl; auto.
    + simpl. apply Forall_cons; split; simpl; auto.
  - destruct Hok as [Hms Hstk]. destruct t; simplify_eq.
    + by apply complete_ok.
    + simpl. auto.
  - discriminate.
Qed.

Lemma parse_run_ok ts st st' :
  state_ok st → parse_run ts st = Some st' → state_ok st'.
Proof.
  revert st. induction ts as [|t ts IH]; simpl; intros st Hok Hrun.
  - by simplify_eq.
  - destruct (parse_step t st) as [st1|] eqn:E; [|discriminate].
    eapply IH; [|exact Hrun]. eapply parse_step_ok; eassumption.
Qed.

Lemma JSON_parse_wf text v : JSON_parse text = Ok v → wf_top v.
Proof.
  unfold JSON_parse, parse_tokens. intros H.
  destruct (tokenize text) as [ts|]; [|discriminate].
  destruct (parse_run ts (SValue false [])) as [[| | | | |v']|] eqn:E; try discriminate.
  simplify_eq. apply (parse_run_ok ts (SValue false []) (SDone v)); [|exact E].
  simpl. apply Forall_nil_2.
Qed.

Lemma digits_fuel_numeral fuel n acc :
  Forall numeral_unit acc → Forall numeral_unit (digits_fuel fuel n acc).
Proof.
  revert n acc. induction fuel as [|fuel IH]; intros n acc Hacc; simpl.
  - exact Hacc.
  - assert (Forall numeral_unit ((48 + n mod 10)%N :: acc)) as Hacc'.
    { apply Forall_cons; split; [|exact Hacc].
      pose proof (N.mod_upper_bound n 10 ltac:(lia)) as Hm. revert Hm.
      generalize (n mod 10)%N. intros m Hm. unfold numeral_unit. right. lia. }
    destruct (n <? 10)%N; [exact Hacc'|by apply IH].
Qed.

Lemma of_Z_numeral z : Forall numeral_unit (of_Z z).
Proof.
  unfold of_Z. destruct (z <? 0).
  - apply Forall_cons; split; [by left|]. apply digits_fuel_numeral, Forall_nil_2.
  - apply digits_fuel_numeral, Forall_nil_2.
Qed.

Lemma obj_get_index_from k i vs :
  ¬ Forall numeral_unit k → obj_get k (index_from i vs) = None.
Proof.
  intros Hk. revert i. induction vs as [|v vs IH]; intros i; simpl.
  - reflexivity.
  - destruct (decide (of_Z i = k)) as [<-|_]; [|apply IH].
    destruct Hk. apply of_Z_numeral.
Qed.

(** A property of the response under a name: the payload's value where the
    payload has the property, the watcher's otherwise. *)
Lemma obj_get_build_response k requestId messageId parsed :
  wf_top parsed → ¬ Forall numeral_unit k →
  obj_get k (build_response requestId messageId parsed)
  = match obj_get k (own_properties parsed) with
    | Some v => Some v
    | None => obj_get k [(lit "requestId", JString requestId);
                         (lit "messageId", JString messageId)]
    end.
Proof.
  intros Hwf Hk. unfold build_response.
  destruct parsed as [| | | |vs|ms]; try reflexivity.
  - cbn [own_properties]. rewrite obj_get_index_from by assumption.
    apply obj_get_spread_absent, obj_get_index_from, Hk.
  - apply obj_get_spread, Hwf.
Qed.

Lemma name_not_numeral (c : code_unit) (k : jsstring) :
  (57 < c)%N → ¬ Forall numeral_unit (c :: k).
Proof.
  intros Hc H. apply Forall_cons_1 in H as [[?|?] _]; lia.
Qed.

(** What [extractApiResponse] returns, case by case. *)
Lemma extractApiResponse_cases body requestId messageId :
  match potentialJson body with
  | None => extractApiResponse body requestId messageId = Ok None
  | Some text =>
      match JSON_parse text with
      | Raise _ => extractApiResponse body requestId messageId = Ok None
      | Ok parsed =>
          extractApiResponse body requestId messageId
          = if is_object parsed
            then Ok (Some (build_response requestId messageId parsed))
            else Ok None
      end
  end.
Proof.
  unfold extractApiResponse.
  destruct (potentialJson body) as [text|]; [|reflexivity].
  destruct (JSON_parse text) as [parsed|e]; simpl; [|reflexivity].
  destruct (is_object parsed); reflexivity.
Qed.

Lemma extractApiResponse_returns body requestId messageId :
  ∃ r, extractApiResponse body requestId messageId = Ok r.
Proof.
  pose proof (extractApiResponse_cases body requestId messageId) as H.
  destruct (potentialJson body) as [text|]; [|eauto].
  destruct (JSON_parse text) as [parsed|e]; [|eauto].
  rewrite H. destruct (is_object parsed); eauto.
Qed.

(** C5: decoding fails closed. For every body the decoder returns -- a
    payload or no match -- and never throws: no located text, a text that
    [JSON.parse] rejects, and a text that parses to something that is not an
    object all give no match. *)
Theorem extractApiResponse_fails_closed :
  ∀ body requestId messageId : jsstring,
    (∃ r, extractApiResponse body requestId messageId = Ok r)
    ∧ (potentialJson body = None →
       extractApiResponse body requestId messageId = Ok None)
    ∧ (∀ text e, potentialJson body = Some text → JSON_parse text = Raise e →
       extractApiResponse body requestId messageId = Ok None)
    ∧ (∀ text v, potentialJson body = Some text → JSON_parse text = Ok v →
       is_object v = false →
       extractApiResponse body requestId messageId = Ok None).
Proof.
  intros body rid mid.
  pose proof (extractApiResponse_cases body rid mid) as H.
  destruct (potentialJson body) as [text|] eqn:Ht;
    [destruct (JSON_parse text) as [parsed|e] eqn:Hp;
     [destruct (is_object parsed) eqn:Hobj|]|];
    (split; [apply extractApiResponse_returns|]);
    repeat split; intros; simplify_eq; try exact H; congruence.
Qed.

(** Bodies that carry no payload. *)
Example decode_without_payload :
  extractApiResponse [] (lit "abc-123") (lit "m1") = Ok None
  ∧ extractApiResponse (lit "Thanks, will do.") (lit "abc-123") (lit "m1") = Ok None
  ∧ extractApiResponse (lit "} and {") (lit "abc-123") (lit "m1") = Ok None
  ∧ extractApiResponse (dq "{'status': 'success'") (lit "abc-123") (lit "m1") = Ok None
  ∧ extractApiResponse (dq "[1, 2, 3]") (lit "abc-123") (lit "m1") = Ok None.
Proof. repeat split; vm_compute; reflexivity. Qed.

(** Malformed JSON between braces: the [SyntaxError] is caught. *)
Lemma extractApiResponse_fails_closed_witness :
  potentialJson (lit "Hello {oops} bye") = Some (lit "{oops}")
  ∧ JSON_parse (lit "{oops}") = Raise (OtherError (lit "SyntaxError"))
  ∧ extractApiResponse (lit "Hello {oops} bye") (lit "abc-123") (lit "m1") = Ok None.
Proof.
  split; [vm_compute; reflexivity|]. split; [vm_compute; reflexivity|].
  apply (proj1 (proj2 (proj2
           (extractApiResponse_fails_closed (lit "Hello {oops} bye")
              (lit "abc-123") (lit "m1"))))
         (lit "{oops}") (OtherError (lit "SyntaxError"))).
  - vm_compute; reflexivity.
  - vm_compute; reflexivity.
Defined.

(** C10: the response is [{ requestId, messageId, ...parsed }], so a
    [requestId] or [messageId] of the payload replaces the value the watcher
    supplies (the awaited id, the id of the matched message); the watcher's
    values are there exactly when the payload has no such property. *)
Theorem payload_overrides_watcher_ids :
  ∀ (body requestId messageId : jsstring) (response : ApiResponse),
    extractApiResponse body requestId messageId = Ok (Some response) →
    ∃ text parsed,
      potentialJson body = Some text
      ∧ JSON_parse text = Ok parsed
      ∧ is_object parsed = true
      ∧ response = build_response requestId messageId parsed
      ∧ (∀ v, obj_get (lit "requestId") (own_properties parsed) = Some v →
              obj_get (lit "requestId") response = Some v)
      ∧ (∀ v, obj_get (lit "messageId") (own_properties parsed) = Some v →
              obj_get (lit "messageId") response = Some v)
      ∧ (obj_get (lit "requestId") (own_properties parsed) = None →
         obj_get (lit "requestId") response = Some (JString requestId))
      ∧ (obj_get (lit "messageId") (own_properties parsed) = None →
         obj_get (lit "messageId") response = Some (JString messageId)).
Proof.
  intros body rid mid response H.
  pose proof (extractApiResponse_cases body rid mid) as Hc.
  destruct (potentialJson body) as [text|]; [|congruence].
  destruct (JSON_parse text) as [parsed|e] eqn:Hp; [|congruence].
  destruct (is_object parsed) eqn:Hobj; [|congruence].
  rewrite Hc in H. simplify_eq.
  exists text, parsed. split; [reflexivity|].
  split; [exact Hp|]. split; [exact Hobj|]. split; [reflexivity|].
  pose proof (JSON_parse_wf _ _ Hp) as Hwf.
  assert (Hr : ¬ Forall numeral_unit (lit "requestId"))
    by (apply name_not_numeral; reflexivity).
  assert (Hm : ¬ Forall numeral_unit (lit "messageId"))
    by (apply name_not_numeral; reflexivity).
  rewrite !(obj_get_build_response _ rid mid parsed Hwf Hr).
  rewrite !(obj_get_build_response _ rid mid parsed Hwf Hm).
  split; [|split; [|split]].
  - intros v ->. reflexivity.
  - intros v ->. reflexivity.
  - intros ->. reflexivity.
  - intros ->. reflexivity.
Qed.

(** A reply that carries its own [requestId]: the caller gets that one. *)
Lemma payload_overrides_watcher_ids_witness :
  obj_get (lit "requestId")
    (build_response (lit "abc-123") (lit "m1")
       (JObject [(lit "status", JString (lit "success"));
                 (lit "requestId", JString (lit "forged"))]))
  = Some (JString (lit "forged")).
Proof.
  destruct (payload_overrides_watcher_ids
              (dq "{'status':'success','requestId':'forged'}")
              (lit "abc-123") (lit "m1")
              (build_response (lit "abc-123") (lit "m1")
                 (JObject [(lit "status", JString (lit "success"));
                           (lit "requestId", JString (lit "forged"))])))
    as (text & parsed & Htext & Hparse & _ & Hresp & Hreq & _).
  - vm_compute. reflexivity.
  - vm_compute in Htext. injection Htext as <-.
    vm_compute in Hparse. injection Hparse as <-.
    apply Hreq. vm_compute. reflexivity.
Defined.

(** ** The watcher *)

Section WatcherFacts.

Variable P : Platform.

Local Abbreviation state := (ResponseWatcher * World P)%type.
Local Abbreviation effect := (effect P).
Local Abbreviation not_earlier := (not_earlier P).

Lemma fetched_app cs1 cs2 : fetched (cs1 ++ cs2) = fetched cs1 ++ fetched cs2.
Proof. apply omap_app. Qed.

Lemma fetched_elem id cs : id ∈ fetched cs ↔ CallGet id ∈ cs.
Proof.
  unfold fetched. rewrite list_elem_of_omap. split.
  - intros (c & Hc & Hid). destruct c; simplify_eq. exact Hc.
  - intros Hc. exists (CallGet id). auto.
Qed.

Lemma log_ok_nil a b : log_ok a b [].
Proof. split; [apply Forall_nil_2|apply NoDup_nil_2]. Qed.

Lemma log_ok_trans a b c new1 new2 :
  a ⊆ b → b ⊆ c → log_ok a b new1 → log_ok b c new2 → log_ok a c (new2 ++ new1).
Proof.
  intros Hab Hbc [H1 N1] [H2 N2]. split.
  - apply Forall_app. split.
    + eapply Forall_impl; [exact H2|].
      intros call Hc; destruct call; simpl in *; try tauto.
      destruct Hc as [Hn Hi]. split; [|exact Hi]. intros Hin. apply Hn, Hab, Hin.
    + eapply Forall_impl; [exact H1|].
      intros call Hc; destruct call; simpl in *; try tauto.
      * destruct Hc as [Hn Hi]. split; [exact Hn|]. apply Hbc, Hi.
      * apply Hbc, Hc.
  - rewrite fetched_app. apply NoDup_app. split; [exact N2|]. split; [|exact N1].
    intros id Hid2 Hid1. apply fetched_elem in Hid1, Hid2.
    rewrite Forall_forall in H1, H2.
    specialize (H1 _ Hid1). specialize (H2 _ Hid2). simpl in *.
    destruct H1 as [_ Hb], H2 as [Hnb _]. contradiction.
Qed.

Lemma effect_refl s : effect s s.
Proof.
  split; [repeat split|]. split; [reflexivity|].
  exists []. split; [reflexivity|apply log_ok_nil].
Qed.

Lemma effect_trans s1 s2 s3 : effect s1 s2 → effect s2 s3 → effect s1 s3.
Proof.
  intros (R1 & G1 & new1 & C1 & L1) (R2 & G2 & new2 & C2 & L2).
  split; [|split].
  - destruct R1 as (?&?&?&?&?), R2 as (?&?&?&?&?). repeat split; congruence.
  - etrans; eassumption.
  - exists (new2 ++ new1). split.
    + rewrite C2, C1. apply app_assoc.
    + eapply log_ok_trans; eassumption.
Qed.

Lemma fetchAndParseMessage_run id w :
  ∃ o, fetchAndParseMessage P id w
       = (Ok o, mkWorld P (snd (messages_get P id (env P w)))
                        (CallGet id :: calls P w)).
Proof.
  unfold fetchAndParseMessage, catch, bind, transport, ret.
  destruct (messages_get P id (env P w)) as [[[message|]|e] e']; simpl; eauto.
Qed.

Lemma markAsRead_run id w :
  markAsRead P id w
  = (Ok tt, mkWorld P (snd (messages_modify P id [lit "UNREAD"] (env P w)))
                    (CallModify id [lit "UNREAD"] :: calls P w)).
Proof.
  unfold markAsRead, catch, transport, ret.
  destruct (messages_modify P id [lit "UNREAD"] (env P w)) as [[[]|e] e']; reflexivity.
Qed.

(** One turn of the loop of [poll]. *)
Lemma poll_messages_cons msg rest t w :
  poll_messages P (msg :: rest) (t, w)
  = match ref_id msg with
    | None => poll_messages P rest (t, w)
    | Some id =>
        if negb (nonempty id) then poll_messages P rest (t, w)
        else if bool_decide (id ∈ processedMessageIds t)
        then poll_messages P rest (t, w)
        else
          let t1 := with_processed t ({[ id ]} ∪ processedMessageIds t) in
          match fetchAndParseMessage P id w with
          | (Ok None, w1) => poll_messages P rest (t1, w1)
          | (Ok (Some email), w1) =>
              if negb (includes (subject email) (requestId t))
              then poll_messages P rest (t1, w1)
              else
                match extractApiResponse (body email) (requestId t) id with
                | Ok (Some response) =>
                    (Ok (Some response), (t1, snd (markAsRead P id w1)))
                | Ok None => poll_messages P rest (t1, w1)
                | Raise e => (Raise e, (t1, w1))
                end
          | (Raise e, w1) => (Raise e, (t1, w1))
          end
    end.
Proof.
  cbn [poll_messages]. destruct (ref_id msg) as [id|]; [|reflexivity].
  destruct (negb (nonempty id)); [reflexivity|].
  unfold bind at 1. unfold this at 1. unfold gets at 1. cbn [fst snd].
  destruct (bool_decide (id ∈ processedMessageIds t)); [reflexivity|].
  unfold bind at 1. unfold add_processed, modify. cbn [fst snd].
  unfold bind at 1. unfold in_world at 1. cbn [fst snd].
  destruct (fetchAndParseMessage P id w) as [[[email|]|e] w1]; try reflexivity.
  unfold bind at 1. unfold this at 1. unfold gets at 1. cbn [fst snd].
  change (requestId (with_processed t _)) with (requestId t).
  destruct (negb (includes (subject email) (requestId t))); [reflexivity|].
  unfold bind at 1. unfold pure_outcome.
  destruct (extractApiResponse (body email) (requestId t) id) as [[response|]|e];
    try reflexivity.
  unfold bind, in_world, ret. cbn [fst snd]. rewrite markAsRead_run. reflexivity.
Qed.

Lemma effect_fetch id t w w1 o :
  id ∉ processedMessageIds t →
  fetchAndParseMessage P id w = (o, w1) →
  effect (t, w) (with_processed t ({[ id ]} ∪ processedMessageIds t), w1).
Proof.
  intros Hid Hf. destruct (fetchAndParseMessage_run id w) as [o' Hrun].
  rewrite Hrun in Hf. simplify_eq.
  split; [repeat split|]. split; [cbn; apply union_subseteq_r|].
  exists [CallGet id]. split; [reflexivity|]. split.
  - apply Forall_singleton. cbn. split; [exact Hid|].
    apply elem_of_union; left. apply elem_of_singleton. reflexivity.
  - cbn. apply NoDup_singleton.
Qed.

Lemma effect_mark id t w :
  id ∈ processedMessageIds t →
  effect (t, w) (t, snd (markAsRead P id w)).
Proof.
  intros Hid. rewrite markAsRead_run. cbn [snd].
  split; [repeat split|]. split; [reflexivity|].
  exists [CallModify id [lit "UNREAD"]]. split; [reflexivity|]. split.
  - apply Forall_singleton. exact Hid.
  - cbn. apply NoDup_nil_2.
Qed.

Lemma built_from_cons rid msg rest response :
  built_from P rid rest response → built_from P rid (msg :: rest) response.
Proof.
  intros (m & id & email & w & w' & Hm & H). exists m, id, email, w, w'.
  split; [apply elem_of_cons; right; exact Hm|exact H].
Qed.

(** Rule induction over the loop of [poll]: a reflexive and transitive
    relation that every fetch of an unprocessed id and every read-mark of a
    processed id respects holds between its start and its end. Besides, the
    loop never throws, and a response it returns comes from a listed message
    whose subject contains the awaited id. *)
Lemma poll_messages_rule (R : relation state) :
  Reflexive R → Transitive R →
  (∀ id t w, id ∉ processedMessageIds t →
     R (t, w) (with_processed t ({[ id ]} ∪ processedMessageIds t),
               snd (fetchAndParseMessage P id w))) →
  (∀ id t w, id ∈ processedMessageIds t → R (t, w) (t, snd (markAsRead P id w))) →
  ∀ messages s r s',
    poll_messages P messages s = (r, s') →
    R s s'
    ∧ match r with
      | Ok (Some response) => built_from P (requestId (fst s)) messages response
      | Ok None => True
      | Raise _ => False
      end.
Proof.
  intros Hrefl Htrans Hfetched Hmarked messages.
  induction messages as [|msg rest IH]; intros [t w] r s' Hrun.
  - cbn in Hrun. unfold ret in Hrun. simplify_eq. split; [reflexivity|exact I].
  - assert (Hrest : ∀ s1, R (t, w) s1 → requestId (fst s1) = requestId t →
              poll_messages P rest s1 = (r, s') →
              R (t, w) s'
              ∧ match r with
                | Ok (Some response) => built_from P (requestId t) (msg :: rest) response
                | Ok None => True
                | Raise _ => False
                end).
    { intros s1 He Hrid H1. destruct (IH _ _ _ H1) as [He' Hr].
      split; [etrans; eassumption|].
      destruct r as [[response|]|e]; try exact Hr.
      rewrite Hrid in Hr. apply built_from_cons, Hr. }
    rewrite poll_messages_cons in Hrun.
    destruct (ref_id msg) as [id|] eqn:Hmsg;
      [|apply (Hrest (t, w)); [reflexivity|reflexivity|exact Hrun]].
    destruct (negb (nonempty id));
      [apply (Hrest (t, w)); [reflexivity|reflexivity|exact Hrun]|].
    destruct (bool_decide (id ∈ processedMessageIds t)) eqn:Hseen;
      [apply (Hrest (t, w)); [reflexivity|reflexivity|exact Hrun]|].
    apply bool_decide_eq_false in Hseen. cbn zeta in Hrun.
    pose proof (Hfetched id t w Hseen) as Hstep.
    destruct (fetchAndParseMessage_run id w) as [o Hfetch].
    rewrite Hfetch in Hrun, Hstep. cbn [snd] in Hstep.
    destruct o as [email|];
      [|apply (Hrest _ Hstep); [reflexivity|exact Hrun]].
    destruct (negb (includes (subject email) (requestId t))) eqn:Hsub;
      [apply (Hrest _ Hstep); [reflexivity|exact Hrun]|].
    apply negb_false_iff in Hsub.
    destruct (extractApiResponse (body email) (requestId t) id)
      as [[response|]|e] eqn:Hdecode.
    + simplify_eq. split.
      * etrans; [exact Hstep|]. apply Hmarked. cbn.
        apply elem_of_union; left. apply elem_of_singleton. reflexivity.
      * eexists msg, id, email, w, _.
        split; [apply elem_of_cons; left; reflexivity|].
        split; [exact Hmsg|]. split; [exact Hfetch|]. split; [exact Hsub|exact Hdecode].
    + apply (Hrest _ Hstep); [reflexivity|exact Hrun].
    + destruct (extractApiResponse_returns (body email) (requestId t) id)
        as [x Hx]. congruence.
Qed.

(** [poll], step by step. *)
Lemma poll_run t w :
  poll P (t, w)
  = let q := poll_query P t in
    let w1 := mkWorld P (snd (messages_list P q 35 (env P w)))
                      (CallList q 35 :: calls P w) in
    match fst (messages_list P q 35 (env P w)) with
    | Ok None | Ok (Some []) => (Ok None, (t, w1))
    | Ok (Some messages) => poll_messages P messages (t, w1)
    | Raise e => (Raise e, (t, w1))
    end.
Proof.
  unfold poll. unfold bind at 1. unfold this at 1. unfold gets at 1. cbn [fst snd].
  unfold bind at 1. unfold in_world, transport. cbn [fst snd].
  destruct (messages_list P (poll_query P t) 35 (env P w)) as [[[[|m ms]|]|e] e'];
    reflexivity.
Qed.

Lemma effect_list t w q e' :
  effect (t, w) (t, mkWorld P e' (CallList q 35 :: calls P w)).
Proof.
  split; [repeat split|]. split; [reflexivity|].
  exists [CallList q 35]. split; [reflexivity|]. split.
  - apply Forall_singleton. exact I.
  - cbn. apply NoDup_nil_2.
Qed.

(** A poll cycle: its effect, and the origin of the response it returns. *)
Lemma poll_effect s r s' :
  poll P s = (r, s') →
  effect s s'
  ∧ match r with
    | Ok (Some response) =>
        ∃ messages, built_from P (requestId (fst s)) messages response
    | _ => True
    end.
Proof.
  destruct s as [t w]. rewrite poll_run. cbn zeta.
  destruct (fst (messages_list P (poll_query P t) 35 (env P w)))
    as [[[|m ms]|]|e]; intros Hrun; simplify_eq;
    try (split; [apply effect_list|exact I]).
  destruct (poll_messages_rule effect effect_refl effect_trans
              (λ id t w H, effect_fetch id t w _ _ H (surjective_pairing _))
              effect_mark _ _ _ _ Hrun) as [He Hr].
  split; [eapply effect_trans; [apply effect_list|exact He]|].
  destruct r as [[response|]|e]; [|exact I|exact I].
  exists (m :: ms). exact Hr.
Qed.

Lemma poll_not_earlier s r s' :
  ClockSound P → poll P s = (r, s') → not_earlier s s'.
Proof.
  intros HC. destruct s as [t w]. rewrite poll_run. cbn zeta.
  assert (Hlist : ∀ q, not_earlier (t, w)
            (t, mkWorld P (snd (messages_list P q 35 (env P w)))
                        (CallList q 35 :: calls P w))).
  { intros q. apply (list_takes_time P HC). }
  destruct (fst (messages_list P (poll_query P t) 35 (env P w)))
    as [[[|m ms]|]|e]; intros Hrun; simplify_eq; try apply Hlist.
  unfold not_earlier. etrans; [apply Hlist|].
  refine (proj1 (poll_messages_rule not_earlier _ _ _ _ _ _ _ _ Hrun)).
  - intros x. unfold not_earlier. reflexivity.
  - intros x y z. unfold not_earlier. apply Z.le_trans.
  - intros id t0 w0 _. destruct (fetchAndParseMessage_run id w0) as [o ->].
    apply (get_takes_time P HC).
  - intros id t0 w0 _. rewrite markAsRead_run. apply (modify_takes_time P HC).
Qed.

(** *** [waitForResponse] *)

Lemma check_unfold fuel s :
  check P fuel s
  = if timed_out P (fst s) (snd s) then
      Some (Raise (timeout_error P (fst s)), s)
    else
      match fuel with
      | O => None
      | S fuel' =>
          match poll P s with
          | (Ok (Some response), s') => Some (Ok response, s')
          | (_, s') =>
              check P fuel' (fst s', sleep P (pollIntervalMs (fst s')) (snd s'))
          end
      end.
Proof.
  destruct fuel; cbn [check]; [reflexivity|].
  destruct (timed_out P _ _); [reflexivity|].
  destruct (poll P s) as [[[r|]|e] s']; reflexivity.
Qed.

Lemma effect_sleep (ms : jsnum) (s : state) : effect s (fst s, sleep P ms (snd s)).
Proof.
  split; [repeat split|]. split; [reflexivity|].
  exists []. split; [reflexivity|apply log_ok_nil].
Qed.

Lemma timeout_error_same t t' :
  same_request t t' → timeout_error P t' = timeout_error P t.
Proof. intros (?&Hr&?&Ht&?). unfold timeout_error. rewrite Hr, Ht. reflexivity. Qed.

Lemma timed_out_same t t' w :
  same_request t t' → timed_out P t' w = timed_out P t w.
Proof. intros (?&?&?&Ht&Hs). unfold timed_out. rewrite Ht, Hs. reflexivity. Qed.

(** However the wait ends, only polling stands between its start and its
    end; a rejection is the timeout of the awaited request, by a check that
    read the clock past the deadline; a resolution is a response that a
    poll built from a message whose subject contains the awaited id. *)
Lemma check_outcome fuel : ∀ s r s',
  check P fuel s = Some (r, s') →
  effect s s'
  ∧ match r with
    | Raise e =>
        e = timeout_error P (fst s) ∧ timed_out P (fst s) (snd s') = true
    | Ok response =>
        ∃ messages, built_from P (requestId (fst s)) messages response
    end.
Proof.
  induction fuel as [|fuel IH]; intros s r s'; rewrite check_unfold.
  - destruct (timed_out P (fst s) (snd s)) eqn:Hlate; [|discriminate].
    intros ?; simplify_eq. split; [apply effect_refl|]. split; [reflexivity|exact Hlate].
  - destruct (timed_out P (fst s) (snd s)) eqn:Hlate.
    { intros ?; simplify_eq. split; [apply effect_refl|].
      split; [reflexivity|exact Hlate]. }
    destruct (poll P s) as [o s1] eqn:Hpoll.
    destruct (poll_effect _ _ _ Hpoll) as [He Ho].
    assert (Hnext : check P fuel (fst s1, sleep P (pollIntervalMs (fst s1)) (snd s1))
                    = Some (r, s') →
            effect s s'
            ∧ match r with
              | Raise e =>
                  e = timeout_error P (fst s) ∧ timed_out P (fst s) (snd s') = true
              | Ok response =>
                  ∃ messages, built_from P (requestId (fst s)) messages response
              end).
    { intros Hc. destruct (IH _ _ _ Hc) as [He' Hr]. cbn [fst] in Hr.
      split; [eapply effect_trans; [exact He|];
              eapply effect_trans; [apply effect_sleep|exact He']|].
      pose proof He as (Hsame & _).
      destruct r as [response|e].
      - destruct Hsame as (_ & -> & _) in Hr. exact Hr.
      - rewrite (timeout_error_same _ _ Hsame), (timed_out_same _ _ _ Hsame) in Hr.
        exact Hr. }
    destruct o as [[response|]|e]; try exact Hnext.
    intros ?; simplify_eq. split; [exact He|exact Ho].
Qed.

(** More polls do not change how a wait ended. *)
Lemma check_more_fuel fuel : ∀ s x,
  check P fuel s = Some x → check P (S fuel) s = Some x.
Proof.
  induction fuel as [|fuel IH]; intros s x.
  - rewrite (check_unfold 0), (check_unfold 1).
    destruct (timed_out P _ _); [auto|discriminate].
  - rewrite (check_unfold (S fuel)), (check_unfold (S (S fuel))).
    destruct (timed_out P _ _); [auto|].
    destruct (poll P s) as [[[response|]|e] s1]; auto.
Qed.

Lemma check_fuel_le fuel fuel' s x :
  (fuel ≤ fuel')%nat → check P fuel s = Some x → check P fuel' s = Some x.
Proof.
  induction 1 as [|fuel' _ IH]; [auto|].
  intros H. apply check_more_fuel, IH, H.
Qed.

(** The time left to the deadline of a watcher with a finite timeout. *)
Lemma timed_out_whole t w :
  finite (timeoutMs t) →
  timed_out P t w = (now P w - startTime t >? whole (timeoutMs t)).
Proof. intros Hf. unfold timed_out. apply num_gt_whole, Hf. Qed.

(** The wait ends: with a sound clock, a finite timeout and a poll interval
    of at least one millisecond, [n] polls are enough when the time left is
    below [n] intervals. *)
Lemma check_terminates :
  ClockSound P →
  ∀ n s,
    finite (timeoutMs (fst s)) → finite (pollIntervalMs (fst s)) →
    0 < whole (pollIntervalMs (fst s)) →
    whole (timeoutMs (fst s)) - (now P (snd s) - startTime (fst s))
      < Z.of_nat n * whole (pollIntervalMs (fst s)) →
    ∃ x, check P n s = Some x.
Proof.
  intros HC. induction n as [|n IH]; intros s Ht Hi Hpos Hleft; rewrite check_unfold;
    rewrite (timed_out_whole _ _ Ht).
  - destruct (Z.gtb_spec (now P (snd s) - startTime (fst s)) (whole (timeoutMs (fst s))));
      [eauto|lia].
  - destruct (Z.gtb_spec (now P (snd s) - startTime (fst s)) (whole (timeoutMs (fst s))));
      [eauto|].
    destruct (poll P s) as [o s1] eqn:Hpoll.
    destruct (poll_effect _ _ _ Hpoll) as [((_ & _ & Hi1 & Ht1 & Hs1) & _) _].
    pose proof (poll_not_earlier _ _ _ HC Hpoll) as Hclock.
    unfold not_earlier in Hclock.
    assert (∃ x, check P n (fst s1, sleep P (pollIntervalMs (fst s1)) (snd s1))
                 = Some x) as Hnext.
    { apply IH; cbn [fst snd]; rewrite ?Hi1, ?Ht1, ?Hs1; try assumption.
      destruct (pollIntervalMs (fst s)) as [q| | |] eqn:Hq; try contradiction.
      pose proof (timer_waits P HC q (env P (snd s1))).
      unfold now, sleep in *. cbn [env whole] in *. lia. }
    destruct o as [[response|]|e]; eauto.
Qed.

End WatcherFacts.

(** ** Correlation *)

Section Correlation.

Variable P : Platform.

Lemma startsWith_prefix (s d : jsstring) : startsWith s d = true → ∃ b, s = d ++ b.
Proof.
  revert s. induction d as [|x d IH]; intros s; [eauto|].
  destruct s as [|a s]; cbn; [discriminate|].
  intros H. apply andb_true_iff in H as [Hx Hd].
  apply N.eqb_eq in Hx as ->. destruct (IH _ Hd) as [b ->]. eauto.
Qed.

Lemma indexOf_from_decompose (s d : jsstring) (i : Z) :
  indexOf_from s d i ≠ -1 → ∃ a b, s = a ++ d ++ b.
Proof.
  revert i. induction s as [|c s IH]; intros i; cbn [indexOf_from].
  - destruct (startsWith [] d) eqn:Hp; [|congruence].
    intros _. destruct (startsWith_prefix _ _ Hp) as [b Hb]. exists [], b. exact Hb.
  - destruct (startsWith (c :: s) d) eqn:Hp.
    + intros _. destruct (startsWith_prefix _ _ Hp) as [b Hb]. exists [], b. exact Hb.
    + intros H. destruct (IH _ H) as (a & b & ->). exists (c :: a), b. reflexivity.
Qed.

(** [includes] is the substring relation. *)
Lemma includes_decompose (s d : jsstring) :
  includes s d = true → ∃ a b, s = a ++ d ++ b.
Proof.
  unfold includes, indexOf. intros H. apply negb_true_iff, Z.eqb_neq in H.
  exact (indexOf_from_decompose _ _ _ H).
Qed.

Lemma indexOf_from_found (a d b : jsstring) (i : Z) :
  0 ≤ i → indexOf_from (a ++ d ++ b) d i ≠ -1.
Proof.
  revert i. induction a as [|c a IH]; intros i Hi.
  - cbn [app]. destruct (d ++ b) as [|x l] eqn:E.
    + destruct d; [|discriminate]. cbn. lia.
    + rewrite <- E. unfold indexOf_from. rewrite E at 1. rewrite <- E.
      rewrite startsWith_app. lia.
  - cbn [app indexOf_from].
    destruct (startsWith (c :: a ++ d ++ b) d); [lia|]. apply IH. lia.
Qed.

Lemma includes_app (a d b : jsstring) : includes (a ++ d ++ b) d = true.
Proof.
  unfold includes, indexOf.
  destruct (Z.eqb_spec (indexOf_from (a ++ d ++ b) d 0) (-1)) as [E|_];
    [|reflexivity].
  destruct (indexOf_from_found a d b 0 ltac:(lia) E).
Qed.

Lemma includes_trans (s d d' : jsstring) :
  includes s d = true → includes d d' = true → includes s d' = true.
Proof.
  intros Hs Hd. destruct (includes_decompose _ _ Hs) as (a & b & ->).
  destruct (includes_decompose _ _ Hd) as (a' & b' & ->).
  replace (a ++ (a' ++ d' ++ b') ++ b) with ((a ++ a') ++ d' ++ (b' ++ b))
    by (rewrite <- !app_assoc; reflexivity).
  apply includes_app.
Qed.

Lemma request_subject_includes method action (rid pre post : jsstring) :
  includes (pre ++ request_subject method action rid ++ post) rid = true.
Proof.
  unfold request_subject.
  replace (pre ++ (lit "#calendarapi " ++ ApiMethod_text method ++ lit " "
                     ++ ApiAction_text action ++ lit " [" ++ rid ++ lit "]") ++ post)
    with ((pre ++ lit "#calendarapi " ++ ApiMethod_text method ++ lit " "
             ++ ApiAction_text action ++ lit " [") ++ rid ++ (lit "]" ++ post))
    by (rewrite <- !app_assoc; reflexivity).
  apply includes_app.
Qed.

Ltac loop_cases :=
  repeat match goal with
    | |- context [match ref_id ?m with _ => _ end] => destruct (ref_id m) as [?id|]
    | |- context [negb (nonempty ?i)] => destruct (negb (nonempty i))
    | |- context [bool_decide (?i ∈ ?X)] => destruct (bool_decide (i ∈ X))
    | |- context [fetchAndParseMessage P ?i ?w] =>
        destruct (fetchAndParseMessage P i w) as [[[?email|]|?e] ?w]
    | |- context [negb (includes ?a ?b)] => destruct (negb (includes a b))
    | |- context [extractApiResponse ?a ?b ?c] =>
        destruct (extractApiResponse a b c) as [[?response|]|?e]
    end.

(** The loop of [poll] over a list in two pieces. *)
Lemma poll_messages_app (a b : list MessageRef) : ∀ s,
  poll_messages P (a ++ b) s
  = match poll_messages P a s with
    | (Ok None, s1) => poll_messages P b s1
    | r => r
    end.
Proof.
  induction a as [|msg a IH]; intros [t w]; [reflexivity|].
  cbn [app]. rewrite !poll_messages_cons. cbn zeta.
  loop_cases; try apply IH; reflexivity.
Qed.

(** The thread id of a listed message is not looked at. *)
Lemma poll_messages_ids (refs : list MessageRef) : ∀ refs' s,
  List.map ref_id refs = List.map ref_id refs' →
  poll_messages P refs s = poll_messages P refs' s.
Proof.
  induction refs as [|msg refs IH]; intros [|msg' refs'] [t w] Hids;
    try discriminate; [reflexivity|].
  cbn [List.map] in Hids. injection Hids as Hid Hrest.
  rewrite !poll_messages_cons, <- Hid. cbn zeta.
  loop_cases; try (apply IH; exact Hrest); reflexivity.
Qed.

(** A response of the loop comes from the first listed candidate that is
    new, can be fetched, has the awaited id in its subject and a body that
    decodes; the candidates before it were passed over. *)
Lemma poll_messages_split (ms : list MessageRef) : ∀ t w response s',
  poll_messages P ms (t, w) = (Ok (Some response), s') →
  ∃ before msg after id email t1 w1 w2,
    ms = before ++ msg :: after
    ∧ poll_messages P before (t, w) = (Ok None, (t1, w1))
    ∧ requestId t1 = requestId t
    ∧ ref_id msg = Some id ∧ id ≠ [] ∧ (id ∉ processedMessageIds t1)
    ∧ fetchAndParseMessage P id w1 = (Ok (Some email), w2)
    ∧ includes (subject email) (requestId t) = true
    ∧ extractApiResponse (body email) (requestId t) id = Ok (Some response)
    ∧ s' = (with_processed t1 ({[ id ]} ∪ processedMessageIds t1),
            snd (markAsRead P id w2)).
Proof.
  induction ms as [|msg rest IH]; intros t w response s' Hrun;
    [cbn in Hrun; unfold ret in Hrun; discriminate|].
  assert (Hskip : ∀ t' w',
            requestId t' = requestId t →
            (∀ before, poll_messages P (msg :: before) (t, w)
                       = poll_messages P before (t', w')) →
            poll_messages P rest (t', w') = (Ok (Some response), s') →
            ∃ before msg0 after id email t1 w1 w2,
              msg :: rest = before ++ msg0 :: after
              ∧ poll_messages P before (t, w) = (Ok None, (t1, w1))
              ∧ requestId t1 = requestId t
              ∧ ref_id msg0 = Some id ∧ id ≠ [] ∧ (id ∉ processedMessageIds t1)
              ∧ fetchAndParseMessage P id w1 = (Ok (Some email), w2)
              ∧ includes (subject email) (requestId t) = true
              ∧ extractApiResponse (body email) (requestId t) id = Ok (Some response)
              ∧ s' = (with_processed t1 ({[ id ]} ∪ processedMessageIds t1),
                      snd (markAsRead P id w2))).
  { intros t' w' Hrid Hhead Hrest.
    destruct (IH _ _ _ _ Hrest)
      as (before & msg0 & after & id & email & t1 & w1 & w2
          & -> & Hb & Hr1 & Hm & Hne & Hnew & Hf & Hi & Hd & ->).
    exists (msg :: before), msg0, after, id, email, t1, w1, w2.
    rewrite Hhead, Hrid in *. repeat (split; [assumption || reflexivity|]).
    reflexivity. }
  rewrite poll_messages_cons in Hrun.
  destruct (ref_id msg) as [id|] eqn:Hmsg.
  2: { apply (Hskip t w); [reflexivity| |exact Hrun].
       intros before. rewrite poll_messages_cons, Hmsg. reflexivity. }
  destruct (nonempty id) eqn:Hne; cbn [negb] in Hrun.
  2: { apply (Hskip t w); [reflexivity| |exact Hrun].
       intros before. rewrite poll_messages_cons, Hmsg, Hne. reflexivity. }
  destruct (bool_decide (id ∈ processedMessageIds t)) eqn:Hseen.
  { apply (Hskip t w); [reflexivity| |exact Hrun].
    intros before. rewrite poll_messages_cons, Hmsg, Hne, Hseen. reflexivity. }
  cbn zeta in Hrun.
  destruct (fetchAndParseMessage P id w) as [[[email|]|e] w1] eqn:Hfetch;
    [| |discriminate].
  2: { apply (Hskip (with_processed t ({[ id ]} ∪ processedMessageIds t)) w1);
         [reflexivity| |exact Hrun].
       intros before. rewrite poll_messages_cons, Hmsg, Hne, Hseen. cbn zeta.
       rewrite Hfetch. reflexivity. }
  destruct (negb (includes (subject email) (requestId t))) eqn:Hsub.
  { apply (Hskip (with_processed t ({[ id ]} ∪ processedMessageIds t)) w1);
         [reflexivity| |exact Hrun].
    intros before. rewrite poll_messages_cons, Hmsg, Hne, Hseen. cbn zeta.
    rewrite Hfetch, Hsub. reflexivity. }
  destruct (extractApiResponse (body email) (requestId t) id)
    as [[r|]|e] eqn:Hdecode; [| |discriminate].
  2: { apply (Hskip (with_processed t ({[ id ]} ∪ processedMessageIds t)) w1);
         [reflexivity| |exact Hrun].
       intros before. rewrite poll_messages_cons, Hmsg, Hne, Hseen. cbn zeta.
       rewrite Hfetch, Hsub, Hdecode. reflexivity. }
  injection Hrun as -> <-.
  exists [], msg, rest, id, email, t, w, w1.
  split; [reflexivity|]. split; [reflexivity|]. split; [reflexivity|].
  split; [exact Hmsg|].
  split; [intros ->; discriminate Hne|].
  split; [apply bool_decide_eq_false in Hseen; exact Hseen|].
  split; [exact Hfetch|]. split; [apply negb_false_iff, Hsub|].
  split; [exact Hdecode|reflexivity].
Qed.

(** The other way round. *)
Lemma poll_messages_match (before after : list MessageRef) msg id email t w t1 w1 w2
  response :
  poll_messages P before (t, w) = (Ok None, (t1, w1)) →
  ref_id msg = Some id → id ≠ [] → id ∉ processedMessageIds t1 →
  fetchAndParseMessage P id w1 = (Ok (Some email), w2) →
  includes (subject email) (requestId t1) = true →
  extractApiResponse (body email) (requestId t1) id = Ok (Some response) →
  poll_messages P (before ++ msg :: after) (t, w)
  = (Ok (Some response),
     (with_processed t1 ({[ id ]} ∪ processedMessageIds t1), snd (markAsRead P id w2))).
Proof.
  intros Hb Hm Hne Hnew Hf Hi Hd.
  rewrite poll_messages_app, Hb, poll_messages_cons, Hm.
  destruct id as [|c id]; [contradiction|]. cbn [nonempty negb].
  rewrite bool_decide_eq_false_2 by exact Hnew. cbn zeta.
  rewrite Hf, Hi, Hd. reflexivity.
Qed.

Lemma listed_some (s : ResponseWatcher * World P) (ms : list MessageRef) :
  ms ≠ [] → listed P s = ms →
  fst (messages_list P (poll_query P (fst s)) 35 (env P (snd s))) = Ok (Some ms).
Proof.
  unfold listed.
  destruct (fst (messages_list P (poll_query P (fst s)) 35 (env P (snd s))))
    as [[l|]|e]; intros Hne Hl; subst; congruence.
Qed.

Lemma poll_listed (s : ResponseWatcher * World P) :
  listed P s ≠ [] → poll P s = poll_messages P (listed P s) (fst s, after_list P s).
Proof.
  intros Hne. pose proof (listed_some s _ Hne eq_refl) as Hl.
  destruct s as [t w]. rewrite poll_run. cbn zeta. cbn [fst snd] in *.
  rewrite Hl. unfold after_list. cbn [fst snd].
  destruct (listed P (t, w)) as [|m ms]; [contradiction|]. reflexivity.
Qed.

Lemma poll_response_listed (s : ResponseWatcher * World P) response s' :
  poll P s = (Ok (Some response), s') → listed P s ≠ [].
Proof.
  destruct s as [t w]. rewrite poll_run. cbn zeta. unfold listed. cbn [fst snd].
  destruct (fst (messages_list P (poll_query P t) 35 (env P w))) as [[[|m ms]|]|e];
    intros Hrun; try discriminate Hrun.
  discriminate.
Qed.

End Correlation.

(** C1, as amended. A poll that waits for an id returns a response exactly
    when the listing has a first candidate that is new, can be fetched, has
    the awaited id as a substring of its subject and a body that decodes --
    the candidates listed before it having been passed over; the response is
    decoded from that candidate, fetched in the world the poll had reached.
    Thread ids take no part. So a reply tagged with another id never
    resolves the wait when its subject does not contain the awaited id; and
    a tag does contain the awaited id whenever the id it was made of does. *)
Theorem poll_matches_by_subject_inclusion :
  ∀ (P : Platform) (s : ResponseWatcher * World P),
    (∀ response s',
       poll P s = (Ok (Some response), s') →
       ∃ before msg after id email t1 w1 w2,
         listed P s = before ++ msg :: after
         ∧ poll_messages P before (fst s, after_list P s) = (Ok None, (t1, w1))
         ∧ ref_id msg = Some id ∧ id ≠ [] ∧ (id ∉ processedMessageIds t1)
         ∧ fetchAndParseMessage P id w1 = (Ok (Some email), w2)
         ∧ includes (subject email) (requestId (fst s)) = true
         ∧ extractApiResponse (body email) (requestId (fst s)) id = Ok (Some response)
         ∧ s' = (with_processed t1 ({[ id ]} ∪ processedMessageIds t1),
                 snd (markAsRead P id w2)))
    ∧ (∀ before msg after id email t1 w1 w2 response,
         listed P s = before ++ msg :: after →
         poll_messages P before (fst s, after_list P s) = (Ok None, (t1, w1)) →
         ref_id msg = Some id → id ≠ [] → id ∉ processedMessageIds t1 →
         fetchAndParseMessage P id w1 = (Ok (Some email), w2) →
         includes (subject email) (requestId (fst s)) = true →
         extractApiResponse (body email) (requestId (fst s)) id = Ok (Some response) →
         poll P s
         = (Ok (Some response),
            (with_processed t1 ({[ id ]} ∪ processedMessageIds t1),
             snd (markAsRead P id w2))))
    ∧ ((∀ id w email w',
          id ∈ ref_ids (listed P s) →
          fetchAndParseMessage P id w = (Ok (Some email), w') →
          includes (subject email) (requestId (fst s)) = false) →
       ∀ response, fst (poll P s) ≠ Ok (Some response))
    ∧ (∀ refs refs' st,
         List.map ref_id refs = List.map ref_id refs' →
         poll_messages P refs st = poll_messages P refs' st)
    ∧ (∀ c1 method action pre post,
         includes c1 (requestId (fst s)) = true →
         includes (pre ++ request_subject method action c1 ++ post) (requestId (fst s))
         = true).
Proof.
  intros P s.
  assert (Hfrom : ∀ response s',
            poll P s = (Ok (Some response), s') →
            ∃ before msg after id email t1 w1 w2,
              listed P s = before ++ msg :: after
              ∧ poll_messages P before (fst s, after_list P s) = (Ok None, (t1, w1))
              ∧ ref_id msg = Some id ∧ id ≠ [] ∧ (id ∉ processedMessageIds t1)
              ∧ fetchAndParseMessage P id w1 = (Ok (Some email), w2)
              ∧ includes (subject email) (requestId (fst s)) = true
              ∧ extractApiResponse (body email) (requestId (fst s)) id
                = Ok (Some response)
              ∧ s' = (with_processed t1 ({[ id ]} ∪ processedMessageIds t1),
                      snd (markAsRead P id w2))).
  { intros response s' Hpoll.
    pose proof (poll_response_listed P s response s' Hpoll) as Hne.
    rewrite (poll_listed P s Hne) in Hpoll.
    destruct (poll_messages_split P _ _ _ _ _ Hpoll)
      as (before & msg & after & id & email & t1 & w1 & w2
          & Hl & Hb & _ & Hm & Hid & Hnew & Hf & Hi & Hd & Hs).
    exists before, msg, after, id, email, t1, w1, w2. tauto. }
  split; [exact Hfrom|]. split; [|split; [|split]].
  - intros before msg after id email t1 w1 w2 response Hl Hb Hm Hid Hnew Hf Hi Hd.
    assert (Hne : listed P s ≠ []) by (rewrite Hl; destruct before; discriminate).
    rewrite (poll_listed P s Hne), Hl.
    assert (Hrid : requestId t1 = requestId (fst s)).
    { destruct before as [|b before].
      - cbn in Hb. unfold ret in Hb. injection Hb as <- _. reflexivity.
      - exact (proj1 (proj2 (proj1 (proj1 (poll_messages_rule P (effect P)
                 (effect_refl P) (effect_trans P)
                 (λ id t w H, effect_fetch P id t w _ _ H (surjective_pairing _))
                 (effect_mark P) _ _ _ _ Hb))))). }
    rewrite <- Hrid in Hi, Hd.
    apply (poll_messages_match P before after msg id email _ _ t1 w1 w2 response);
      assumption.
  - intros Hnone response Hpoll.
    destruct (Hfrom response (snd (poll P s)) (pair_of_fst _ _ Hpoll))
      as (before & msg & after & id & email & t1 & w1 & w2
          & Hl & _ & Hm & _ & _ & Hf & Hi & _).
    rewrite (Hnone id w1 email w2) in Hi; [discriminate| |exact Hf].
    rewrite Hl. unfold ref_ids. apply list_elem_of_omap. exists msg.
    split; [|exact Hm]. apply elem_of_app. right. apply elem_of_cons. left. reflexivity.
  - apply poll_messages_ids.
  - intros c1 method action pre post Hc.
    apply (includes_trans _ c1); [apply request_subject_includes|exact Hc].
Qed.

(** One reply, tagged with the awaited id: the poll returns its payload. *)
Lemma poll_matches_by_subject_inclusion_witness :
  let s := (Scenario.watcher (lit "abc-123") 3000 180000,
            Fake.world Scenario.t0 [Scenario.reply_abc_123] 0) in
  ∃ before msg after id email t1 w1 w2,
    listed Fake.platform s = before ++ msg :: after
    ∧ poll_messages Fake.platform before (fst s, after_list Fake.platform s)
      = (Ok None, (t1, w1))
    ∧ ref_id msg = Some id ∧ id ≠ [] ∧ (id ∉ processedMessageIds t1)
    ∧ fetchAndParseMessage Fake.platform id w1 = (Ok (Some email), w2)
    ∧ includes (subject email) (lit "abc-123") = true
    ∧ extractApiResponse (body email) (lit "abc-123") id
      = Ok (Some [(lit "requestId", JString (lit "abc-123"));
                  (lit "messageId", JString (lit "m1"));
                  (lit "status", JString (lit "success"));
                  (lit "events", JArray [])])
    ∧ snd (poll Fake.platform s)
      = (with_processed t1 ({[ id ]} ∪ processedMessageIds t1),
         snd (markAsRead Fake.platform id w2)).
Proof.
  intros s.
  apply (proj1 (poll_matches_by_subject_inclusion Fake.platform s)).
  apply pair_of_fst. vm_compute. reflexivity.
Defined.

(** C1 as stated fails: the ids [abc-123] and [abc-12] are distinct, and the
    reply tagged [abc-123] resolves the poll that waits for [abc-12]. *)
Lemma reply_for_one_id_resolves_wait_for_another :
  lit "abc-123" ≠ lit "abc-12"
  ∧ fst (poll Fake.platform
           (Scenario.watcher (lit "abc-12") 3000 180000,
            Fake.world Scenario.t0 [Scenario.reply_abc_123] 0))
    = Ok (Some [(lit "requestId", JString (lit "abc-12"));
                (lit "messageId", JString (lit "m1"));
                (lit "status", JString (lit "success"));
                (lit "events", JArray [])]).
Proof. split; [discriminate|vm_compute; reflexivity]. Qed.

(** ** Timeout *)

(** One poll more than the intervals that fit into the time left. *)
Lemma enough_polls (left interval : Z) :
  0 < interval → left < Z.of_nat (S (Z.to_nat (left / interval))) * interval.
Proof.
  intros Hpos. rewrite Nat2Z.inj_succ.
  destruct (Z.le_gt_cases 0 left) as [Hl|Hl].
  - rewrite Z2Nat.id by (apply Z.div_pos; lia).
    pose proof (Z.mul_succ_div_gt left interval Hpos). lia.
  - rewrite Z2Nat.nonpos; [lia|].
    apply Z.lt_le_incl, Z.div_lt_upper_bound; lia.
Qed.

Lemma fake_clock_sound : ClockSound Fake.platform.
Proof.
  split.
  - intros ms e. cbn. lia.
  - intros q n e. cbn. unfold Fake.fake_list, Fake.tick, Fake.latency.
    destruct (Fake.outages e); [destruct (List.filter _ _)|]; cbn; lia.
  - intros id e. cbn. unfold Fake.fake_get, Fake.tick, Fake.latency.
    destruct (List.find _ _); cbn; lia.
  - intros id ls e. cbn. unfold Fake.latency. lia.
Qed.

(** On the fake platform a wait on an empty mailbox never resolves. *)
Lemma fake_empty_inbox_never_resolves fuel : ∀ t (w : World Fake.platform) response s',
  Fake.inbox (env _ w) = [] → Fake.outages (env _ w) = O →
  check Fake.platform fuel (t, w) ≠ Some (Ok response, s').
Proof.
  induction fuel as [|fuel IH]; intros t w response s' Hin Hout;
    rewrite check_unfold; destruct (timed_out _ _ _); try discriminate.
  rewrite poll_run. cbn -[check]. unfold Fake.fake_list. rewrite Hin, Hout.
  cbn -[check]. apply IH; cbn; assumption.
Qed.

(** Without a deadline that a clock can pass, a wait is never rejected. *)
Lemma check_never_rejects (P : Platform) fuel : ∀ (s : ResponseWatcher * World P) e s',
  timeoutMs (fst s) = NaN ∨ timeoutMs (fst s) = PosInf →
  check P fuel s ≠ Some (Raise e, s').
Proof.
  assert (Hnot : ∀ (t : ResponseWatcher) (w : World P),
            timeoutMs t = NaN ∨ timeoutMs t = PosInf → timed_out P t w = false).
  { intros t w [Ht|Ht]; unfold timed_out, num_gt, num_lt; rewrite Ht; reflexivity. }
  induction fuel as [|fuel IH]; intros s e s' Ht; rewrite check_unfold, (Hnot _ _ Ht);
    [discriminate|].
  destruct (poll P s) as [o s1] eqn:Hpoll.
  destruct (poll_effect P _ _ _ Hpoll) as [((_ & _ & _ & Ht1 & _) & _) _].
  destruct o as [[response|]|err]; [discriminate| |];
    apply IH; cbn [fst]; rewrite Ht1; exact Ht.
Qed.

(** C2, as amended: the clock of a watcher starts when it is constructed,
    and its timeout is the one given, or 30000 when that is [undefined]. A
    wait is rejected only with the timeout error that carries the awaited
    id, and only by a check that read the clock more than the timeout after
    the construction. When no candidate ever matches (the wait never
    resolves), the wait does get rejected so -- it does not hang -- provided
    the timeout is a finite number, the clock is sound and the poll interval
    is a finite number of at least one millisecond. With a timeout that is
    [NaN] or [Infinity] the wait is never rejected. *)
Theorem waitForResponse_times_out :
  ∀ (P : Platform) (sender : option jsstring) (rid : jsstring)
    (interval timeout : option jsnum) (w0 w : World P),
    let t := new_ResponseWatcher P sender rid interval timeout w0 in
    let limit := default (of_int 30000) timeout in
    let every := default (of_int 2000) interval in
    (∀ fuel e s',
       waitForResponse P fuel (t, w) = Some (Raise e, s') →
       e = CalendarApiError
             (lit "Request timed out after " ++ number_text P limit ++ lit "ms")
             ErrorCodes.TIMEOUT (Some rid)
       ∧ num_gt (of_int (now P (snd s') - now P w0)) limit = true
       ∧ (finite limit → now P (snd s') - now P w0 > whole limit))
    ∧ (ClockSound P → finite limit → finite every → 0 < whole every →
       (∀ fuel response s',
          waitForResponse P fuel (t, w) ≠ Some (Ok response, s')) →
       ∃ fuel s',
         waitForResponse P fuel (t, w) = Some (Raise (timeout_error P t), s')
         ∧ now P (snd s') - now P w0 > whole limit)
    ∧ (limit = NaN ∨ limit = PosInf →
       ∀ fuel e s', waitForResponse P fuel (t, w) ≠ Some (Raise e, s')).
Proof.
  intros P sender rid interval timeout w0 w t limit every.
  assert (Hlate : ∀ w', timed_out P t w' = true →
            num_gt (of_int (now P w' - now P w0)) limit = true
            ∧ (finite limit → now P w' - now P w0 > whole limit)).
  { intros w' H. split; [exact H|]. intros Hf.
    unfold timed_out in H. cbn [startTime timeoutMs t new_ResponseWatcher] in H.
    fold limit in H. rewrite (num_gt_whole _ _ Hf) in H.
    apply Z.gtb_lt in H. lia. }
  split; [|split].
  - intros fuel e s' H.
    destruct (check_outcome P fuel _ _ _ H) as [_ [-> Hout]].
    split; [reflexivity|]. apply Hlate, Hout.
  - intros HC Hlimit Hevery Hpos Hnever.
    set (n := S (Z.to_nat ((whole limit - (now P w - now P w0)) / whole every))).
    destruct (check_terminates P HC n (t, w) Hlimit Hevery Hpos)
      as [[[response|e] s'] Hx].
    + cbn [fst snd]. subst n. apply enough_polls, Hpos.
    + destruct (Hnever _ _ _ Hx).
    + exists n, s'. destruct (check_outcome P n _ _ _ Hx) as [_ [-> Hout]].
      split; [exact Hx|]. apply (Hlate _ Hout), Hlimit.
  - intros Hlimit fuel e s'. apply check_never_rejects. exact Hlimit.
Qed.

(** No reply, polls every two seconds, a timeout of five seconds. *)
Lemma waitForResponse_times_out_witness :
  ∃ fuel s',
    waitForResponse Fake.platform fuel
      (new_ResponseWatcher Fake.platform (Some Scenario.responder) (lit "abc-123")
         (Some (of_int 2000)) (Some (of_int 5000)) (Fake.world Scenario.t0 [] 0),
       Fake.world Scenario.t0 [] 0)
    = Some (Raise (CalendarApiError (lit "Request timed out after 5000ms")
                     (lit "TIMEOUT") (Some (lit "abc-123"))), s')
    ∧ now Fake.platform (snd s') - Scenario.t0 > 5000.
Proof.
  apply (proj1 (proj2 (waitForResponse_times_out Fake.platform
                  (Some Scenario.responder) (lit "abc-123")
                  (Some (of_int 2000)) (Some (of_int 5000))
                  (Fake.world Scenario.t0 [] 0) (Fake.world Scenario.t0 [] 0)))).
  - apply fake_clock_sound.
  - exact I.
  - exact I.
  - reflexivity.
  - intros fuel response s'. apply fake_empty_inbox_never_resolves; reflexivity.
Defined.

(** C2 as stated fails: [resolveConfig] accepts a timeout of [Infinity], and
    a watcher constructed with it, on a mailbox that stays empty, is still
    pending after any number of polls. *)
Lemma infinite_timeout_never_rejects :
  (∃ config,
     resolveConfig
       (Some (mkPartial None None None None None None (Some (Some PosInf)) None))
     = Ok config
     ∧ rc_requestTimeoutMs config = Some PosInf)
  ∧ ∀ fuel,
      waitForResponse Fake.platform fuel
        (new_ResponseWatcher Fake.platform (Some Scenario.responder) (lit "abc-123")
           (Some (of_int 3000)) (Some PosInf) (Fake.world Scenario.t0 [] 0),
         Fake.world Scenario.t0 [] 0)
      = None.
Proof.
  split; [eexists; split; reflexivity|].
  intros fuel.
  destruct (waitForResponse Fake.platform fuel _) as [[[response|e] s']|] eqn:Hrun;
    [| |reflexivity].
  - destruct (fake_empty_inbox_never_resolves fuel _ (Fake.world Scenario.t0 [] 0)
                response s' eq_refl eq_refl Hrun).
  - apply check_never_rejects in Hrun; [destruct Hrun|]. right. reflexivity.
Qed.

(** On the fake platform: no reply, polls every two seconds, a timeout of
    five seconds; the fourth check, six seconds and three list calls after
    the start, rejects; three checks are not enough. *)
Example timeout_run :
  let s := (Scenario.watcher (lit "abc-123") 2000 5000, Fake.world Scenario.t0 [] 0) in
  option_map fst (waitForResponse Fake.platform 3 s)
  = Some (Raise (CalendarApiError (lit "Request timed out after 5000ms")
                   (lit "TIMEOUT") (Some (lit "abc-123"))))
  ∧ option_map (λ x, now Fake.platform (snd (snd x)) - Scenario.t0)
               (waitForResponse Fake.platform 3 s) = Some 6015
  ∧ option_map (λ x, List.length (calls _ (snd (snd x))))
               (waitForResponse Fake.platform 3 s) = Some 3%nat
  ∧ option_map fst (waitForResponse Fake.platform 2 s) = None.
Proof. repeat split; vm_compute; reflexivity. Qed.

(** ** At-most-once examination *)

Lemma effect_no_refetch (P : Platform) (s s' : ResponseWatcher * World P) :
  effect P s s' →
  processedMessageIds (fst s) ⊆ processedMessageIds (fst s')
  ∧ ∃ new, calls P (snd s') = new ++ calls P (snd s)
           ∧ NoDup (fetched new)
           ∧ ∀ id, id ∈ processedMessageIds (fst s) → id ∉ fetched new.
Proof.
  intros (_ & Hgrow & new & Hcalls & Hlog & Hnodup).
  split; [exact Hgrow|]. exists new. split; [exact Hcalls|]. split; [exact Hnodup|].
  intros id Hid Hget. apply fetched_elem in Hget.
  rewrite Forall_forall in Hlog. destruct (Hlog _ Hget) as [Hnot _]. contradiction.
Qed.

(** C3: the set of processed ids starts empty with every watcher; a poll
    cycle only adds to it, fetches no id that was in it when the cycle
    began, and fetches no id twice; and so does a whole wait, over all its
    cycles. *)
Theorem processed_ids_never_refetched :
  ∀ P : Platform,
    (∀ sender rid interval timeout w,
       processedMessageIds (new_ResponseWatcher P sender rid interval timeout w) = ∅)
    ∧ (∀ s r s',
         poll P s = (r, s') →
         processedMessageIds (fst s) ⊆ processedMessageIds (fst s')
         ∧ ∃ new, calls P (snd s') = new ++ calls P (snd s)
                  ∧ NoDup (fetched new)
                  ∧ ∀ id, id ∈ processedMessageIds (fst s) → id ∉ fetched new)
    ∧ (∀ fuel s r s',
         waitForResponse P fuel s = Some (r, s') →
         processedMessageIds (fst s) ⊆ processedMessageIds (fst s')
         ∧ ∃ new, calls P (snd s') = new ++ calls P (snd s)
                  ∧ NoDup (fetched new)
                  ∧ ∀ id, id ∈ processedMessageIds (fst s) → id ∉ fetched new).
Proof.
  intros P. split; [reflexivity|]. split.
  - intros s r s' H. apply effect_no_refetch, (poll_effect P _ _ _ H).
  - intros fuel s r s' H. apply effect_no_refetch, (check_outcome P fuel _ _ _ H).
Qed.

(** A reply with the right tag and a garbled body stays unread and is
    listed by every poll; it is fetched by the first one only. *)
Lemma processed_ids_never_refetched_witness :
  let s := (Scenario.watcher (lit "abc-123") 2000 5000,
            Fake.world Scenario.t0
              [Fake.reply (lit "m1") Scenario.responder
                 (lit "Re: " ++ request_subject GET list_ (lit "abc-123"))
                 (lit "{garbled")] 0) in
  ∃ r s',
    waitForResponse Fake.platform 3 s = Some (r, s')
    ∧ fetched (calls _ (snd s')) = [lit "m1"]
    ∧ List.length (calls _ (snd s')) = 4%nat
    ∧ ∃ new, calls _ (snd s') = new ++ [] ∧ NoDup (fetched new)
             ∧ ∀ id, id ∈ (∅ : gset jsstring) → id ∉ fetched new.
Proof.
  intros s.
  assert (option_map (λ x, (fetched (calls _ (snd (snd x))),
                            List.length (calls _ (snd (snd x)))))
                     (waitForResponse Fake.platform 3 s)
          = Some ([lit "m1"], 4%nat)) as Hlog by (vm_compute; reflexivity).
  destruct (waitForResponse Fake.platform 3 s) as [[r s']|] eqn:Hrun;
    [|discriminate Hlog].
  cbn in Hlog. injection Hlog as Hfetched Hlength.
  exists r, s'. split; [reflexivity|]. split; [exact Hfetched|].
  split; [exact Hlength|].
  apply (proj2 (proj2 (processed_ids_never_refetched Fake.platform))
           3%nat s r s' Hrun).
Defined.

(** ** Transient errors *)




(** ** The client facade *)

Section ClientFacts.

Variable P : Platform.

Lemma perform_unfold c call :
  ∃ method payload, ∀ fuel,
    perform P c fuel call
    = executeApiCall P (sendRequest P c fuel method (action_of call) payload).
Proof. destruct call; cbn; eauto. Qed.

Lemma perform_eq c fuel call :
  perform P c fuel call
  = executeApiCall P
      (sendRequest P c fuel (method_of call) (action_of call) (payload_of call)).
Proof. destruct call; reflexivity. Qed.

Lemma sendRequest_skips c fuel method action payload w :
  action ∉ supportedActions c →
  sendRequest P c fuel method action payload w = Some (Ok skipped_response, w).
Proof.
  intros H. unfold sendRequest. rewrite bool_decide_eq_false_2 by exact H. reflexivity.
Qed.

Lemma sendRequest_not_connected c fuel method action payload w :
  action ∈ supportedActions c →
  connected c = false ∨ gmail c = false →
  sendRequest P c fuel method action payload w
  = Some (Raise (CalendarApiError (lit "Client is not connected. Call connect() first.")
                                  ErrorCodes.NOT_CONNECTED None), w).
Proof.
  intros H Hc. unfold sendRequest, ensureConnected.
  rewrite bool_decide_eq_true_2 by exact H. cbn [negb].
  replace (negb (connected c) || negb (gmail c)) with true; [reflexivity|].
  destruct Hc as [-> | ->]; [reflexivity|]. symmetry. apply orb_true_r.
Qed.

(** [sendApiEmail], step by step. *)
Lemma sendApiEmail_run method action payload from to (w : World P) :
  let rid := fst (uuidv4 P (env P w)) in
  let raw := raw_request P method action payload from to rid in
  let sent := messages_send P raw (snd (uuidv4 P (env P w))) in
  let w' := mkWorld P (snd sent) (CallSend raw :: calls P w) in
  sendApiEmail P method action payload from to w
  = match fst sent with
    | Ok response =>
        (Ok (mkSent rid (default [] (sent_id response))
                    (default [] (sent_threadId response)) (now P w')), w')
    | Raise error => (Raise (send_failure rid error), w')
    end.
Proof.
  cbn zeta. unfold sendApiEmail, raw_request, bind, catch, transport, gets, ret, throw,
    pure_outcome, send_failure.
  destruct (uuidv4 P (env P w)) as [rid e1]. cbn [fst snd env calls].
  destruct (messages_send P _ e1) as [[response|error] e2]; [reflexivity|].
  cbn [fst snd]. destruct (read_message error); reflexivity.
Qed.

(** The request of a connected client, stage by stage. *)
Lemma sendRequest_stages c fuel call (w : World P) :
  action_of call ∈ supportedActions c → connected c = true → gmail c = true →
  sendRequest P c fuel (method_of call) (action_of call) (payload_of call) w
  = match fst (send_result P c call w) with
    | Raise error =>
        Some (Raise (send_failure (minted P w) error), after_send P c call w)
    | Ok result =>
        match waitForResponse P fuel (watcher_of P c call w, after_send P c call w) with
        | None => None
        | Some (Raise e, s3) => Some (Raise e, snd s3)
        | Some (Ok response, s3) =>
            Some (Ok response,
                  mkWorld P (env P (snd s3))
                    (CallBatchModify
                       (messagesToDelete (default [] (sent_id result)) response)
                       [lit "TRASH"] :: calls P (snd s3)))
        end
    end.
Proof.
  intros Hsup Hcon Hg. unfold sendRequest, ensureConnected.
  rewrite bool_decide_eq_true_2 by exact Hsup. rewrite Hcon, Hg. cbn [negb orb].
  unfold ret. rewrite sendApiEmail_run. cbn zeta.
  unfold send_result, after_send, watcher_of, sent_raw, minted.
  destruct (fst (messages_send P _ _)) as [result|error]; [|reflexivity].
  cbn [sent_requestId sent_messageId].
  destruct (waitForResponse P fuel _) as [[[response|e] [t3 w3]]|]; try reflexivity.
  unfold detach, cleanupMessages, messagesToDelete. rewrite Hg. cbn [negb orb].
  unfold catch, transport. cbn [snd].
  destruct (messages_batchModify P _ _ (env P w3)) as [[[]|e] e4]; reflexivity.
Qed.

Lemma durationMs_stamped d (response : ApiResponse) :
  obj_get (lit "durationMs") (obj_set (lit "durationMs") (JNumber d 0) response)
  = Some (JNumber d 0).
Proof. rewrite obj_get_obj_set. apply decide_True. reflexivity. Qed.

Lemma status_kept d (response : ApiResponse) :
  status (obj_set (lit "durationMs") (JNumber d 0) response) = status response.
Proof. unfold status. rewrite obj_get_obj_set. apply decide_False. discriminate. Qed.

Lemma data_kept d (response : ApiResponse) :
  obj_get (lit "data") (stamp d response) = obj_get (lit "data") response.
Proof. unfold stamp. rewrite obj_get_obj_set. apply decide_False. discriminate. Qed.

(** The start of a watcher's clock is the world it is constructed in. *)
Lemma watcher_of_fresh c call (w : World P) :
  now P (after_send P c call w) - startTime (watcher_of P c call w) = 0.
Proof. unfold watcher_of, new_ResponseWatcher. cbn [startTime]. lia. Qed.

(** The request of a connected client settles once its wait does. *)
Lemma sendRequest_terminates c call (w : World P) :
  ClockSound P →
  finite (watch_timeout c) → finite (watch_interval c) → 0 < whole (watch_interval c) →
  ∃ x, sendRequest P c (S (Z.to_nat (whole (watch_timeout c) / whole (watch_interval c))))
         (method_of call) (action_of call) (payload_of call) w = Some x.
Proof.
  intros HC Ht Hi Hpos.
  set (n := S (Z.to_nat (whole (watch_timeout c) / whole (watch_interval c)))).
  destruct (decide (action_of call ∈ supportedActions c)) as [Hsup|Hsup];
    [|rewrite sendRequest_skips by exact Hsup; eauto].
  destruct (connected c) eqn:Hcon;
    [|rewrite sendRequest_not_connected by auto; eauto].
  destruct (gmail c) eqn:Hg;
    [|rewrite sendRequest_not_connected by auto; eauto].
  rewrite sendRequest_stages by assumption.
  destruct (fst (send_result P c call w)) as [result|error]; [|eauto].
  destruct (check_terminates P HC n (watcher_of P c call w, after_send P c call w))
    as [[[r|e] s3] Hx]; try assumption.
  - cbn [fst snd]. rewrite watcher_of_fresh, Z.sub_0_r. subst n.
    apply enough_polls, Hpos.
  - unfold waitForResponse. rewrite Hx. eauto.
  - unfold waitForResponse. rewrite Hx. eauto.
Qed.

End ClientFacts.

(** C9: an action outside the client's list of supported actions is
    answered at once with the skip notice, stamped with a duration of zero;
    the world is left as it was -- no transport call, whatever the
    connection state. *)
Theorem unsupported_action_is_skipped :
  ∀ (P : Platform) (c : CalendarEmailClient) (fuel : nat) (call : PublicCall)
    (w : World P),
    action_of call ∉ supportedActions c →
    ∃ response,
      perform P c fuel call w = Some (Ok response, w)
      ∧ response = skipped_response ++ [(lit "durationMs", JNumber 0 0)]
      ∧ status response = Some (JString (lit "skipped")).
Proof.
  intros P c fuel call w H.
  destruct (perform_unfold P c call) as (method & payload & ->).
  unfold executeApiCall. rewrite sendRequest_skips by exact H.
  rewrite Z.sub_diag. eexists. split; [reflexivity|]. split; reflexivity.
Qed.

(** A fresh client supports [list] only: creating an event sends nothing. *)
Lemma unsupported_action_is_skipped_witness :
  ∃ response,
    createEvent Fake.platform (new_CalendarEmailClient Scenario.cfg) 0
      (JObject [(lit "subject", JString (lit "Standup"))])
      (Fake.world Scenario.t0 [] 0)
    = Some (Ok response, Fake.world Scenario.t0 [] 0)
    ∧ response = skipped_response ++ [(lit "durationMs", JNumber 0 0)]
    ∧ status response = Some (JString (lit "skipped")).
Proof.
  apply (unsupported_action_is_skipped Fake.platform
           (new_CalendarEmailClient Scenario.cfg) 0
           (CreateEvent (JObject [(lit "subject", JString (lit "Standup"))]))
           (Fake.world Scenario.t0 [] 0)).
  apply not_elem_of_cons. split; [discriminate|apply not_elem_of_nil].
Defined.

(** C8, as amended: a supported operation called on a client that is not
    connected makes no transport call and leaves the world as it was; its
    error is not raised to the caller but returned, as a response of status
    [error] that carries the code [NOT_CONNECTED]. *)
Theorem disconnected_call_returns_not_connected :
  ∀ (P : Platform) (c : CalendarEmailClient) (fuel : nat) (call : PublicCall)
    (w : World P),
    connected c = false ∨ gmail c = false →
    action_of call ∈ supportedActions c →
    perform P c fuel call w = Some (Ok not_connected_response, w).
Proof.
  intros P c fuel call w Hc H.
  destruct (perform_unfold P c call) as (method & payload & ->).
  unfold executeApiCall. rewrite sendRequest_not_connected by assumption.
  rewrite Z.sub_diag. reflexivity.
Qed.

Lemma disconnected_call_returns_not_connected_witness :
  listEvents Fake.platform (new_CalendarEmailClient Scenario.cfg) 5
    (lit "2026-02-11T00:00:00Z") (lit "2026-02-12T00:00:00Z")
    (Fake.world Scenario.t0 [] 0)
  = Some (Ok not_connected_response, Fake.world Scenario.t0 [] 0).
Proof.
  apply (disconnected_call_returns_not_connected Fake.platform
           (new_CalendarEmailClient Scenario.cfg) 5
           (ListEvents (lit "2026-02-11T00:00:00Z") (lit "2026-02-12T00:00:00Z"))).
  - left. reflexivity.
  - apply elem_of_cons. left. reflexivity.
Defined.

(** C8 as stated fails: the call on a disconnected client does not raise;
    its promise resolves, with a response of status [error]. *)
Lemma disconnected_call_does_not_raise :
  ∃ response,
    listEvents Fake.platform (new_CalendarEmailClient Scenario.cfg) 0
      (lit "2026-02-11T00:00:00Z") (lit "2026-02-12T00:00:00Z")
      (Fake.world Scenario.t0 [] 0)
    = Some (Ok response, Fake.world Scenario.t0 [] 0)
    ∧ status response = Some (JString (lit "error"))
    ∧ obj_get (lit "data") response
      = Some (JObject [(lit "code", JString (lit "NOT_CONNECTED"))]).
Proof.
  exists not_connected_response. split; [|split; vm_compute; reflexivity].
  unfold listEvents, executeApiCall.
  rewrite sendRequest_not_connected;
    [|apply elem_of_cons; left; reflexivity|left; reflexivity].
  rewrite Z.sub_diag. reflexivity.
Qed.

(** C7, as amended. What a public operation returns, fate by fate: for an
    unsupported action the skip notice; for a client that is not connected,
    for a send that fails and for a wait that is rejected, the response
    made of the thrown error, whose status is [error]; for a wait that
    resolves, the decoded reply, whose status is whatever the reply says, if
    anything. Each response carries the time between the start of the
    operation and its return as [durationMs], and no operation that settles
    raises. With a sound clock and finite timing the operation does
    settle. *)
Theorem public_call_returns_response :
  ∀ (P : Platform) (c : CalendarEmailClient) (call : PublicCall) (w : World P),
    (∀ fuel r w',
       perform P c fuel call w = Some (r, w') →
       ∃ response,
         r = Ok response
         ∧ obj_get (lit "durationMs") response = Some (JNumber (now P w' - now P w) 0))
    ∧ (action_of call ∉ supportedActions c →
       ∀ fuel,
         perform P c fuel call w = Some (Ok (stamp 0 skipped_response), w)
         ∧ status (stamp 0 skipped_response) = Some (JString (lit "skipped")))
    ∧ (action_of call ∈ supportedActions c →
       connected c = false ∨ gmail c = false →
       ∀ fuel,
         perform P c fuel call w = Some (Ok not_connected_response, w)
         ∧ status not_connected_response = Some (JString (lit "error")))
    ∧ (action_of call ∈ supportedActions c → connected c = true → gmail c = true →
       ∀ fuel,
         let w2 := after_send P c call w in
         let failed error d := stamp d (paramsErrorMessage error) in
         match fst (send_result P c call w) with
         | Raise error =>
             perform P c fuel call w
             = Some (Ok (failed (send_failure (minted P w) error) (now P w2 - now P w)),
                     w2)
         | Ok result =>
             match waitForResponse P fuel (watcher_of P c call w, w2) with
             | None => perform P c fuel call w = None
             | Some (Raise e, s3) =>
                 e = timeout_error P (watcher_of P c call w)
                 ∧ perform P c fuel call w
                   = Some (Ok (failed e (now P (snd s3) - now P w)), snd s3)
                 ∧ obj_get (lit "data") (failed e (now P (snd s3) - now P w))
                   = Some (JObject [(lit "code", JString (lit "TIMEOUT"))])
             | Some (Ok decoded, s3) =>
                 (∃ messages, built_from P (minted P w) messages decoded)
                 ∧ perform P c fuel call w
                   = Some (Ok (stamp (now P (snd s3) - now P w) decoded),
                           mkWorld P (env P (snd s3))
                             (CallBatchModify
                                (messagesToDelete (default [] (sent_id result)) decoded)
                                [lit "TRASH"] :: calls P (snd s3)))
                 ∧ status (stamp (now P (snd s3) - now P w) decoded) = status decoded
             end
         end)
    ∧ (∀ error d, status (stamp d (paramsErrorMessage error))
                  = Some (JString (lit "error")))
    ∧ (ClockSound P →
       finite (watch_timeout c) → finite (watch_interval c) →
       0 < whole (watch_interval c) →
       ∃ fuel x, perform P c fuel call w = Some x).
Proof.
  intros P c call w.
  assert (Hstages : action_of call ∈ supportedActions c → connected c = true →
            gmail c = true → ∀ fuel,
            let w2 := after_send P c call w in
            let failed error d := stamp d (paramsErrorMessage error) in
            match fst (send_result P c call w) with
            | Raise error =>
                perform P c fuel call w
                = Some (Ok (failed (send_failure (minted P w) error)
                                   (now P w2 - now P w)), w2)
            | Ok result =>
                match waitForResponse P fuel (watcher_of P c call w, w2) with
                | None => perform P c fuel call w = None
                | Some (Raise e, s3) =>
                    e = timeout_error P (watcher_of P c call w)
                    ∧ perform P c fuel call w
                      = Some (Ok (failed e (now P (snd s3) - now P w)), snd s3)
                    ∧ obj_get (lit "data") (failed e (now P (snd s3) - now P w))
                      = Some (JObject [(lit "code", JString (lit "TIMEOUT"))])
                | Some (Ok decoded, s3) =>
                    (∃ messages, built_from P (minted P w) messages decoded)
                    ∧ perform P c fuel call w
                      = Some (Ok (stamp (now P (snd s3) - now P w) decoded),
                              mkWorld P (env P (snd s3))
                                (CallBatchModify
                                   (messagesToDelete (default [] (sent_id result))
                                                     decoded)
                                   [lit "TRASH"] :: calls P (snd s3)))
                    ∧ status (stamp (now P (snd s3) - now P w) decoded) = status decoded
                end
            end).
  { intros Hsup Hcon Hg fuel. cbn zeta.
    rewrite perform_eq. unfold executeApiCall.
    rewrite (sendRequest_stages P c fuel call w Hsup Hcon Hg).
    destruct (fst (send_result P c call w)) as [result|error]; [|reflexivity].
    destruct (waitForResponse P fuel _) as [[[decoded|e] s3]|] eqn:Hwait;
      [| |reflexivity].
    - split; [exact (proj2 (check_outcome P fuel _ _ _ Hwait))|].
      split; [reflexivity|apply status_kept].
    - pose proof (proj1 (proj2 (check_outcome P fuel _ _ _ Hwait))) as He.
      cbn [fst] in He. split; [exact He|]. split; [reflexivity|].
      rewrite He. reflexivity. }
  split; [|split; [|split; [|split; [exact Hstages|split]]]].
  - intros fuel r w'. rewrite perform_eq. unfold executeApiCall.
    destruct (sendRequest P c fuel _ _ _ w) as [[[response|e] w1]|]; [| |discriminate];
      intros Heq; injection Heq as <- <-; eexists; (split; [reflexivity|]);
      first [apply durationMs_stamped | reflexivity].
  - intros Hsup fuel. rewrite perform_eq. unfold executeApiCall.
    rewrite sendRequest_skips by exact Hsup. rewrite Z.sub_diag.
    split; reflexivity.
  - intros Hsup Hc fuel. rewrite perform_eq. unfold executeApiCall.
    rewrite sendRequest_not_connected by assumption. rewrite Z.sub_diag.
    split; reflexivity.
  - intros error d. unfold stamp. rewrite (status_kept d). reflexivity.
  - intros HC Ht Hi Hpos.
    destruct (sendRequest_terminates P c call w HC Ht Hi Hpos) as [[[response|e] w1] Hx];
      eexists; rewrite perform_eq; unfold executeApiCall; rewrite Hx; eauto.
Qed.

(** C7 as stated fails: the reply decides the status of a match, and
    [pending] is none of [success], [error], [skipped]. *)
Lemma matched_reply_sets_any_status :
  ∃ response w',
    listEvents Fake.platform Scenario.connected_client 1
      (lit "2026-02-11T00:00:00Z") (lit "2026-02-12T00:00:00Z")
      (Fake.world Scenario.t0 [Scenario.reply_pending] 0)
    = Some (Ok response, w')
    ∧ status response = Some (JString (lit "pending"))
    ∧ lit "pending" ≠ lit "success"
    ∧ lit "pending" ≠ lit "error"
    ∧ lit "pending" ≠ lit "skipped".
Proof.
  destruct (settled_with
              (listEvents Fake.platform Scenario.connected_client 1
                 (lit "2026-02-11T00:00:00Z") (lit "2026-02-12T00:00:00Z")
                 (Fake.world Scenario.t0 [Scenario.reply_pending] 0))
              (Ok [(lit "requestId", JString Fake.fake_uuid);
                   (lit "messageId", JString (lit "m7"));
                   (lit "status", JString (lit "pending"));
                   (lit "durationMs", JNumber 20 0)]))
    as [w' Hrun]; [vm_compute; reflexivity|].
  eexists _, w'. split; [exact Hrun|]. split; [vm_compute; reflexivity|].
  repeat split; discriminate.
Qed.

(** The default configuration on the fake platform: a call that finds no
    reply settles, with the response of the timeout; and the call whose
    reply is there returns it, twenty milliseconds after its start. *)
Lemma public_call_returns_response_witness :
  (∃ fuel x,
     listEvents Fake.platform Scenario.connected_client fuel
       (lit "2026-02-11T00:00:00Z") (lit "2026-02-12T00:00:00Z")
       (Fake.world Scenario.t0 [] 0)
     = Some x)
  ∧ option_map fst
      (listEvents Fake.platform Scenario.connected_client 1
         (lit "2026-02-11T00:00:00Z") (lit "2026-02-12T00:00:00Z")
         (Fake.world Scenario.t0 [Scenario.reply_pending] 0))
    = Some (Ok [(lit "requestId", JString Fake.fake_uuid);
                (lit "messageId", JString (lit "m7"));
                (lit "status", JString (lit "pending"));
                (lit "durationMs", JNumber 20 0)]).
Proof.
  pose (call := ListEvents (lit "2026-02-11T00:00:00Z") (lit "2026-02-12T00:00:00Z")).
  split.
  - apply (proj2 (proj2 (proj2 (proj2 (proj2
             (public_call_returns_response Fake.platform Scenario.connected_client
                call (Fake.world Scenario.t0 [] 0))))))).
    + apply fake_clock_sound.
    + exact I.
    + exact I.
    + reflexivity.
  - vm_compute. reflexivity.
Defined.

(** * Further properties of the code *)

(** ** Configuration *)

Lemma below_iff (n : option jsnum) (bound : Z) :
  num_lt (to_number n) (of_int bound) = true
  ↔ n = Some NegInf ∨ ∃ q, n = Some (Num q) ∧ Qfloor q < bound.
Proof.
  destruct n as [[q| | |]|]; unfold to_number, from_option, id.
  - rewrite (num_lt_whole (Num q) bound I). cbn [whole]. rewrite Z.ltb_lt. split.
    + intros H. right. eauto.
    + intros [H|(q' & H & Hq)]; [discriminate|]. injection H as <-. exact Hq.
  - split; [discriminate|]. intros [H|(q & H & _)]; discriminate.
  - split; [auto|reflexivity].
  - split; [discriminate|]. intros [H|(q & H & _)]; discriminate.
  - split; [discriminate|]. intros [H|(q & H & _)]; discriminate.
Qed.

Lemma accepted_bound (n : option jsnum) (dflt bound : Z) :
  num_lt (to_number n) (of_int bound) = false → bound ≤ dflt →
  (finite (default (of_int dflt) n) → bound ≤ whole (default (of_int dflt) n))
  ∧ default (of_int dflt) n ≠ NegInf.
Proof.
  destruct n as [[q| | |]|]; unfold to_number, from_option, id; intros H Hd.
  - rewrite (num_lt_whole (Num q) bound I) in H. apply Z.ltb_ge in H.
    split; [intros _; exact H|discriminate].
  - split; [contradiction|discriminate].
  - discriminate H.
  - split; [contradiction|discriminate].
  - split; [intros _; rewrite whole_of_int; exact Hd|discriminate].
Qed.

(** X1: the timing of a client that the constructor lets through. Its
    sender and recipient are not empty. The watchers it makes poll every
    [pollIntervalMs] and wait [requestTimeoutMs] as given; with the defaults
    of the configuration, 3000 and 180000, when the key is left out; and
    with the defaults of the watcher, 2000 and 30000, when the key is given
    as [undefined]. A finite interval is never below 500 ms and a finite
    timeout never below 5000 ms; neither is ever [-Infinity]. *)
Theorem resolveConfig_accepts_valid :
  ∀ (partial : PartialConfig) (c : CalendarEmailClient),
    construct_client (Some partial) = Ok c →
    senderEmail (config c) ≠ [] ∧ recipientEmail (config c) ≠ []
    ∧ connected c = false
    ∧ (finite (watch_interval c) → 500 ≤ whole (watch_interval c))
    ∧ (finite (watch_timeout c) → 5000 ≤ whole (watch_timeout c))
    ∧ watch_interval c ≠ NegInf ∧ watch_timeout c ≠ NegInf
    ∧ watch_interval c
      = match p_pollIntervalMs partial with
        | None => of_int 3000
        | Some None => of_int 2000
        | Some (Some n) => n
        end
    ∧ watch_timeout c
      = match p_requestTimeoutMs partial with
        | None => of_int 180000
        | Some None => of_int 30000
        | Some (Some n) => n
        end.
Proof.
  intros partial c. unfold construct_client, resolveConfig.
  destruct (is_empty (rc_senderEmail (merge_config (Some partial)))) eqn:Hs;
    [discriminate|].
  destruct (is_empty (rc_recipientEmail (merge_config (Some partial)))) eqn:Hr;
    [discriminate|].
  destruct (is_empty (rc_credentialsPath (merge_config (Some partial))));
    [discriminate|].
  destruct (num_lt (to_number (rc_pollIntervalMs (merge_config (Some partial))))
                   (of_int 500)) eqn:Hi; [discriminate|].
  destruct (num_lt (to_number (rc_requestTimeoutMs (merge_config (Some partial))))
                   (of_int 5000)) eqn:Ht; [discriminate|].
  intros Heq. injection Heq as <-.
  unfold watch_interval, watch_timeout.
  cbn [config new_CalendarEmailClient client_config senderEmail recipientEmail
       cfg_pollIntervalMs requestTimeoutMs connected].
  cbn [merge_config rc_pollIntervalMs rc_requestTimeoutMs rc_senderEmail
       rc_recipientEmail] in *.
  split; [destruct (override _ _) as [[|]|]; [discriminate|discriminate|discriminate]|].
  split; [destruct (override _ (p_recipientEmail partial)) as [[|]|];
          [discriminate|discriminate|discriminate]|].
  split; [reflexivity|].
  pose proof (accepted_bound _ 2000 500 Hi ltac:(lia)) as [Hi1 Hi2].
  pose proof (accepted_bound _ 30000 5000 Ht ltac:(lia)) as [Ht1 Ht2].
  repeat (split; [assumption|]).
  split; [destruct (p_pollIntervalMs partial) as [[n|]|]; reflexivity|].
  destruct (p_requestTimeoutMs partial) as [[n|]|]; reflexivity.
Qed.

(** The poll interval given as [undefined]: the client polls every 2000 ms,
    not every 3000. *)
Lemma resolveConfig_accepts_valid_witness :
  ∃ c,
    construct_client
      (Some (mkPartial None None None None None (Some None) None None)) = Ok c
    ∧ watch_interval c = of_int 2000
    ∧ watch_timeout c = of_int 180000.
Proof.
  eexists. split; [reflexivity|].
  destruct (resolveConfig_accepts_valid
              (mkPartial None None None None None (Some None) None None) _ eq_refl)
    as (_ & _ & _ & _ & _ & _ & _ & Hi & Ht).
  split; [exact Hi|exact Ht].
Defined.

(** X2: [resolveConfig] throws exactly when one of its five tests fails,
    and then the error of the first that fails, in the order sender,
    recipient, credentials path, poll interval, timeout; else it returns the
    merged configuration. A text fails its test when it is [undefined] or
    empty; a number fails when it is a number below the bound -- [undefined],
    [NaN] and [Infinity] pass. *)
Theorem resolveConfig_rejects :
  ∀ partial : option PartialConfig,
    let config := merge_config partial in
    let failing :=
      (if is_empty (rc_senderEmail config)
       then [lit "Config: senderEmail is required"] else [])
      ++ (if is_empty (rc_recipientEmail config)
          then [lit "Config: recipientEmail is required"] else [])
      ++ (if is_empty (rc_credentialsPath config)
          then [lit "Config: credentialsPath is required"] else [])
      ++ (if num_lt (to_number (rc_pollIntervalMs config)) (of_int 500)
          then [lit "Config: pollIntervalMs must be at least 500ms"] else [])
      ++ (if num_lt (to_number (rc_requestTimeoutMs config)) (of_int 5000)
          then [lit "Config: requestTimeoutMs must be at least 5000ms"] else []) in
    resolveConfig partial
    = match failing with
      | [] => Ok config
      | first :: _ => Raise (OtherError first)
      end
    ∧ (∀ text, is_empty text = true ↔ text = None ∨ text = Some [])
    ∧ (∀ n bound,
         num_lt (to_number n) (of_int bound) = true
         ↔ n = Some NegInf ∨ ∃ q, n = Some (Num q) ∧ Qfloor q < bound).
Proof.
  intros partial config failing. subst failing. unfold resolveConfig. fold config.
  split; [|split].
  - destruct (is_empty (rc_senderEmail config)); [reflexivity|].
    destruct (is_empty (rc_recipientEmail config)); [reflexivity|].
    destruct (is_empty (rc_credentialsPath config)); [reflexivity|].
    destruct (num_lt (to_number (rc_pollIntervalMs config)) (of_int 500));
      [reflexivity|].
    destruct (num_lt (to_number (rc_requestTimeoutMs config)) (of_int 5000));
      reflexivity.
  - intros [[|u text]|]; cbn;
      (split; [intros H; try discriminate H; auto
              |intros [H|H]; try discriminate H; reflexivity]).
  - apply below_iff.
Qed.

(** An empty sender is reported even when the poll interval is bad too; a
    poll interval of [NaN] passes. *)
Lemma resolveConfig_rejects_witness :
  resolveConfig
    (Some (mkPartial (Some (Some [])) None None None None
                     (Some (Some (of_int 10))) None None))
  = Raise (OtherError (lit "Config: senderEmail is required"))
  ∧ (∃ config,
       resolveConfig
         (Some (mkPartial None None None None None (Some (Some NaN)) None None))
       = Ok config
       ∧ rc_pollIntervalMs config = Some NaN).
Proof.
  split.
  - exact (proj1 (resolveConfig_rejects
                    (Some (mkPartial (Some (Some [])) None None None None
                                     (Some (Some (of_int 10))) None None)))).
  - exists (merge_config
              (Some (mkPartial None None None None None (Some (Some NaN)) None None))).
    split; [|reflexivity].
    exact (proj1 (resolveConfig_rejects
                    (Some (mkPartial None None None None None (Some (Some NaN))
                                     None None)))).
Defined.

(** ** The call log of a poll cycle *)

Section PollLog.

Variable P : Platform.

Local Abbreviation state := (ResponseWatcher * World P)%type.

Lemma marked_app cs1 cs2 : marked (cs1 ++ cs2) = marked cs1 ++ marked cs2.
Proof. apply omap_app. Qed.

Lemma list_calls_app cs1 cs2 :
  list_calls (cs1 ++ cs2) = (list_calls cs1 + list_calls cs2)%nat.
Proof. unfold list_calls. rewrite List.filter_app, length_app. reflexivity. Qed.

(** The shape of what the loop of [poll] adds to the log. With no match:
    fetches only, and every listed id is processed afterwards. With a match:
    the read-mark of the matched message on top of its fetch, on top of
    fetches of messages listed before it. *)
Lemma poll_messages_log messages : ∀ (t : ResponseWatcher) (w : World P) r s',
  poll_messages P messages (t, w) = (r, s') →
  ∃ new,
    calls P (snd s') = new ++ calls P w
    ∧ match r with
      | Ok (Some response) =>
          ∃ before msg after id email w0 w1 older,
            messages = before ++ msg :: after
            ∧ ref_id msg = Some id
            ∧ (id ∉ processedMessageIds t)
            ∧ new = CallModify id [lit "UNREAD"] :: CallGet id :: older
            ∧ marked older = [] ∧ list_calls older = O
            ∧ fetched older ⊆ ref_ids before
            ∧ fetchAndParseMessage P id w0 = (Ok (Some email), w1)
            ∧ includes (subject email) (requestId t) = true
            ∧ extractApiResponse (body email) (requestId t) id = Ok (Some response)
      | _ =>
          marked new = [] ∧ list_calls new = O
          ∧ fetched new ⊆ ref_ids messages
          ∧ ∀ id, id ∈ ref_ids messages → id ≠ [] →
                  id ∈ processedMessageIds (fst s')
      end.
Proof.
  induction messages as [|msg rest IH]; intros t w r s' Hrun.
  - cbn in Hrun. unfold ret in Hrun. injection Hrun as <- <-.
    exists []. split; [reflexivity|]. repeat split; try reflexivity.
    intros id Hid. cbn in Hid. apply elem_of_nil in Hid. destruct Hid.
  - (* the rest of the list, run from a state [(t1, w1)] reached by [mid] *)
    assert (Hrest : ∀ t1 w1 mid,
              requestId t1 = requestId t →
              processedMessageIds t ⊆ processedMessageIds t1 →
              calls P w1 = mid ++ calls P w →
              marked mid = [] → list_calls mid = O →
              fetched mid ⊆ ref_ids [msg] →
              (∀ id, ref_id msg = Some id → id ≠ [] → id ∈ processedMessageIds t1) →
              poll_messages P rest (t1, w1) = (r, s') →
              ∃ new,
                calls P (snd s') = new ++ calls P w
                ∧ match r with
                  | Ok (Some response) =>
                      ∃ before msg0 after id email w0 w1 older,
                        msg :: rest = before ++ msg0 :: after
                        ∧ ref_id msg0 = Some id
                        ∧ (id ∉ processedMessageIds t)
                        ∧ new = CallModify id [lit "UNREAD"] :: CallGet id :: older
                        ∧ marked older = [] ∧ list_calls older = O
                        ∧ fetched older ⊆ ref_ids before
                        ∧ fetchAndParseMessage P id w0 = (Ok (Some email), w1)
                        ∧ includes (subject email) (requestId t) = true
                        ∧ extractApiResponse (body email) (requestId t) id
                          = Ok (Some response)
                  | _ =>
                      marked new = [] ∧ list_calls new = O
                      ∧ fetched new ⊆ ref_ids (msg :: rest)
                      ∧ ∀ id, id ∈ ref_ids (msg :: rest) → id ≠ [] →
                              id ∈ processedMessageIds (fst s')
                  end).
    { intros t1 w1 mid Hrid Hsub Hcalls Hmk Hlc Hft Hhead Hrun1.
      destruct (IH t1 w1 r s' Hrun1) as (new & Hnew & Hshape).
      pose proof (poll_messages_rule P (effect P) (effect_refl P) (effect_trans P)
                    (λ id t w H, effect_fetch P id t w _ _ H (surjective_pairing _))
                    (effect_mark P) _ _ _ _ Hrun1) as [(_ & Hgrow & _) _].
      cbn [fst] in Hgrow.
      assert (Hids : ref_ids (msg :: rest) = ref_ids [msg] ++ ref_ids rest)
        by (unfold ref_ids; apply (omap_app _ [msg] rest)).
      assert (Hnone : (marked new = [] ∧ list_calls new = O
                       ∧ fetched new ⊆ ref_ids rest
                       ∧ ∀ id, id ∈ ref_ids rest → id ≠ [] →
                               id ∈ processedMessageIds (fst s')) →
                      marked (new ++ mid) = [] ∧ list_calls (new ++ mid) = O
                      ∧ fetched (new ++ mid) ⊆ ref_ids (msg :: rest)
                      ∧ (∀ id, id ∈ ref_ids (msg :: rest) → id ≠ [] →
                               id ∈ processedMessageIds (fst s'))).
      { intros (Hm & Hl & Hf & Hp).
        rewrite marked_app, list_calls_app, fetched_app, Hm, Hl, Hmk, Hlc, Hids.
        split; [reflexivity|]. split; [reflexivity|]. split.
        - intros x Hx. apply elem_of_app in Hx as [Hx|Hx]; apply elem_of_app;
            [right; apply Hf, Hx|left; apply Hft, Hx].
        - intros id Hid Hne. apply elem_of_app in Hid as [Hid|Hid].
          + apply Hgrow, Hhead; [|exact Hne].
            unfold ref_ids in Hid. cbn in Hid.
            destruct (ref_id msg) as [x|]; cbn in Hid;
              [apply list_elem_of_singleton in Hid; congruence|
               apply elem_of_nil in Hid; destruct Hid].
          + apply Hp; assumption. }
      exists (new ++ mid). split; [rewrite Hnew, Hcalls; apply app_assoc|].
      destruct r as [[response|]|e]; [|apply Hnone, Hshape|apply Hnone, Hshape].
      destruct Hshape as (before & msg0 & after & id & email & w0 & w1' & older
                          & -> & Hmsg0 & Hnew_id & -> & Hmo & Hlo & Hfo & Hfetch & Hinc & Hdec).
      exists (msg :: before), msg0, after, id, email, w0, w1', (older ++ mid).
      split; [reflexivity|]. split; [exact Hmsg0|].
      split; [intros Hin; apply Hnew_id, Hsub, Hin|].
      split; [reflexivity|].
      rewrite marked_app, list_calls_app, fetched_app, Hmo, Hlo, Hmk, Hlc.
      split; [reflexivity|]. split; [reflexivity|]. split.
      - assert (ref_ids (msg :: before) = ref_ids [msg] ++ ref_ids before) as ->
          by (unfold ref_ids; apply (omap_app _ [msg] before)).
        intros x Hx. apply elem_of_app in Hx as [Hx|Hx]; apply elem_of_app;
          [right; apply Hfo, Hx|left; apply Hft, Hx].
      - rewrite <- Hrid. auto. }
    rewrite poll_messages_cons in Hrun.
    destruct (ref_id msg) as [id|] eqn:Hmsg.
    2: { apply (Hrest t w []); try reflexivity; try discriminate.
         - intros x Hx. apply elem_of_nil in Hx. destruct Hx.
         - exact Hrun. }
    destruct (nonempty id) eqn:Hne; cbn [negb] in Hrun.
    2: { apply (Hrest t w []); try reflexivity.
         - intros x Hx. apply elem_of_nil in Hx. destruct Hx.
         - intros x Hx Hnx. injection Hx as <-. destruct id; [congruence|discriminate].
         - exact Hrun. }
    destruct (bool_decide (id ∈ processedMessageIds t)) eqn:Hseen.
    { apply bool_decide_eq_true in Hseen.
      apply (Hrest t w []); try reflexivity.
      - intros x Hx. apply elem_of_nil in Hx. destruct Hx.
      - intros x Hx _. injection Hx as <-. exact Hseen.
      - exact Hrun. }
    apply bool_decide_eq_false in Hseen. cbn zeta in Hrun.
    destruct (fetchAndParseMessage_run P id w) as [o Hfetch].
    rewrite Hfetch in Hrun.
    set (t1 := with_processed t ({[ id ]} ∪ processedMessageIds t)) in *.
    set (w1 := mkWorld P (snd (messages_get P id (env P w))) (CallGet id :: calls P w)) in *.
    assert (Hcont : poll_messages P rest (t1, w1) = (r, s') → _)
      by (apply (Hrest t1 w1 [CallGet id]); try reflexivity;
          [apply union_subseteq_r
          |intros x Hx; cbn in Hx; apply list_elem_of_singleton in Hx; subst x;
           unfold ref_ids; cbn; rewrite Hmsg; apply elem_of_cons; left; reflexivity
          |intros x Hx _; injection Hx as <-;
           apply elem_of_union; left; apply elem_of_singleton; reflexivity]).
    destruct o as [email|]; [|apply Hcont, Hrun].
    destruct (negb (includes (subject email) (requestId t))) eqn:Hsub;
      [apply Hcont, Hrun|].
    apply negb_false_iff in Hsub.
    destruct (extractApiResponse (body email) (requestId t) id)
      as [[response|]|e] eqn:Hdecode.
    + injection Hrun as <- <-. rewrite markAsRead_run. cbn [snd calls].
      exists [CallModify id [lit "UNREAD"]; CallGet id]. split; [reflexivity|].
      exists [], msg, rest, id, email, w, w1, [].
      repeat split; try reflexivity; try assumption.
    + apply Hcont, Hrun.
    + destruct (extractApiResponse_returns (body email) (requestId t) id)
        as [x Hx]. congruence.
Qed.

(** A poll cycle: one list call, then the loop over what it returned. *)
Lemma poll_log (s : state) r s' :
  poll P s = (r, s') →
  ∃ inner,
    calls P (snd s') = inner ++ CallList (poll_query P (fst s)) 35 :: calls P (snd s)
    ∧ match r with
      | Ok (Some response) =>
          ∃ before msg after id email w0 w1 older,
            listed P s = before ++ msg :: after
            ∧ ref_id msg = Some id
            ∧ (id ∉ processedMessageIds (fst s))
            ∧ inner = CallModify id [lit "UNREAD"] :: CallGet id :: older
            ∧ marked older = [] ∧ list_calls older = O
            ∧ fetched older ⊆ ref_ids before
            ∧ fetchAndParseMessage P id w0 = (Ok (Some email), w1)
            ∧ includes (subject email) (requestId (fst s)) = true
            ∧ extractApiResponse (body email) (requestId (fst s)) id
              = Ok (Some response)
      | Ok None =>
          marked inner = [] ∧ list_calls inner = O
          ∧ fetched inner ⊆ ref_ids (listed P s)
          ∧ ∀ id, id ∈ ref_ids (listed P s) → id ≠ [] →
                  id ∈ processedMessageIds (fst s')
      | Raise e =>
          inner = []
          ∧ fst (messages_list P (poll_query P (fst s)) 35 (env P (snd s))) = Raise e
      end.
Proof.
  destruct s as [t w]. rewrite poll_run. unfold listed. cbn [fst snd]. cbn zeta.
  assert (Hnil : ∀ l : list jsstring, ([] : list jsstring) ⊆ l)
    by (intros l x Hx; apply elem_of_nil in Hx; destruct Hx).
  assert (Hno : ∀ (Q : jsstring → Prop) id, id ∈ ref_ids [] → Q id)
    by (intros Q id Hx; apply elem_of_nil in Hx; destruct Hx).
  destruct (fst (messages_list P (poll_query P t) 35 (env P w)))
    as [[[|m ms]|]|e] eqn:Hlist; intros Hrun.
  - injection Hrun as <- <-. exists []. split; [reflexivity|].
    split; [reflexivity|]. split; [reflexivity|]. split; [apply Hnil|].
    intros id Hid. exact (Hno (λ id, id ≠ [] → _) id Hid).
  - destruct (poll_messages_log (m :: ms) _ _ _ _ Hrun) as (new & Hnew & Hshape).
    exists new. split; [exact Hnew|].
    destruct r as [[response|]|e]; [exact Hshape|exact Hshape|].
    exfalso.
    apply (poll_messages_rule P (λ _ _, True) (λ _, I) (λ _ _ _ _ _, I)
             (λ _ _ _ _, I) (λ _ _ _ _, I) _ _ _ _ Hrun).
  - injection Hrun as <- <-. exists []. split; [reflexivity|].
    split; [reflexivity|]. split; [reflexivity|]. split; [apply Hnil|].
    intros id Hid. exact (Hno (λ id, id ≠ [] → _) id Hid).
  - injection Hrun as <- <-. exists []. split; [reflexivity|]. split; reflexivity.
Qed.

End PollLog.

Lemma marked_match id ls older :
  marked (CallModify id ls :: CallGet id :: older) = id :: marked older.
Proof. reflexivity. Qed.

Lemma fetched_match id ls older :
  fetched (CallModify id ls :: CallGet id :: older) = id :: fetched older.
Proof. reflexivity. Qed.

(** X3: a poll cycle marks as read the message it matched and nothing else;
    a cycle that ends without a response -- no match, or a list call that
    failed -- marks nothing, so every candidate it passed over stays unread. *)
Theorem poll_marks_only_the_match :
  ∀ (P : Platform) (s s' : ResponseWatcher * World P) r,
    poll P s = (r, s') →
    ∃ new,
      calls P (snd s') = new ++ calls P (snd s)
      ∧ match r with
        | Ok (Some response) =>
            ∃ id email w0 w1,
              marked new = [id]
              ∧ fetchAndParseMessage P id w0 = (Ok (Some email), w1)
              ∧ extractApiResponse (body email) (requestId (fst s)) id
                = Ok (Some response)
        | _ => marked new = []
        end.
Proof.
  intros P s s' r Hrun. destruct (poll_log P s r s' Hrun) as (inner & Hcalls & Hshape).
  exists (inner ++ [CallList (poll_query P (fst s)) 35]).
  split; [rewrite Hcalls, <- app_assoc; reflexivity|].
  rewrite marked_app. change (marked [CallList (poll_query P (fst s)) 35]) with (@nil jsstring).
  rewrite app_nil_r.
  destruct r as [[response|]|e].
  - destruct Hshape as (before & msg & after & id & email & w0 & w1 & older
                        & _ & _ & _ & -> & Hm & _ & _ & Hf & _ & Hd).
    exists id, email, w0, w1. rewrite marked_match, Hm. auto.
  - apply Hshape.
  - destruct Hshape as [-> _]. reflexivity.
Qed.

(** Two unread replies, the first for another request: only the second is
    marked read. *)
Lemma poll_marks_only_the_match_witness :
  let s := (Scenario.watcher (lit "abc-123") 3000 180000,
            Fake.world Scenario.t0
              [Fake.reply (lit "m0") Scenario.responder
                 (lit "Re: " ++ request_subject GET list_ (lit "xyz-999"))
                 (dq "{'status':'success','events':[1]}");
               Scenario.reply_abc_123] 0) in
  marked (calls _ (snd (snd (poll Fake.platform s)))) = [lit "m1"]
  ∧ fetched (calls _ (snd (snd (poll Fake.platform s)))) = [lit "m1"; lit "m0"]
  ∧ ∃ new,
      calls _ (snd (snd (poll Fake.platform s))) = new ++ []
      ∧ ∃ id email w0 w1,
          marked new = [id]
          ∧ fetchAndParseMessage Fake.platform id w0 = (Ok (Some email), w1)
          ∧ extractApiResponse (body email) (lit "abc-123") id
            = Ok (Some [(lit "requestId", JString (lit "abc-123"));
                        (lit "messageId", JString (lit "m1"));
                        (lit "status", JString (lit "success"));
                        (lit "events", JArray [])]).
Proof.
  intros s. split; [vm_compute; reflexivity|]. split; [vm_compute; reflexivity|].
  apply (poll_marks_only_the_match Fake.platform s (snd (poll Fake.platform s))
           (Ok (Some [(lit "requestId", JString (lit "abc-123"));
                      (lit "messageId", JString (lit "m1"));
                      (lit "status", JString (lit "success"));
                      (lit "events", JArray [])]))).
  apply pair_of_fst. vm_compute. reflexivity.
Defined.

(** X4: the first listed candidate that matches and decodes wins: the
    response comes from a message [msg] of the listing, and apart from [msg]
    only messages listed before it were fetched -- a candidate listed after
    the match is not touched. *)
Theorem poll_first_match_wins :
  ∀ (P : Platform) (s s' : ResponseWatcher * World P) (response : ApiResponse),
    poll P s = (Ok (Some response), s') →
    ∃ before msg after id email w0 w1 new,
      listed P s = before ++ msg :: after
      ∧ ref_id msg = Some id
      ∧ fetchAndParseMessage P id w0 = (Ok (Some email), w1)
      ∧ extractApiResponse (body email) (requestId (fst s)) id = Ok (Some response)
      ∧ calls P (snd s') = new ++ calls P (snd s)
      ∧ fetched new ⊆ id :: ref_ids before
      ∧ marked new = [id].
Proof.
  intros P s s' response Hrun.
  destruct (poll_log P s _ s' Hrun)
    as (inner & Hcalls & before & msg & after & id & email & w0 & w1 & older
        & Hl & Hmsg & _ & -> & Hm & _ & Hfo & Hf & _ & Hd).
  exists before, msg, after, id, email, w0, w1,
    ((CallModify id [lit "UNREAD"] :: CallGet id :: older)
       ++ [CallList (poll_query P (fst s)) 35]).
  repeat (split; [assumption|]).
  split; [rewrite Hcalls, <- app_assoc; reflexivity|].
  rewrite fetched_app, marked_app, marked_match, fetched_match, Hm.
  change (marked [CallList (poll_query P (fst s)) 35]) with (@nil jsstring).
  change (fetched [CallList (poll_query P (fst s)) 35]) with (@nil jsstring).
  rewrite !app_nil_r.
  split; [|reflexivity].
  intros x Hx. apply elem_of_cons in Hx as [->|Hx]; apply elem_of_cons;
    [left; reflexivity|right; apply Hfo, Hx].
Qed.

(** Two replies to the same request: the one listed first is returned, the
    other is neither fetched nor marked. *)
Lemma poll_first_match_wins_witness :
  let s := (Scenario.watcher (lit "abc-123") 3000 180000,
            Fake.world Scenario.t0
              [Scenario.reply_abc_123;
               Fake.reply (lit "m2") Scenario.responder
                 (lit "Re: " ++ request_subject GET list_ (lit "abc-123"))
                 (dq "{'status':'error'}")] 0) in
  fetched (calls _ (snd (snd (poll Fake.platform s)))) = [lit "m1"]
  ∧ ∃ before msg after id email w0 w1 new,
      listed Fake.platform s = before ++ msg :: after
      ∧ ref_id msg = Some id
      ∧ fetchAndParseMessage Fake.platform id w0 = (Ok (Some email), w1)
      ∧ extractApiResponse (body email) (lit "abc-123") id
        = Ok (Some [(lit "requestId", JString (lit "abc-123"));
                    (lit "messageId", JString (lit "m1"));
                    (lit "status", JString (lit "success"));
                    (lit "events", JArray [])])
      ∧ calls _ (snd (snd (poll Fake.platform s))) = new ++ []
      ∧ fetched new ⊆ id :: ref_ids before
      ∧ marked new = [id].
Proof.
  intros s. split; [vm_compute; reflexivity|].
  apply (poll_first_match_wins Fake.platform s (snd (poll Fake.platform s))).
  apply pair_of_fst. vm_compute. reflexivity.
Defined.

(** X5: a candidate listed in a cycle that ends without a match is in the
    processed set afterwards -- whether it was passed over for its subject,
    for its body, or because its fetch failed -- and the next cycle does not
    fetch it: a reply whose fetch failed once is not tried again. *)
Theorem unmatched_candidates_are_not_retried :
  ∀ (P : Platform) (s s1 : ResponseWatcher * World P) (id : jsstring),
    poll P s = (Ok None, s1) →
    id ∈ ref_ids (listed P s) → id ≠ [] →
    id ∈ processedMessageIds (fst s1)
    ∧ ∀ r2 s2, poll P s1 = (r2, s2) →
        ∃ new, calls P (snd s2) = new ++ calls P (snd s1) ∧ id ∉ fetched new.
Proof.
  intros P s s1 id Hrun Hid Hne.
  destruct (poll_log P s _ s1 Hrun) as (inner & _ & _ & _ & _ & Hseen).
  specialize (Hseen id Hid Hne). split; [exact Hseen|].
  intros r2 s2 Hrun2.
  destruct (effect_no_refetch P s1 s2 (proj1 (poll_effect P _ _ _ Hrun2)))
    as (_ & new & Hcalls & _ & Hfresh).
  exists new. split; [exact Hcalls|apply Hfresh, Hseen].
Qed.

(** A reply with the right tag and a garbled body: passed over, processed,
    and not fetched by the next cycle. *)
Lemma unmatched_candidates_are_not_retried_witness :
  let s := (Scenario.watcher (lit "abc-123") 2000 5000,
            Fake.world Scenario.t0
              [Fake.reply (lit "m1") Scenario.responder
                 (lit "Re: " ++ request_subject GET list_ (lit "abc-123"))
                 (lit "{garbled")] 0) in
  let s1 := snd (poll Fake.platform s) in
  lit "m1" ∈ processedMessageIds (fst s1)
  ∧ ∀ r2 s2, poll Fake.platform s1 = (r2, s2) →
      ∃ new, calls _ (snd s2) = new ++ calls _ (snd s1) ∧ lit "m1" ∉ fetched new.
Proof.
  intros s s1.
  apply (unmatched_candidates_are_not_retried Fake.platform s s1 (lit "m1")).
  - apply pair_of_fst. vm_compute. reflexivity.
  - replace (ref_ids (listed Fake.platform s)) with [lit "m1"]
      by (vm_compute; reflexivity).
    apply elem_of_cons. left. reflexivity.
  - discriminate.
Defined.

(** ** The call log of a wait *)

Section WaitLog.

Variable P : Platform.

Local Abbreviation state := (ResponseWatcher * World P)%type.

(** A wait of at most [fuel] polls: at most [fuel] list calls, and one
    read-mark exactly when it resolves. *)
Lemma check_log fuel : ∀ (s : state) r s',
  check P fuel s = Some (r, s') →
  ∃ new,
    calls P (snd s') = new ++ calls P (snd s)
    ∧ (list_calls new ≤ fuel)%nat
    ∧ match r with
      | Ok response => ∃ id, marked new = [id]
      | Raise _ => marked new = []
      end.
Proof.
  induction fuel as [|fuel IH]; intros s r s'; rewrite check_unfold.
  - destruct (timed_out P _ _); [|discriminate]. intros Heq. injection Heq as <- <-.
    exists []. repeat split. reflexivity.
  - destruct (timed_out P _ _).
    { intros Heq. injection Heq as <- <-. exists []. repeat split. cbn. lia. }
    destruct (poll P s) as [o s1] eqn:Hpoll.
    destruct (poll_log P s o s1 Hpoll) as (inner & Hcalls & Hshape).
    assert (Hnext : list_calls inner = O → marked inner = [] →
              check P fuel (fst s1, sleep P (pollIntervalMs (fst s1)) (snd s1))
              = Some (r, s') →
              ∃ new,
                calls P (snd s') = new ++ calls P (snd s)
                ∧ (list_calls new ≤ S fuel)%nat
                ∧ match r with
                  | Ok response => ∃ id, marked new = [id]
                  | Raise _ => marked new = []
                  end).
    { intros Hl Hm Hc. destruct (IH _ _ _ Hc) as (new & Hnew & Hcount & Hmark).
      cbn [fst snd sleep calls] in Hnew.
      exists (new ++ inner ++ [CallList (poll_query P (fst s)) 35]).
      split; [rewrite Hnew, Hcalls, <- !app_assoc; reflexivity|].
      rewrite !list_calls_app, !marked_app, Hl, Hm.
      change (list_calls [CallList (poll_query P (fst s)) 35]) with 1%nat.
      change (marked [CallList (poll_query P (fst s)) 35]) with (@nil jsstring).
      rewrite !app_nil_r. split; [lia|exact Hmark]. }
    destruct o as [[response|]|e].
    + intros Heq. injection Heq as <- <-.
      destruct Hshape as (before & msg & after & id & email & w0 & w1 & older
                          & _ & _ & _ & -> & Hm & Hl & _).
      exists ((CallModify id [lit "UNREAD"] :: CallGet id :: older)
                ++ [CallList (poll_query P (fst s)) 35]).
      split; [rewrite Hcalls, <- app_assoc; reflexivity|].
      rewrite list_calls_app, marked_app, marked_match, Hm.
      change (list_calls (CallModify id [lit "UNREAD"] :: CallGet id :: older))
        with (list_calls older). rewrite Hl.
      split; [cbn; lia|]. exists id. reflexivity.
    + destruct Hshape as (Hm & Hl & _). apply Hnext; assumption.
    + destruct Hshape as [-> _]. apply Hnext; reflexivity.
Qed.

End WaitLog.

(** X6: a wait polls a bounded number of times. With a sound clock, a
    finite timeout and a positive (finite) poll interval, however a wait
    that starts with [left] milliseconds to its deadline ends, it has made
    at most [left / pollIntervalMs + 1] list calls, in whole milliseconds. *)
Theorem waitForResponse_polls_are_bounded :
  ∀ (P : Platform) (s s' : ResponseWatcher * World P) (fuel : nat) r,
    ClockSound P →
    finite (timeoutMs (fst s)) → finite (pollIntervalMs (fst s)) →
    0 < whole (pollIntervalMs (fst s)) →
    waitForResponse P fuel s = Some (r, s') →
    ∃ new,
      calls P (snd s') = new ++ calls P (snd s)
      ∧ (list_calls new
         ≤ S (Z.to_nat ((whole (timeoutMs (fst s))
                           - (now P (snd s) - startTime (fst s)))
                        / whole (pollIntervalMs (fst s)))))%nat.
Proof.
  intros P s s' fuel r HC Ht Hi Hpos Hrun.
  set (n := S (Z.to_nat ((whole (timeoutMs (fst s))
                            - (now P (snd s) - startTime (fst s)))
                         / whole (pollIntervalMs (fst s))))).
  destruct (check_terminates P HC n s Ht Hi Hpos (enough_polls _ _ Hpos)) as [x Hx].
  destruct (Nat.le_ge_cases fuel n) as [Hle|Hge].
  - destruct (check_log P fuel s r s' Hrun) as (new & Hnew & Hcount & _).
    exists new. split; [exact Hnew|lia].
  - pose proof (check_fuel_le P n fuel s x Hge Hx) as Hx'.
    unfold waitForResponse in Hrun. rewrite Hrun in Hx'. injection Hx' as <-.
    destruct (check_log P n s r s' Hx) as (new & Hnew & Hcount & _).
    exists new. split; [exact Hnew|exact Hcount].
Qed.

(** A timeout of five seconds polled every two: three list calls. *)
Lemma waitForResponse_polls_are_bounded_witness :
  let s := (Scenario.watcher (lit "abc-123") 2000 5000, Fake.world Scenario.t0 [] 0) in
  option_map (λ x, list_calls (calls _ (snd (snd x))))
             (waitForResponse Fake.platform 10 s) = Some 3%nat
  ∧ ∃ r s', waitForResponse Fake.platform 10 s = Some (r, s')
      ∧ ∃ new, calls _ (snd s') = new ++ [] ∧ (list_calls new ≤ 3)%nat.
Proof.
  intros s. split; [vm_compute; reflexivity|].
  destruct (settled_with (waitForResponse Fake.platform 10 s)
              (Raise (timeout_error Fake.platform (fst s)))) as [s' Hrun];
    [vm_compute; reflexivity|].
  eexists _, s'. split; [exact Hrun|].
  apply (waitForResponse_polls_are_bounded Fake.platform s s' 10 _
           fake_clock_sound I I eq_refl Hrun).
Defined.

(** X7: a wait that is rejected has marked nothing as read, and a wait that
    resolves has marked exactly one message. *)
Theorem waitForResponse_marks_one_on_success :
  ∀ (P : Platform) (s s' : ResponseWatcher * World P) (fuel : nat) r,
    waitForResponse P fuel s = Some (r, s') →
    ∃ new,
      calls P (snd s') = new ++ calls P (snd s)
      ∧ match r with
        | Ok response => ∃ id, marked new = [id]
        | Raise _ => marked new = []
        end.
Proof.
  intros P s s' fuel r Hrun.
  destruct (check_log P fuel s r s' Hrun) as (new & Hnew & _ & Hmark). eauto.
Qed.

(** A garbled reply under the right tag: the wait times out after fetching
    it once, and leaves it unread. *)
Lemma waitForResponse_marks_one_on_success_witness :
  let s := (Scenario.watcher (lit "abc-123") 2000 5000,
            Fake.world Scenario.t0
              [Fake.reply (lit "m1") Scenario.responder
                 (lit "Re: " ++ request_subject GET list_ (lit "abc-123"))
                 (lit "{garbled")] 0) in
  ∃ s', waitForResponse Fake.platform 3 s
        = Some (Raise (timeout_error Fake.platform (fst s)), s')
        ∧ ∃ new, calls _ (snd s') = new ++ [] ∧ marked new = [].
Proof.
  intros s.
  destruct (settled_with (waitForResponse Fake.platform 3 s)
              (Raise (timeout_error Fake.platform (fst s)))) as [s' Hrun];
    [vm_compute; reflexivity|].
  exists s'. split; [exact Hrun|].
  apply (waitForResponse_marks_one_on_success Fake.platform s s' 3 _ Hrun).
Defined.


(** ** The sender *)

(** X8: the tag of a request contains the id minted for it, and so does
    any subject that quotes the tag (a [Re: ] before it, anything after
    it): such a reply passes the subject test of the watcher that waits for
    this id. *)
Theorem request_subject_carries_id :
  ∀ (method : ApiMethod) (action : ApiAction) (requestId pre post : jsstring),
    includes (pre ++ request_subject method action requestId ++ post) requestId
    = true.
Proof.
  intros method action rid pre post. unfold request_subject.
  replace (pre ++ (lit "#calendarapi " ++ ApiMethod_text method ++ lit " "
                     ++ ApiAction_text action ++ lit " [" ++ rid ++ lit "]") ++ post)
    with ((pre ++ lit "#calendarapi " ++ ApiMethod_text method ++ lit " "
             ++ ApiAction_text action ++ lit " [") ++ rid ++ (lit "]" ++ post))
    by (rewrite <- !app_assoc; reflexivity).
  apply includes_app.
Qed.

Lemma replace_unit_Forall (Q : code_unit → Prop) c r s :
  Forall Q r → Forall Q s → Forall Q (replace_unit c r s).
Proof.
  intros Hr. induction 1 as [|a s Ha Hs IH]; cbn.
  - apply Forall_nil_2.
  - apply Forall_app. split; [|exact IH].
    destruct (unit_eqb a c); [exact Hr|]. apply Forall_cons; split; [exact Ha|apply Forall_nil_2].
Qed.

Lemma replace_unit_removes c r s :
  Forall (λ u, u ≠ c) r → Forall (λ u, u ≠ c) (replace_unit c r s).
Proof.
  intros Hr. induction s as [|a s IH]; cbn.
  - apply Forall_nil_2.
  - apply Forall_app. split; [|exact IH]. unfold unit_eqb.
    destruct (N.eqb_spec a c); [exact Hr|].
    apply Forall_cons; split; [assumption|apply Forall_nil_2].
Qed.

Lemma strip_trailing_Forall (Q : code_unit → Prop) c s :
  Forall Q s → Forall Q (strip_trailing c s).
Proof.
  induction 1 as [|a s Ha Hs IH]; cbn; [apply Forall_nil_2|].
  destruct (strip_trailing c s) as [|x t].
  - destruct (unit_eqb a c); [apply Forall_nil_2|].
    apply Forall_cons; split; [exact Ha|apply Forall_nil_2].
  - apply Forall_cons; split; [exact Ha|exact IH].
Qed.

Lemma strip_trailing_no_trailing c s t : strip_trailing c s ≠ t ++ [c].
Proof.
  revert t. induction s as [|a s IH]; intros t; cbn.
  - destruct t; discriminate.
  - destruct (strip_trailing c s) as [|x u] eqn:E.
    + unfold unit_eqb. destruct (N.eqb_spec a c) as [->|Hne].
      * destruct t; discriminate.
      * destruct t as [|y [|z t]]; cbn; try discriminate. congruence.
    + destruct t as [|y t]; cbn; [discriminate|].
      intros Heq. injection Heq as _ Heq. apply (IH t Heq).
Qed.

(** What [strip_trailing] drops is a run of the unit. *)
Lemma strip_trailing_prefix c s :
  ∃ k, s = strip_trailing c s ++ List.repeat c k.
Proof.
  induction s as [|a s [k IH]]; cbn.
  - exists O. reflexivity.
  - destruct (strip_trailing c s) as [|x u] eqn:E.
    + unfold unit_eqb. destruct (N.eqb_spec a c) as [->|Hne].
      * exists (S k). cbn. cbn in IH. rewrite <- IH. reflexivity.
      * exists k. cbn. cbn in IH. rewrite <- IH. reflexivity.
    + exists k. cbn [app]. cbn [app] in IH. rewrite <- IH. reflexivity.
Qed.

(** X9: whatever base64 text the platform produces, [encodeBase64Url]
    returns a text without [+] and [/] that does not end with [=]: the
    platform's text with [+] turned into [-], [/] into [_], and the final
    run of [=] cut off. *)
Theorem encodeBase64Url_is_url_safe :
  ∀ (P : Platform) (raw : jsstring),
    Forall (λ u, u ≠ 43 ∧ u ≠ 47)%N (encodeBase64Url P raw)
    ∧ (∀ t, encodeBase64Url P raw ≠ t ++ [61%N])
    ∧ ∃ k, replace_unit 47%N (lit "_")
             (replace_unit 43%N (lit "-") (utf8_to_base64 P raw))
           = encodeBase64Url P raw ++ List.repeat 61%N k.
Proof.
  intros P raw. unfold encodeBase64Url. split; [|split].
  - apply strip_trailing_Forall.
    assert (H43 : Forall (λ u, u ≠ 43%N)
                    (replace_unit 47%N (lit "_")
                       (replace_unit 43%N (lit "-") (utf8_to_base64 P raw)))).
    { apply replace_unit_Forall; [repeat constructor; discriminate|].
      apply replace_unit_removes. repeat constructor; discriminate. }
    assert (H47 : Forall (λ u, u ≠ 47%N)
                    (replace_unit 47%N (lit "_")
                       (replace_unit 43%N (lit "-") (utf8_to_base64 P raw)))).
    { apply replace_unit_removes. repeat constructor; discriminate. }
    rewrite Forall_forall in H43, H47. apply Forall_forall.
    intros u Hu. split; [apply H43, Hu|apply H47, Hu].
  - intros t. apply strip_trailing_no_trailing.
  - apply strip_trailing_prefix.
Qed.

(** X10: [sendApiEmail] makes exactly one transport call, the send of the
    encoded message whose subject is tagged with the id it minted and whose
    body is the serialized payload alone. When the send succeeds it returns
    that id with the ids of the sent message. When the send throws, it
    throws a [SEND_FAILED] error that names the id and quotes the message of
    what was thrown -- unless that was [null] or [undefined], whose message
    cannot be read: then the [TypeError] of reading it is thrown. *)
Theorem sendApiEmail_sends_once :
  ∀ (P : Platform) (method : ApiMethod) (action : ApiAction) (payload : json)
    (from to : jsstring) (w : World P),
    let rid := fst (uuidv4 P (env P w)) in
    let raw := encodeBase64Url P
                 (buildRawEmail from to (request_subject method action rid)
                                (JSON_stringify P payload)) in
    let run := sendApiEmail P method action payload from to w in
    calls P (snd run) = CallSend raw :: calls P w
    ∧ match fst (messages_send P raw (snd (uuidv4 P (env P w)))) with
      | Ok result =>
          fst run = Ok (mkSent rid (default [] (sent_id result))
                               (default [] (sent_threadId result)) (now P (snd run)))
      | Raise (ThrownValue text None) =>
          fst run = Raise (OtherError (lit "Cannot read properties of " ++ text
                                         ++ lit " (reading 'message')"))
      | Raise (ThrownValue _ (Some message))
      | Raise (OtherError message)
      | Raise (CalendarApiError message _ _) =>
          fst run = Raise (CalendarApiError (lit "Failed to send email: " ++ message)
                                            (lit "SEND_FAILED") (Some rid))
      end.
Proof.
  intros P method action payload from to w. cbn zeta.
  rewrite sendApiEmail_run. cbn zeta. unfold raw_request.
  destruct (fst (messages_send P _ _)) as [result|[m code r|m|text [m|]]];
    cbn [fst snd calls]; split; reflexivity.
Qed.

Section Requests.

Variable P : Platform.

Lemma polling_only_of_log_ok before after new :
  log_ok before after new → polling_only new.
Proof.
  intros [H _]. eapply Forall_impl; [exact H|]. intros []; cbn; tauto.
Qed.

(** What a wait adds to the log. *)
Lemma wait_log fuel (s : ResponseWatcher * World P) r s' :
  waitForResponse P fuel s = Some (r, s') →
  ∃ polling,
    calls P (snd s') = polling ++ calls P (snd s)
    ∧ polling_only polling
    ∧ match r with
      | Ok _ => ∃ id, marked polling = [id]
      | Raise _ => marked polling = []
      end.
Proof.
  intros Hwait.
  destruct (check_outcome P fuel s r s' Hwait) as [(_ & _ & new & Hcalls & Hlog) _].
  destruct (check_log P fuel s r s' Hwait) as (new' & Hcalls' & _ & Hmark).
  assert (new' = new) as ->
    by (apply (app_inv_tail (calls P (snd s))); rewrite <- Hcalls, <- Hcalls';
        reflexivity).
  exists new. split; [exact Hcalls|]. split; [|exact Hmark].
  eapply polling_only_of_log_ok, Hlog.
Qed.

(** How the request of a public operation can end, with what it has added
    to the log. *)
Lemma sendRequest_cases c fuel call (w : World P) r w' :
  sendRequest P c fuel (method_of call) (action_of call) (payload_of call) w
  = Some (r, w') →
  ((action_of call ∉ supportedActions c) ∧ r = Ok skipped_response ∧ w' = w)
  ∨ (action_of call ∈ supportedActions c
     ∧ (connected c = false ∨ gmail c = false)
     ∧ r = Raise (CalendarApiError
                    (lit "Client is not connected. Call connect() first.")
                    ErrorCodes.NOT_CONNECTED None)
     ∧ w' = w)
  ∨ (action_of call ∈ supportedActions c ∧ connected c = true ∧ gmail c = true
     ∧ ((∃ error,
           fst (send_result P c call w) = Raise error
           ∧ r = Raise (send_failure (minted P w) error)
           ∧ w' = after_send P c call w)
        ∨ (∃ result polling s3,
             fst (send_result P c call w) = Ok result
             ∧ waitForResponse P fuel (watcher_of P c call w, after_send P c call w)
               = Some (r, s3)
             ∧ polling_only polling
             ∧ calls P (snd s3) = polling ++ CallSend (sent_raw P c call w) :: calls P w
             ∧ match r with
               | Raise e =>
                   e = timeout_error P (watcher_of P c call w)
                   ∧ marked polling = [] ∧ w' = snd s3
               | Ok response =>
                   (∃ id, marked polling = [id])
                   ∧ (∃ messages, built_from P (minted P w) messages response)
                   ∧ w' = mkWorld P (env P (snd s3))
                            (CallBatchModify
                               (messagesToDelete (default [] (sent_id result)) response)
                               [lit "TRASH"] :: calls P (snd s3))
               end))).
Proof.
  destruct (decide (action_of call ∈ supportedActions c)) as [Hsup|Hsup].
  2: { rewrite sendRequest_skips by exact Hsup. intros Heq. injection Heq as <- <-.
       left. auto. }
  destruct (connected c) eqn:Hcon.
  2: { rewrite sendRequest_not_connected by auto. intros Heq. injection Heq as <- <-.
       right. left. auto. }
  destruct (gmail c) eqn:Hg.
  2: { rewrite sendRequest_not_connected by auto. intros Heq. injection Heq as <- <-.
       right. left. auto. }
  rewrite sendRequest_stages by assumption. intros Hrun. right. right.
  repeat (split; [assumption || reflexivity|]).
  destruct (fst (send_result P c call w)) as [result|error] eqn:Hsend.
  2: { injection Hrun as <- <-. left. eauto. }
  right.
  destruct (waitForResponse P fuel _) as [[o s3]|] eqn:Hwait; [|discriminate].
  destruct (wait_log fuel _ _ _ Hwait) as (polling & Hcalls & Hp & Hmark).
  destruct (check_outcome P fuel _ _ _ Hwait) as [_ Hres]. cbn [fst snd] in *.
  exists result, polling, s3.
  destruct o as [response|e]; injection Hrun as <- <-;
    (split; [reflexivity|]); (split; [reflexivity|]); (split; [exact Hp|]);
    (split; [exact Hcalls|]).
  - split; [exact Hmark|]. split; [exact Hres|reflexivity].
  - split; [exact (proj1 Hres)|]. split; [exact Hmark|reflexivity].
Qed.

End Requests.

Lemma polling_only_no_send polling raw : polling_only polling → CallSend raw ∉ polling.
Proof.
  intros H Hin. unfold polling_only in H. rewrite Forall_forall in H.
  apply (H _ Hin).
Qed.

Lemma polling_only_no_batch polling ids ls :
  polling_only polling → CallBatchModify ids ls ∉ polling.
Proof.
  intros H Hin. unfold polling_only in H. rewrite Forall_forall in H.
  apply (H _ Hin).
Qed.

(** X11: a public operation sends at most one message, and sends it before
    it makes any other transport call: either the log is left as it was
    (unsupported action, not connected), or what was added starts with the
    send and has no second one. *)
Theorem public_call_sends_once_and_first :
  ∀ (P : Platform) (c : CalendarEmailClient) (fuel : nat) (call : PublicCall)
    (w w' : World P) r,
    perform P c fuel call w = Some (r, w') →
    calls P w' = calls P w
    ∨ ∃ raw later,
        calls P w' = later ++ CallSend raw :: calls P w
        ∧ ∀ raw', CallSend raw' ∉ later.
Proof.
  intros P c fuel call w w' r. rewrite perform_eq. unfold executeApiCall.
  destruct (sendRequest P c fuel _ _ _ w) as [[o w1]|] eqn:Hsend; [|discriminate].
  intros Hrun.
  assert (w' = w1) as -> by (destruct o; injection Hrun as _ <-; reflexivity).
  destruct (sendRequest_cases P _ _ _ _ _ _ Hsend)
    as [(_ & _ & ->)|[(_ & _ & _ & ->)|(_ & _ & _ & Hcase)]];
    [left; reflexivity|left; reflexivity|right].
  exists (sent_raw P c call w).
  destruct Hcase as [(error & _ & _ & ->)
                    |(result & polling & s3 & _ & _ & Hp & Hc & Hr)].
  - exists []. split; [reflexivity|]. intros raw'. apply not_elem_of_nil.
  - destruct o as [response|e].
    + destruct Hr as (_ & _ & ->). cbn [calls]. rewrite Hc.
      eexists (_ :: polling). split; [reflexivity|].
      intros raw' Hin. apply elem_of_cons in Hin as [Hin|Hin]; [discriminate|].
      apply (polling_only_no_send _ _ Hp Hin).
    + destruct Hr as (_ & _ & ->). rewrite Hc.
      exists polling. split; [reflexivity|]. intros raw'.
      apply polling_only_no_send, Hp.
Qed.

(** A matched call on the fake platform: send, list, get, modify, trash. *)
Lemma public_call_sends_once_and_first_witness :
  let w := Fake.world Scenario.t0 [Scenario.reply_pending] 0 in
  let run := listEvents Fake.platform Scenario.connected_client 1
               (lit "2026-02-11T00:00:00Z") (lit "2026-02-12T00:00:00Z") w in
  option_map (λ x, List.length (calls _ (snd x))) run = Some 5%nat
  ∧ ∃ r w', run = Some (r, w')
      ∧ (calls _ w' = calls _ w
         ∨ ∃ raw later, calls _ w' = later ++ CallSend raw :: calls _ w
                        ∧ ∀ raw', CallSend raw' ∉ later).
Proof.
  intros w run. split; [vm_compute; reflexivity|].
  destruct run as [[r w']|] eqn:Hrun; [|exfalso].
  - exists r, w'. split; [reflexivity|].
    apply (public_call_sends_once_and_first Fake.platform Scenario.connected_client 1
             (ListEvents (lit "2026-02-11T00:00:00Z") (lit "2026-02-12T00:00:00Z"))
             w w' r Hrun).
  - assert (option_map (λ _, tt) run = Some tt) as H by (vm_compute; reflexivity).
    subst run. rewrite Hrun in H. discriminate H.
Defined.

(** X12: the sent request and the matched reply are moved to the trash only
    after a match, in one batch call issued last; a request that fails --
    not connected, send failure, timeout -- trashes nothing, so its sent
    message stays. The batch names the sent message, by the id that the send
    returned, and then the response's [messageId], if that is truthy. *)
Theorem cleanup_only_after_match :
  ∀ (P : Platform) (c : CalendarEmailClient) (fuel : nat) (call : PublicCall)
    (w w' : World P) r,
    sendRequest P c fuel (method_of call) (action_of call) (payload_of call) w
    = Some (r, w') →
    ∃ new,
      calls P w' = new ++ calls P w
      ∧ match r with
        | Raise _ => ∀ ids ls, CallBatchModify ids ls ∉ new
        | Ok response =>
            (response = skipped_response ∧ new = [])
            ∨ ∃ result rest,
                fst (send_result P c call w) = Ok result
                ∧ new = CallBatchModify
                          (JString (default [] (sent_id result))
                             :: match obj_get (lit "messageId") response with
                                | Some v => if truthy v then [v] else []
                                | None => []
                                end)
                          [lit "TRASH"] :: rest
                ∧ ∀ ids ls, CallBatchModify ids ls ∉ rest
        end.
Proof.
  intros P c fuel call w w' r Hsend.
  destruct (sendRequest_cases P _ _ _ _ _ _ Hsend)
    as [(_ & -> & ->)|[(_ & _ & -> & ->)|(_ & _ & _ & Hcase)]].
  - exists []. split; [reflexivity|]. left. auto.
  - exists []. split; [reflexivity|]. intros ids ls. apply not_elem_of_nil.
  - destruct Hcase as [(error & _ & -> & ->)
                      |(result & polling & s3 & Hres & _ & Hp & Hc & Hr)].
    + exists [CallSend (sent_raw P c call w)]. split; [reflexivity|].
      intros ids ls Hin. apply list_elem_of_singleton in Hin. discriminate.
    + assert (Hnone : ∀ ids ls,
                CallBatchModify ids ls ∉ polling ++ [CallSend (sent_raw P c call w)]).
      { intros ids ls Hin. apply elem_of_app in Hin as [Hin|Hin].
        - apply (polling_only_no_batch _ _ _ Hp Hin).
        - apply list_elem_of_singleton in Hin. discriminate. }
      destruct r as [response|e].
      * destruct Hr as (_ & _ & ->). cbn [calls]. rewrite Hc.
        eexists (_ :: polling ++ [CallSend (sent_raw P c call w)]).
        split; [cbn [app]; rewrite <- app_assoc; reflexivity|].
        right. exists result, (polling ++ [CallSend (sent_raw P c call w)]).
        split; [exact Hres|]. split; [reflexivity|exact Hnone].
      * destruct Hr as (_ & _ & ->). rewrite Hc.
        exists (polling ++ [CallSend (sent_raw P c call w)]).
        split; [rewrite <- app_assoc; reflexivity|exact Hnone].
Qed.

(** A request that times out on the fake platform: one send, three list
    calls, nothing trashed. *)
Lemma cleanup_only_after_match_witness :
  let c := Scenario.client_with 2000 5000 in
  let w := Fake.world Scenario.t0 [] 0 in
  ∃ w',
    sendRequest Fake.platform c 3 GET list_ (payload_of (ListEvents (lit "2026-02-11") (lit "2026-02-12"))) w
    = Some (Raise (CalendarApiError (lit "Request timed out after 5000ms")
                     (lit "TIMEOUT") (Some Fake.fake_uuid)), w')
    ∧ ∃ new, calls _ w' = new ++ calls _ w
             ∧ ∀ ids ls, CallBatchModify ids ls ∉ new.
Proof.
  intros c w.
  destruct (settled_with (sendRequest Fake.platform c 3 GET list_ (payload_of (ListEvents (lit "2026-02-11") (lit "2026-02-12"))) w)
              (Raise (CalendarApiError (lit "Request timed out after 5000ms")
                        (lit "TIMEOUT") (Some Fake.fake_uuid))))
    as [w' Hrun]; [vm_compute; reflexivity|].
  exists w'. split; [exact Hrun|].
  apply (cleanup_only_after_match Fake.platform c 3 (ListEvents (lit "2026-02-11") (lit "2026-02-12")) w w' _ Hrun).
Defined.

(** X13: what a public operation returns, exactly: the skip notice, or a
    decoded reply, or the response made of a thrown error. In the last case
    the status is [error], the [requestId] is empty even when the error
    names the request, and the code is [NOT_CONNECTED] (the client is not
    connected), [TIMEOUT], [SEND_FAILED] (the send threw something whose
    message can be read) or [UNKNOWN] (the send threw [null] or
    [undefined]). Each carries the duration, which is the time from the
    start of the call to the end of the wait. *)
Theorem public_call_response_shapes :
  ∀ (P : Platform) (c : CalendarEmailClient) (fuel : nat) (call : PublicCall)
    (w w' : World P) r,
    perform P c fuel call w = Some (r, w') →
    ∃ response,
      r = Ok response
      ∧ (response = skipped_response ++ [(lit "durationMs", JNumber 0 0)]
         ∨ (∃ messages decoded,
              built_from P (fst (uuidv4 P (env P w))) messages decoded
              ∧ response = obj_set (lit "durationMs")
                             (JNumber (now P w' - now P w) 0) decoded)
         ∨ ∃ message code,
             response = error_response message code (now P w' - now P w)
             ∧ ((code = lit "NOT_CONNECTED"
                 ∧ (connected c = false ∨ gmail c = false))
                ∨ (code = lit "TIMEOUT"
                   ∧ message = lit "Request timed out after "
                                 ++ number_text P (watch_timeout c) ++ lit "ms")
                ∨ (code = lit "SEND_FAILED"
                   ∧ ∃ error cause,
                       fst (send_result P c call w) = Raise error
                       ∧ read_message error = Ok cause
                       ∧ message = lit "Failed to send email: " ++ cause)
                ∨ (code = lit "UNKNOWN"
                   ∧ ∃ text,
                       fst (send_result P c call w) = Raise (ThrownValue text None)
                       ∧ message = lit "Cannot read properties of " ++ text
                                     ++ lit " (reading 'message')"))).
Proof.
  intros P c fuel call w w' r. rewrite perform_eq. unfold executeApiCall.
  destruct (sendRequest P c fuel _ _ _ w) as [[o w1]|] eqn:Hsend; [|discriminate].
  intros Hrun.
  assert (w' = w1) as -> by (destruct o; injection Hrun as _ <-; reflexivity).
  destruct (sendRequest_cases P _ _ _ _ _ _ Hsend)
    as [(_ & -> & ->)|[(_ & Hoff & -> & ->)|(_ & _ & _ & Hcase)]].
  - injection Hrun as <-. eexists. split; [reflexivity|]. left.
    rewrite Z.sub_diag. reflexivity.
  - injection Hrun as <-. eexists. split; [reflexivity|]. right. right.
    eexists _, _. split; [reflexivity|]. left. split; [reflexivity|exact Hoff].
  - destruct Hcase as [(error & Hres & -> & ->)
                      |(result & polling & s3 & _ & _ & _ & _ & Hr)].
    + injection Hrun as <-. eexists. split; [reflexivity|]. right. right.
      unfold send_failure.
      destruct (read_message error) as [cause|typeError] eqn:Hread.
      * eexists _, _. split; [reflexivity|]. right. right. left.
        split; [reflexivity|]. exists error, cause. auto.
      * destruct error as [m code rid|m|text [m|]]; try discriminate Hread.
        injection Hread as <-.
        eexists _, _. split; [reflexivity|]. right. right. right.
        split; [reflexivity|]. exists text. auto.
    + destruct o as [response|e].
      * destruct Hr as (_ & [messages Hb] & ->).
        injection Hrun as <-. eexists. split; [reflexivity|]. right. left.
        exists messages, response. split; [exact Hb|reflexivity].
      * destruct Hr as (-> & _ & ->).
        injection Hrun as <-. eexists. split; [reflexivity|]. right. right.
        eexists _, _. split; [reflexivity|]. right. left.
        split; reflexivity.
Qed.

(** A call that times out on the fake platform: the response of an error,
    with the code [TIMEOUT] and without the request id. *)
Lemma public_call_response_shapes_witness :
  let c := Scenario.client_with 2000 5000 in
  let w := Fake.world Scenario.t0 [] 0 in
  ∃ w' response,
    listEvents Fake.platform c 3 (lit "2026-02-11T00:00:00Z")
      (lit "2026-02-12T00:00:00Z") w
    = Some (Ok response, w')
    ∧ response = error_response (lit "Request timed out after 5000ms")
                   (lit "TIMEOUT") 6020.
Proof.
  intros c w.
  destruct (settled_with
              (listEvents Fake.platform c 3 (lit "2026-02-11T00:00:00Z")
                 (lit "2026-02-12T00:00:00Z") w)
              (Ok (error_response (lit "Request timed out after 5000ms")
                     (lit "TIMEOUT") 6020)))
    as [w' Hrun]; [vm_compute; reflexivity|].
  exists w'.
  destruct (public_call_response_shapes Fake.platform c 3
              (ListEvents (lit "2026-02-11T00:00:00Z") (lit "2026-02-12T00:00:00Z"))
              w w' _ Hrun) as (response & Heq & _).
  exists response. split; [rewrite Hrun, Heq; reflexivity|].
  injection Heq as <-. reflexivity.
Defined.

(** ** The decoder and the text around a payload *)

Lemma replace_unit_app c r (a b : jsstring) :
  replace_unit c r (a ++ b) = replace_unit c r a ++ replace_unit c r b.
Proof.
  induction a as [|x a IH]; cbn; [reflexivity|].
  rewrite IH, app_assoc. reflexivity.
Qed.

Lemma escape_newlines_app (a b : jsstring) :
  escape_newlines (a ++ b) = escape_newlines a ++ escape_newlines b.
Proof. unfold escape_newlines. rewrite !replace_unit_app. reflexivity. Qed.

Lemma escape_newlines_Forall (Q : code_unit → Prop) (s : jsstring) :
  Q 92%N → Q 110%N → Q 114%N → Forall Q s → Forall Q (escape_newlines s).
Proof.
  intros Hb Hn Hr Hs. unfold escape_newlines.
  apply replace_unit_Forall; [repeat constructor; assumption|].
  apply replace_unit_Forall; [repeat constructor; assumption|exact Hs].
Qed.

Lemma lastIndexOf_from_absent (s : jsstring) (c : code_unit) (i : Z) :
  Forall (λ u, u ≠ c) s → lastIndexOf_from s [c] i = -1.
Proof.
  intros Hs. revert i. induction Hs as [|a s Ha Hs IH]; intros i; cbn.
  - reflexivity.
  - rewrite IH. cbn. unfold unit_eqb.
    destruct (N.eqb_spec a c); [contradiction|reflexivity].
Qed.

Lemma lastIndexOf_from_last (x b : jsstring) (c : code_unit) (i : Z) :
  0 ≤ i → Forall (λ u, u ≠ c) b →
  lastIndexOf_from (x ++ c :: b) [c] i = i + Z.of_nat (List.length x).
Proof.
  intros Hi Hb. revert i Hi. induction x as [|a x IH]; intros i Hi.
  - cbn [app List.length lastIndexOf_from].
    rewrite lastIndexOf_from_absent by exact Hb. cbn. unfold unit_eqb.
    rewrite N.eqb_refl. cbn. lia.
  - cbn [app lastIndexOf_from]. rewrite IH by lia.
    destruct (Z.eqb_spec (i + 1 + Z.of_nat (List.length x)) (-1)); [lia|].
    rewrite length_cons. lia.
Qed.

Lemma substring_middle (a m b : jsstring) :
  substring (a ++ m ++ b) (Z.of_nat (List.length a))
            (Z.of_nat (List.length a) + Z.of_nat (List.length m)) = m.
Proof.
  unfold substring, clamp. rewrite !length_app.
  rewrite !Z.min_l, !Z.max_r by lia.
  replace (Z.of_nat (List.length a) + Z.of_nat (List.length m)
           - Z.of_nat (List.length a)) with (Z.of_nat (List.length m)) by lia.
  rewrite !Nat2Z.id.
  change skipn with (@drop code_unit). change firstn with (@take code_unit).
  rewrite drop_app_length. apply take_app_length.
Qed.

(** A brace-delimited text inside a body without delimiter, with no opening
    brace before it and no closing brace after it, is the text located, with
    its line breaks escaped. *)
Lemma potentialJson_embedded (pre mid post : jsstring) :
  indexOf (pre ++ (123%N :: mid ++ [125%N]) ++ post) delimiter = -1 →
  Forall (λ u, u ≠ 123%N) pre → Forall (λ u, u ≠ 125%N) post →
  potentialJson (pre ++ (123%N :: mid ++ [125%N]) ++ post)
  = Some (123%N :: escape_newlines mid ++ [125%N]).
Proof.
  intros Hdel Hpre Hpost. unfold potentialJson. rewrite Hdel.
  change (negb (-1 =? -1)) with false. cbv iota zeta.
  fold (escape_newlines (pre ++ (123%N :: mid ++ [125%N]) ++ post)).
  rewrite !escape_newlines_app.
  change (123%N :: mid ++ [125%N]) with ([123%N] ++ mid ++ [125%N]).
  rewrite !escape_newlines_app.
  change (escape_newlines [123%N]) with [123%N].
  change (escape_newlines [125%N]) with [125%N].
  set (pre' := escape_newlines pre). set (mid' := escape_newlines mid).
  set (post' := escape_newlines post).
  assert (Hpre' : Forall (λ u, u ≠ 123%N) pre')
    by (apply escape_newlines_Forall; [discriminate..|exact Hpre]).
  assert (Hpost' : Forall (λ u, u ≠ 125%N) post')
    by (apply escape_newlines_Forall; [discriminate..|exact Hpost]).
  match goal with |- context [indexOf ?b (lit "{")] => set (full := b) end.
  assert (Hstart : indexOf full (lit "{") = Z.of_nat (List.length pre')).
  { unfold indexOf. change (lit "{") with [123%N].
    replace full with (pre' ++ [123%N] ++ (mid' ++ [125%N] ++ post'))
      by (unfold full; rewrite <- !app_assoc; reflexivity).
    rewrite indexOf_from_after by exact Hpre'. lia. }
  assert (Hend : lastIndexOf full (lit "}")
                 = Z.of_nat (List.length pre') + Z.of_nat (List.length mid') + 1).
  { unfold lastIndexOf. change (lit "}") with [125%N].
    replace full with ((pre' ++ [123%N] ++ mid') ++ 125%N :: post')
      by (unfold full; rewrite <- !app_assoc; reflexivity).
    rewrite lastIndexOf_from_last by (lia || exact Hpost').
    rewrite !length_app. cbn [List.length]. unfold code_unit. lia. }
  rewrite Hstart, Hend.
  destruct (Z.eqb_spec (Z.of_nat (List.length pre')) (-1)); [lia|].
  destruct (Z.eqb_spec (Z.of_nat (List.length pre') + Z.of_nat (List.length mid') + 1) (-1));
    [lia|].
  destruct (Z.geb_spec (Z.of_nat (List.length pre'))
              (Z.of_nat (List.length pre') + Z.of_nat (List.length mid') + 1)); [lia|].
  cbn [orb]. f_equal.
  replace (Z.of_nat (List.length pre') + Z.of_nat (List.length mid') + 1 + 1)
    with (Z.of_nat (List.length pre')
          + Z.of_nat (List.length ([123%N] ++ mid' ++ [125%N])))
    by (rewrite !length_app; cbn [List.length]; unfold code_unit; lia).
  unfold full. apply substring_middle.
Qed.

(** X14: the decoder tolerates text around the payload. When the body has
    no reply-quote delimiter, what precedes the payload has no opening brace
    and what follows it has no closing brace -- a greeting, a signature, a
    disclaimer -- decoding the body gives what decoding the payload alone
    gives. *)
Theorem decoder_ignores_surrounding_text :
  ∀ pre mid post requestId messageId : jsstring,
    indexOf (pre ++ (123%N :: mid ++ [125%N]) ++ post) delimiter = -1 →
    indexOf (123%N :: mid ++ [125%N]) delimiter = -1 →
    Forall (λ u, u ≠ 123%N) pre → Forall (λ u, u ≠ 125%N) post →
    extractApiResponse (pre ++ (123%N :: mid ++ [125%N]) ++ post) requestId messageId
    = extractApiResponse (123%N :: mid ++ [125%N]) requestId messageId.
Proof.
  intros pre mid post rid msgid Hdel Hdel' Hpre Hpost. unfold extractApiResponse.
  rewrite (potentialJson_embedded pre mid post Hdel Hpre Hpost).
  pose proof (potentialJson_embedded [] mid []) as Hbare.
  cbn [app] in Hbare. rewrite app_nil_r in Hbare.
  rewrite Hbare; [reflexivity|exact Hdel'|apply Forall_nil_2|apply Forall_nil_2].
Qed.

(** A reply with a greeting before the payload and a signature after it. *)
Lemma decoder_ignores_surrounding_text_witness :
  extractApiResponse
    (lit "Hello," ++ (123%N :: dq "'status':'success'" ++ [125%N])
       ++ lit " -- sent by Power Automate")
    (lit "abc-123") (lit "m1")
  = Ok (Some [(lit "requestId", JString (lit "abc-123"));
              (lit "messageId", JString (lit "m1"));
              (lit "status", JString (lit "success"))]).
Proof.
  rewrite (decoder_ignores_surrounding_text (lit "Hello,") (dq "'status':'success'")
             (lit " -- sent by Power Automate") (lit "abc-123") (lit "m1")).
  - vm_compute. reflexivity.
  - vm_compute. reflexivity.
  - vm_compute. reflexivity.
  - vm_compute. repeat constructor; discriminate.
  - vm_compute. repeat constructor; discriminate.
Defined.

(** X15: a payload whose opening brace is followed by a line break -- as a
    pretty-printer writes it -- is never decoded, valid JSON or not: the
    line break is turned into a backslash sequence before parsing, and a
    backslash outside a string is a syntax error. *)
Theorem line_break_after_brace_is_not_decoded :
  ∀ (pre mid post requestId messageId : jsstring) (nl : code_unit),
    nl = 10%N ∨ nl = 13%N →
    indexOf (pre ++ (123%N :: (nl :: mid) ++ [125%N]) ++ post) delimiter = -1 →
    Forall (λ u, u ≠ 123%N) pre → Forall (λ u, u ≠ 125%N) post →
    extractApiResponse (pre ++ (123%N :: (nl :: mid) ++ [125%N]) ++ post)
                       requestId messageId
    = Ok None.
Proof.
  intros pre mid post rid msgid nl Hnl Hdel Hpre Hpost. unfold extractApiResponse.
  rewrite (potentialJson_embedded pre (nl :: mid) post Hdel Hpre Hpost).
  change (nl :: mid) with ([nl] ++ mid). rewrite escape_newlines_app.
  assert (∃ x, escape_newlines [nl] = 92%N :: x) as [x ->]
    by (destruct Hnl as [-> | ->]; eexists; reflexivity).
  reflexivity.
Qed.

(** The same object on one line and on three: only the first is decoded. *)
Lemma line_break_after_brace_is_not_decoded_witness :
  extractApiResponse (dq "{'status': 'success'}") (lit "abc-123") (lit "m1")
  = Ok (Some [(lit "requestId", JString (lit "abc-123"));
              (lit "messageId", JString (lit "m1"));
              (lit "status", JString (lit "success"))])
  ∧ JSON_parse ([] ++ (123%N :: (10%N :: dq "  'status': 'success'" ++ [10%N]) ++ [125%N]) ++ [])
    = Ok (JObject [(lit "status", JString (lit "success"))])
  ∧ extractApiResponse
      ([] ++ (123%N :: (10%N :: dq "  'status': 'success'" ++ [10%N]) ++ [125%N]) ++ [])
      (lit "abc-123") (lit "m1")
    = Ok None.
Proof.
  split; [vm_compute; reflexivity|]. split; [vm_compute; reflexivity|].
  apply (line_break_after_brace_is_not_decoded [] (dq "  'status': 'success'" ++ [10%N]) []).
  - left. reflexivity.
  - vm_compute. reflexivity.
  - apply Forall_nil_2.
  - apply Forall_nil_2.
Defined.

(** ** The life cycle of the client *)

(** X16: [connect] on a connected client does nothing -- no second
    authentication; on a client that is not connected it authenticates
    once: success gives a connected client with the Gmail handle set and the
    same configuration and supported actions, failure is thrown on as it is
    and connects nothing. Either way no transport call is made. *)
Theorem connect_authenticates_once :
  ∀ (P : Platform) (c : CalendarEmailClient) (w : World P),
    (connected c = true → connect P c w = (Ok c, w))
    ∧ (connected c = false →
       calls P (snd (connect P c w)) = calls P w
       ∧ env P (snd (connect P c w)) = snd (authenticate P (env P w))
       ∧ match fst (authenticate P (env P w)) with
         | Ok _ =>
             fst (connect P c w)
             = Ok (mkClient (config c) true true (supportedActions c))
             ∧ connect P (mkClient (config c) true true (supportedActions c))
                       (snd (connect P c w))
               = (Ok (mkClient (config c) true true (supportedActions c)),
                  snd (connect P c w))
         | Raise e => fst (connect P c w) = Raise e
         end).
Proof.
  intros P c w. unfold connect. split; intros ->; [reflexivity|].
  destruct (authenticate P (env P w)) as [[[]|e] e']; cbn; auto.
Qed.

Lemma connect_authenticates_once_witness :
  connect Fake.platform Scenario.connected_client (Fake.world Scenario.t0 [] 0)
  = (Ok Scenario.connected_client, Fake.world Scenario.t0 [] 0)
  ∧ fst (connect Fake.platform (new_CalendarEmailClient Scenario.cfg)
           (Fake.world Scenario.t0 [] 0))
    = Ok Scenario.connected_client.
Proof.
  split.
  - apply (proj1 (connect_authenticates_once Fake.platform Scenario.connected_client
                    (Fake.world Scenario.t0 [] 0))).
    reflexivity.
  - apply (proj2 (connect_authenticates_once Fake.platform
                    (new_CalendarEmailClient Scenario.cfg)
                    (Fake.world Scenario.t0 [] 0)) eq_refl).
Defined.

(** X17: [disconnect] keeps the Gmail handle and clears the connected flag,
    and that is enough to stop the client: every supported operation on a
    disconnected client returns the [NOT_CONNECTED] response without a
    transport call, and a later [connect] authenticates again. *)
Theorem disconnect_stops_requests :
  ∀ (P : Platform) (c : CalendarEmailClient) (fuel : nat) (call : PublicCall)
    (w : World P),
    connected (disconnect c) = false
    ∧ gmail (disconnect c) = gmail c
    ∧ config (disconnect c) = config c
    ∧ supportedActions (disconnect c) = supportedActions c
    ∧ (action_of call ∈ supportedActions c →
       perform P (disconnect c) fuel call w = Some (Ok not_connected_response, w))
    ∧ env P (snd (connect P (disconnect c) w)) = snd (authenticate P (env P w)).
Proof.
  intros P c fuel call w.
  assert (Hd : connected (disconnect c) = false)
    by (unfold disconnect; destruct (connected c) eqn:E; [reflexivity|exact E]).
  assert (Hs : supportedActions (disconnect c) = supportedActions c)
    by (unfold disconnect; destruct (connected c); reflexivity).
  split; [exact Hd|].
  split; [unfold disconnect; destruct (connected c); reflexivity|].
  split; [unfold disconnect; destruct (connected c); reflexivity|].
  split; [exact Hs|]. split.
  - intros Hsup.
    destruct (perform_unfold P (disconnect c) call) as (method & payload & ->).
    unfold executeApiCall.
    rewrite sendRequest_not_connected; [|rewrite Hs; exact Hsup|left; exact Hd].
    rewrite Z.sub_diag. reflexivity.
  - unfold connect. rewrite Hd.
    destruct (authenticate P (env P w)) as [[[]|e] e']; reflexivity.
Qed.

Lemma disconnect_stops_requests_witness :
  listEvents Fake.platform (disconnect Scenario.connected_client) 5
    (lit "2026-02-11T00:00:00Z") (lit "2026-02-12T00:00:00Z")
    (Fake.world Scenario.t0 [Scenario.reply_pending] 0)
  = Some (Ok not_connected_response,
          Fake.world Scenario.t0 [Scenario.reply_pending] 0).
Proof.
  apply (proj1 (proj2 (proj2 (proj2 (proj2
           (disconnect_stops_requests Fake.platform Scenario.connected_client 5
              (ListEvents (lit "2026-02-11T00:00:00Z") (lit "2026-02-12T00:00:00Z"))
              (Fake.world Scenario.t0 [Scenario.reply_pending] 0))))))).
  apply elem_of_cons. left. reflexivity.
Defined.

Lemma accepted_interval (partial : option PartialConfig) (rc : ResolvedConfig) :
  resolveConfig partial = Ok rc →
  finite (default (of_int 2000) (rc_pollIntervalMs rc)) →
  500 ≤ whole (default (of_int 2000) (rc_pollIntervalMs rc)).
Proof.
  unfold resolveConfig.
  destruct (is_empty (rc_senderEmail (merge_config partial))); [discriminate|].
  destruct (is_empty (rc_recipientEmail (merge_config partial))); [discriminate|].
  destruct (is_empty (rc_credentialsPath (merge_config partial))); [discriminate|].
  destruct (num_lt (to_number (rc_pollIntervalMs (merge_config partial))) (of_int 500))
    eqn:Hi; [discriminate|].
  destruct (num_lt (to_number (rc_requestTimeoutMs (merge_config partial)))
                   (of_int 5000)); [discriminate|].
  intros Heq. injection Heq as <-.
  apply (accepted_bound _ 2000 500 Hi). lia.
Qed.

(** X18: a client built by the constructor -- from a configuration that
    [resolveConfig] accepts -- whose timeout and poll interval are finite
    numbers cannot hang on a sound clock: connected or not, every public
    operation on it settles, within [requestTimeoutMs / pollIntervalMs + 1]
    polls (of the whole milliseconds). The constructor also lets through a
    timeout of [Infinity] or [NaN]; of such a client nothing is said here. *)
Theorem constructed_client_always_settles :
  ∀ (P : Platform) (partial : option PartialConfig) (c0 c : CalendarEmailClient)
    (call : PublicCall) (w : World P),
    ClockSound P →
    construct_client partial = Ok c0 →
    config c = config c0 →
    finite (watch_timeout c) → finite (watch_interval c) →
    ∃ x, perform P c
           (S (Z.to_nat (whole (watch_timeout c) / whole (watch_interval c))))
           call w = Some x.
Proof.
  intros P partial c0 c call w HC Hc0 Hcfg Ht Hi.
  unfold construct_client in Hc0.
  destruct (resolveConfig partial) as [rc|e] eqn:Hres; [|discriminate].
  injection Hc0 as <-. cbn [new_CalendarEmailClient config] in Hcfg.
  assert (Hpos : 0 < whole (watch_interval c)).
  { unfold watch_interval in *. rewrite Hcfg in *.
    cbn [client_config cfg_pollIntervalMs] in *.
    pose proof (accepted_interval partial rc Hres Hi). lia. }
  rewrite perform_eq. unfold executeApiCall.
  destruct (sendRequest_terminates P c call w HC Ht Hi Hpos) as [[[r|e] w1] ->]; eauto.
Qed.

(** The default configuration: 61 polls are enough. *)
Lemma constructed_client_always_settles_witness :
  ∃ x, perform Fake.platform Scenario.connected_client 61
         (ListEvents (lit "2026-02-11T00:00:00Z") (lit "2026-02-12T00:00:00Z"))
         (Fake.world Scenario.t0 [] 0) = Some x.
Proof.
  apply (constructed_client_always_settles Fake.platform
           (Some (mkPartial (Some (Some (lit "me@example.com")))
                            (Some (Some (lit "calendar@example.com")))
                            (Some (Some Scenario.responder))
                            None None None None None))
           (new_CalendarEmailClient Scenario.cfg) Scenario.connected_client
           (ListEvents (lit "2026-02-11T00:00:00Z") (lit "2026-02-12T00:00:00Z"))
           (Fake.world Scenario.t0 [] 0) fake_clock_sound).
  - vm_compute. reflexivity.
  - reflexivity.
  - exact I.
  - exact I.
Defined.

(** ** The body of a message *)

Lemma find_plain_first (before after : list MessagePart) h (d : jsstring) sub :
  d ≠ [] → Forall (λ p, ¬ is_plain_with_data p) before →
  find_plain (before ++ mkPart (Some (lit "text/plain")) h (Some d) sub :: after)
  = Some d.
Proof.
  intros Hd Hb. induction Hb as [|[mime hs data ps] before Hp Hb IH]; cbn [app find_plain].
  - rewrite bool_decide_eq_true_2 by reflexivity.
    destruct d; [contradiction|reflexivity].
  - destruct data as [x|]; [|exact IH].
    destruct (bool_decide (mime = Some (lit "text/plain"))) eqn:Hm; [|exact IH].
    apply bool_decide_eq_true in Hm.
    destruct x as [|u x]; [exact IH|]. destruct Hp. split; [exact Hm|].
    exists (u :: x). split; [reflexivity|discriminate].
Qed.

(** X19: the body of a message is its own data when it has some; else the
    data of its first [text/plain] part that has some, whatever comes before
    that part -- an HTML part with data included. *)
Theorem extractBody_prefers_plain_text :
  ∀ (P : Platform) (mime : option jsstring) (hs : option (list Header))
    (data : option jsstring) (d : jsstring) (parts before after : list MessagePart)
    (h : option (list Header)) (sub : option (list MessagePart)),
    d ≠ [] →
    extractBody P (Some (mkPart mime hs (Some d) (Some parts))) = base64_to_utf8 P d
    ∧ (data = None ∨ data = Some [] →
       Forall (λ p, ¬ is_plain_with_data p) before →
       extractBody P
         (Some (mkPart mime hs data
                  (Some (before ++ mkPart (Some (lit "text/plain")) h (Some d) sub
                           :: after))))
       = base64_to_utf8 P d).
Proof.
  intros P mime hs data d parts before after h sub Hd. split.
  - cbn. destruct d; [contradiction|reflexivity].
  - intros Hdata Hb. cbn [extractBody extractBody_part].
    replace (match data with Some d0 => nonempty d0 | None => false end) with false
      by (destruct Hdata as [-> | ->]; reflexivity).
    rewrite (find_plain_first before after h d sub Hd Hb). reflexivity.
Qed.

(** A multipart message, HTML first: the plain text is the body. *)
Lemma extractBody_prefers_plain_text_witness :
  extractBody Fake.platform
    (Some (mkPart (Some (lit "multipart/alternative")) None None
             (Some ([mkPart (Some (lit "text/html")) None
                       (Some (lit "PGI+aGk8L2I+")) None]
                    ++ mkPart (Some (lit "text/plain")) None (Some (lit "aGk=")) None
                    :: []))))
  = lit "hi".
Proof.
  rewrite (proj2 (extractBody_prefers_plain_text Fake.platform
                    (Some (lit "multipart/alternative")) None None (lit "aGk=") []
                    [mkPart (Some (lit "text/html")) None (Some (lit "PGI+aGk8L2I+")) None]
                    [] None None ltac:(discriminate))).
  - vm_compute. reflexivity.
  - left. reflexivity.
  - apply Forall_cons. split; [|apply Forall_nil_2].
    intros [Hm _]. discriminate Hm.
Defined.

(** ** The search window *)

Section Window.

Variable P : Platform.

Lemma list_queries_app cs1 cs2 :
  list_queries (cs1 ++ cs2) = list_queries cs1 ++ list_queries cs2.
Proof. apply omap_app. Qed.

Lemma list_queries_none cs : list_calls cs = O → list_queries cs = [].
Proof.
  unfold list_calls, list_queries. induction cs as [|c cs IH]; [reflexivity|].
  destruct c; cbn; try exact IH. discriminate.
Qed.

Lemma poll_query_same t t' : same_request t t' → poll_query P t' = poll_query P t.
Proof. intros (Hs & _ & _ & _ & Ht). unfold poll_query. rewrite Hs, Ht. reflexivity. Qed.

Lemma check_queries fuel : ∀ (s : ResponseWatcher * World P) r s',
  check P fuel s = Some (r, s') →
  ∃ new,
    calls P (snd s') = new ++ calls P (snd s)
    ∧ Forall (λ qn, qn = (poll_query P (fst s), 35)) (list_queries new).
Proof.
  induction fuel as [|fuel IH]; intros s r s'; rewrite check_unfold.
  - destruct (timed_out P _ _); [|discriminate]. intros Heq. injection Heq as <- <-.
    exists []. split; [reflexivity|apply Forall_nil_2].
  - destruct (timed_out P _ _).
    { intros Heq. injection Heq as <- <-.
      exists []. split; [reflexivity|apply Forall_nil_2]. }
    destruct (poll P s) as [o s1] eqn:Hpoll.
    destruct (poll_log P s o s1 Hpoll) as (inner & Hcalls & Hshape).
    destruct (poll_effect P _ _ _ Hpoll) as [(Hsame & _) _].
    assert (Hinner : list_queries (inner ++ [CallList (poll_query P (fst s)) 35])
                     = [(poll_query P (fst s), 35)]).
    { rewrite list_queries_app, list_queries_none; [reflexivity|].
      destruct o as [[response|]|e].
      - destruct Hshape as (? & ? & ? & id & ? & ? & ? & older & _ & _ & _ & -> & _ & Hl & _).
        exact Hl.
      - apply Hshape.
      - destruct Hshape as [-> _]. reflexivity. }
    assert (Hnext : check P fuel (fst s1, sleep P (pollIntervalMs (fst s1)) (snd s1))
                    = Some (r, s') →
              ∃ new,
                calls P (snd s') = new ++ calls P (snd s)
                ∧ Forall (λ qn, qn = (poll_query P (fst s), 35)) (list_queries new)).
    { intros Hc. destruct (IH _ _ _ Hc) as (new & Hnew & Hq).
      cbn [fst snd sleep calls] in Hnew, Hq.
      rewrite (poll_query_same _ _ Hsame) in Hq.
      exists (new ++ inner ++ [CallList (poll_query P (fst s)) 35]).
      split; [rewrite Hnew, Hcalls, <- !app_assoc; reflexivity|].
      rewrite list_queries_app, Hinner. apply Forall_app. split; [exact Hq|].
      apply Forall_cons. split; [reflexivity|apply Forall_nil_2]. }
    destruct o as [[response|]|e]; try exact Hnext.
    intros Heq. injection Heq as <- <-.
    exists (inner ++ [CallList (poll_query P (fst s)) 35]).
    split; [rewrite Hcalls, <- app_assoc; reflexivity|].
    rewrite Hinner. apply Forall_cons. split; [reflexivity|apply Forall_nil_2].
Qed.

End Window.

(** X20: the search window of a wait does not move. Every list call of a
    wait asks the same question -- unread mail from the responder, not older
    than the day of one minute before the watcher started -- for at most 35
    messages. (A responder address that is [undefined] is searched for as
    the text [undefined].) *)
Theorem waitForResponse_query_is_fixed :
  ∀ (P : Platform) (s s' : ResponseWatcher * World P) (fuel : nat) r,
    waitForResponse P fuel s = Some (r, s') →
    ∃ new,
      calls P (snd s') = new ++ calls P (snd s)
      ∧ ∀ q n, CallList q n ∈ new →
          n = 35
          ∧ ∃ year month day,
              local_date P (startTime (fst s) - 60000) = (year, month, day)
              ∧ q = lit "from:" ++ template_text (responseSenderEmail (fst s))
                      ++ lit " is:unread after:"
                      ++ of_Z year ++ lit "/" ++ of_Z (month + 1) ++ lit "/" ++ of_Z day.
Proof.
  intros P s s' fuel r Hrun.
  destruct (check_queries P fuel s r s' Hrun) as (new & Hnew & Hq).
  exists new. split; [exact Hnew|]. intros q n Hin.
  rewrite Forall_forall in Hq.
  assert ((q, n) ∈ list_queries new) as Hqn.
  { unfold list_queries. apply list_elem_of_omap. exists (CallList q n). auto. }
  specialize (Hq _ Hqn). injection Hq as -> ->. split; [reflexivity|].
  unfold poll_query.
  destruct (local_date P (startTime (fst s) - 60000)) as [[year month] day].
  exists year, month, day. split; reflexivity.
Qed.

(** Three polls on the fake platform, two of them in the new year, all ask
    for mail after 2025/12/31. *)
Lemma waitForResponse_query_is_fixed_witness :
  let s := (Scenario.watcher (lit "abc-123") 2000 5000, Fake.world Scenario.t0 [] 0) in
  option_map (λ x, list_queries (calls _ (snd (snd x))))
             (waitForResponse Fake.platform 3 s)
  = Some (List.repeat
            (lit "from:calendar@example.com is:unread after:2025/12/31", 35) 3)
  ∧ ∃ s', waitForResponse Fake.platform 3 s = Some (Raise (timeout_error Fake.platform (fst s)), s')
      ∧ ∃ new, calls _ (snd s') = new ++ []
          ∧ ∀ q n, CallList q n ∈ new →
              n = 35
              ∧ ∃ year month day,
                  Fake.utc_date (Scenario.t0 - 60000) = (year, month, day)
                  ∧ q = lit "from:" ++ Scenario.responder
                          ++ lit " is:unread after:"
                          ++ of_Z year ++ lit "/" ++ of_Z (month + 1) ++ lit "/"
                          ++ of_Z day.
Proof.
  intros s. split; [vm_compute; reflexivity|].
  destruct (settled_with (waitForResponse Fake.platform 3 s)
              (Raise (timeout_error Fake.platform (fst s)))) as [s' Hrun];
    [vm_compute; reflexivity|].
  exists s'. split; [exact Hrun|].
  apply (waitForResponse_query_is_fixed Fake.platform s s' 3 _ Hrun).
Defined.

(** ** Authentication *)

Section AuthFacts.

Import Auth.

Lemma isTokenExpired_later (token : option TokenData) (now now' : Z) :
  now ≤ now' → isTokenExpired token now = true → isTokenExpired token now' = true.
Proof.
  unfold isTokenExpired. intros Hle.
  destruct (match token with Some t => expiry_date t | None => None end) as [x|];
    [|reflexivity].
  destruct (x =? 0); [reflexivity|].
  destruct (Z.geb_spec now (x - 5 * 60 * 1000)); [|discriminate].
  intros _. destruct (Z.geb_spec now' (x - 5 * 60 * 1000)); [reflexivity|lia].
Qed.

Lemma handle_request_ignored (req : AuthRequest) :
  handle_request req = Ignored ↔ passed_over req.
Proof.
  destruct req as [|e|[[|c code]|] [[|d error]|]]; cbn; split;
    try discriminate; try tauto; intros H; try reflexivity;
    destruct H as [[H|H] [H'|H']]; discriminate.
Qed.

Lemma await_code_first (ignored rest : list AuthRequest) req :
  Forall passed_over ignored →
  await_code (ignored ++ req :: rest)
  = match handle_request req with
    | Decided result => Settled result
    | Uncaught e => Died e
    | Ignored => await_code rest
    end.
Proof.
  intros Hi. induction Hi as [|r ignored Hn Hi IH]; cbn [app await_code].
  - reflexivity.
  - apply handle_request_ignored in Hn. rewrite Hn. exact IH.
Qed.

Lemma await_code_timeout (reqs : list AuthRequest) :
  Forall passed_over reqs →
  await_code reqs
  = Settled (Raise (CalendarApiError (lit "Authorization timed out")
                                     ErrorCodes.AUTH_FAILED None)).
Proof.
  induction 1 as [|r reqs Hn Hi IH]; cbn [await_code]; [reflexivity|].
  apply handle_request_ignored in Hn. rewrite Hn. exact IH.
Qed.

Lemma await_code_error (reqs : list AuthRequest) e :
  await_code reqs = Settled (Raise e) →
  ∃ m, e = CalendarApiError m ErrorCodes.AUTH_FAILED None.
Proof.
  induction reqs as [|r reqs IH]; cbn [await_code].
  - intros Heq. injection Heq as <-. eauto.
  - destruct r as [|e'|[[|c code]|] [[|d error]|]]; cbn [handle_request];
      try exact IH; try discriminate; intros Heq; injection Heq as <-; eauto.
Qed.

End AuthFacts.

(** X21: a token counts as expired when it has no expiry date (or the date
    zero) and from five minutes before its expiry date on; once it counts as
    expired it does so at every later time. *)
Theorem token_expires_five_minutes_early :
  ∀ (token : Auth.TokenData) (expiry now now' : Z),
    Auth.isTokenExpired None now = true
    ∧ Auth.isTokenExpired (Some (Auth.mkToken (Auth.access_token token) None)) now = true
    ∧ (Auth.expiry_date token = Some expiry → expiry ≠ 0 →
       (Auth.isTokenExpired (Some token) now = true ↔ expiry - 300000 ≤ now))
    ∧ (now ≤ now' → Auth.isTokenExpired (Some token) now = true →
       Auth.isTokenExpired (Some token) now' = true).
Proof.
  intros token expiry now now'. split; [reflexivity|]. split; [reflexivity|]. split.
  - intros He Hne. unfold Auth.isTokenExpired. rewrite He.
    destruct (Z.eqb_spec expiry 0); [contradiction|].
    destruct (Z.geb_spec now (expiry - 5 * 60 * 1000)); split; intros; try lia;
      try reflexivity; try discriminate.
  - apply isTokenExpired_later.
Qed.

(** A token that expires at 1 000 000 counts as expired from 700 000 on. *)
Lemma token_expires_five_minutes_early_witness :
  Auth.isTokenExpired (Some (Auth.mkToken (Some (lit "ya29")) (Some 1000000))) 700000
  = true
  ∧ Auth.isTokenExpired (Some (Auth.mkToken (Some (lit "ya29")) (Some 1000000))) 699999
    = false.
Proof.
  pose proof (token_expires_five_minutes_early
                (Auth.mkToken (Some (lit "ya29")) (Some 1000000)) 1000000 700000 700000)
    as (_ & _ & Hiff & _).
  split; [|reflexivity]. apply (Hiff eq_refl); [discriminate|lia].
Defined.

(** X22: the wait for the authorization code. The handler passes over
    exactly the requests without a URL and those whose query has neither an
    error nor a code (an empty one counts as none). After any number of
    those, the first request with a code and no error resolves the wait with
    the code; one with an error rejects it as denied, whatever its code; one
    whose URL cannot be parsed makes the handler throw, which nothing
    catches; and when the requests run out the wait rejects with the
    timeout. A server that cannot listen raises an error event that nothing
    listens to. The only rejections of the wait are [AUTH_FAILED] errors. *)
Theorem first_decisive_request_ends_the_wait :
  ∀ (ignored rest : list Auth.AuthRequest) (code error : jsstring)
    (c : option jsstring) (e : JsError),
    Forall passed_over ignored →
    code ≠ [] → error ≠ [] →
    Forall (λ req, Auth.handle_request req = Auth.Ignored) ignored
    ∧ Auth.await_code (ignored ++ Auth.Callback (Some code) None :: rest)
      = Auth.Settled (Ok code)
    ∧ Auth.await_code (ignored ++ Auth.Callback (Some code) (Some []) :: rest)
      = Auth.Settled (Ok code)
    ∧ Auth.await_code (ignored ++ Auth.Callback c (Some error) :: rest)
      = Auth.Settled (Raise (CalendarApiError (lit "Authorization denied: " ++ error)
                                              (lit "AUTH_FAILED") None))
    ∧ Auth.await_code (ignored ++ Auth.BadUrl e :: rest) = Auth.Died e
    ∧ Auth.await_code ignored
      = Auth.Settled (Raise (CalendarApiError (lit "Authorization timed out")
                                              (lit "AUTH_FAILED") None))
    ∧ (∀ req, Auth.handle_request req = Auth.Ignored ↔ passed_over req)
    ∧ (∀ reqs e', Auth.await_code reqs = Auth.Settled (Raise e') →
                  ∃ m, e' = CalendarApiError m (lit "AUTH_FAILED") None)
    ∧ (∀ (H : Auth.AuthHost) s e' env',
         Auth.serve H (Auth.aenv H (snd s)) = (Raise e', env') →
         fst (Auth.waitForAuthCode H s) = Auth.Died e')
    ∧ (∀ (H : Auth.AuthHost) s reqs env',
         Auth.serve H (Auth.aenv H (snd s)) = (Ok reqs, env') →
         fst (Auth.waitForAuthCode H s) = Auth.await_code reqs).
Proof.
  intros ignored rest code error c e Hi Hc He.
  destruct code as [|u code]; [contradiction|].
  destruct error as [|v error]; [contradiction|].
  split; [eapply Forall_impl; [exact Hi|intros req; apply handle_request_ignored]|].
  split; [rewrite await_code_first by exact Hi; reflexivity|].
  split; [rewrite await_code_first by exact Hi; reflexivity|].
  split; [rewrite await_code_first by exact Hi; reflexivity|].
  split; [rewrite await_code_first by exact Hi; reflexivity|].
  split; [apply await_code_timeout, Hi|].
  split; [apply handle_request_ignored|].
  split; [intros reqs e'; apply await_code_error|].
  split; intros H s; intros ? env' Hs; unfold Auth.waitForAuthCode; rewrite Hs;
    reflexivity.
Qed.

(** A favicon request without parameters, then the callback with the code. *)
Lemma first_decisive_request_ends_the_wait_witness :
  Auth.await_code
    ([Auth.Callback None None; Auth.NoUrl]
       ++ Auth.Callback (Some (lit "4/0AX4")) None
       :: [Auth.Callback None (Some (lit "access_denied"))])
  = Auth.Settled (Ok (lit "4/0AX4")).
Proof.
  apply (first_decisive_request_ends_the_wait
           [Auth.Callback None None; Auth.NoUrl]
           [Auth.Callback None (Some (lit "access_denied"))]
           (lit "4/0AX4") (lit "x") None (OtherError (lit "Invalid URL"))).
  - repeat constructor; cbn; auto.
  - discriminate.
  - discriminate.
Defined.

Section AuthRuns.

Import Auth.

Variable H : AuthHost.

Ltac auth_unfold :=
  unfold authenticate, refreshToken, runConsentFlow, loadToken, saveToken,
    waitForAuthCode, setCredentials, set_client, set_gmailClient, host,
    acatch, abind, agets, amodify, aret, athrow, apure, chosen_redirect in *;
  cbn [fst snd aenv events scopes config_credentials redirect_uris oauth2Client
       gmailClient option_map redirectUri credentials] in *.

Lemma loadToken_none s read e1 :
  read_file H (aenv H (snd s)) = (read, e1) →
  no_stored_token H read →
  loadToken H s
  = (Settled (Ok None), (fst s, mkAuthWorld H e1 (EvReadToken :: events H (snd s)))).
Proof.
  intros Hr Hn. unfold loadToken, acatch, abind, host, apure, aret.
  rewrite Hr. unfold no_stored_token in Hn. destruct read as [c|?]; [|reflexivity].
  destruct (parse_token H c) as [[t|]|?]; [contradiction|reflexivity|reflexivity].
Qed.

(** X23: a stored token that is more than five minutes from its expiry is
    used as it is: when the configuration has credentials, [authenticate]
    succeeds after reading the token file, with no refresh, no consent flow
    and no write; the OAuth client gets the first redirect URI of the
    credentials (or the default one) and the stored token as credentials. *)
Theorem valid_stored_token_needs_no_network :
  ∀ a w creds content token e1,
    config_credentials a = Some creds →
    read_file H (aenv H w) = (Ok content, e1) →
    parse_token H content = Ok (Some token) →
    isTokenExpired (Some token) (auth_now H e1) = false →
    authenticate H (a, w)
    = (Settled (Ok tt),
       (mkAuth (Some creds) (scopes a)
               (Some (mkOAuth (chosen_redirect creds) (Some token))) true,
        mkAuthWorld H e1 (EvReadToken :: events H w))).
Proof.
  intros a w creds content token e1 Hc Hr Hp He. auth_unfold.
  rewrite Hc. cbn -[REDIRECT_URI]. rewrite Hr. cbn -[REDIRECT_URI]. rewrite Hp. cbn -[REDIRECT_URI]. rewrite He.
  cbn -[REDIRECT_URI]. rewrite Hc. reflexivity.
Qed.

(** X24: a stored token that counts as expired is refreshed once; the
    refreshed credentials replace the stored ones in the client and are
    written to the token file, and no consent flow runs. *)
Theorem expired_token_is_refreshed_and_saved :
  ∀ a w creds content token e1 refreshed e2 e3,
    config_credentials a = Some creds →
    read_file H (aenv H w) = (Ok content, e1) →
    parse_token H content = Ok (Some token) →
    isTokenExpired (Some token) (auth_now H e1) = true →
    refresh_access_token H e1 = (Ok refreshed, e2) →
    write_token H refreshed e2 = (Ok tt, e3) →
    authenticate H (a, w)
    = (Settled (Ok tt),
       (mkAuth (Some creds) (scopes a)
               (Some (mkOAuth (chosen_redirect creds) (Some refreshed))) true,
        mkAuthWorld H e3 (EvSave refreshed :: EvRefresh :: EvReadToken :: events H w))).
Proof.
  intros a w creds content token e1 refreshed e2 e3 Hc Hr Hp He Hf Hw. auth_unfold.
  rewrite Hc. cbn -[REDIRECT_URI]. rewrite Hr. cbn -[REDIRECT_URI]. rewrite Hp. cbn -[REDIRECT_URI]. rewrite He. cbn -[REDIRECT_URI]. rewrite Hf. cbn -[REDIRECT_URI].
  rewrite Hw. cbn -[REDIRECT_URI]. rewrite Hc. reflexivity.
Qed.

Ltac consent_cases :=
  repeat
    (cbn -[REDIRECT_URI];
     match goal with
     | |- context [open_browser H ?u ?e] =>
         destruct (open_browser H u e) as [[[]|?] ?]
     | |- context [serve H ?e] => destruct (serve H e) as [[?|?] ?]
     | |- context [await_code ?reqs] => destruct (await_code reqs) as [[?|?]|?]
     | |- context [get_token H ?c ?e] => destruct (get_token H c e) as [[?|?] ?]
     | |- context [write_token H ?t ?e] => destruct (write_token H t e) as [[[]|?] ?]
     | |- context [match ?e with CalendarApiError _ _ _ => _ | _ => _ end] =>
         destruct e as [? ? ?|?|? [?|]]
     end).

(** X25: when the refresh of an expired token fails, or the refreshed
    token cannot be written to the token file, [authenticate] goes on with
    the consent flow: it opens the browser on the authorization URL and
    listens for the callback. *)
Theorem failed_refresh_falls_back_to_consent :
  ∀ a w creds content token e1 r e2,
    config_credentials a = Some creds →
    read_file H (aenv H w) = (Ok content, e1) →
    parse_token H content = Ok (Some token) →
    isTokenExpired (Some token) (auth_now H e1) = true →
    refresh_access_token H e1 = (r, e2) →
    let url := generate_auth_url H (scopes a) in
    let after := events H (snd (snd (authenticate H (a, w)))) in
    match r with
    | Raise _ =>
        ∃ newer,
          after = newer ++ EvListen :: EvBrowser url :: EvRefresh
                        :: EvReadToken :: events H w
    | Ok refreshed =>
        (∃ err, fst (write_token H refreshed e2) = Raise err) →
        ∃ newer,
          after = newer ++ EvListen :: EvBrowser url :: EvSave refreshed :: EvRefresh
                        :: EvReadToken :: events H w
    end.
Proof.
  intros a w creds content token e1 r e2 Hc Hr Hp He Hf url after. subst url after.
  auth_unfold. rewrite Hc. cbn -[REDIRECT_URI]. rewrite Hr. cbn -[REDIRECT_URI]. rewrite Hp. cbn -[REDIRECT_URI]. rewrite He. cbn -[REDIRECT_URI].
  rewrite Hf.
  destruct r as [refreshed|err]; cbn -[REDIRECT_URI].
  - intros [err Hw]. destruct (write_token H refreshed e2) as [rw e3].
    cbn [fst] in Hw. subst rw. consent_cases;
      first [ by exists [] | by eexists [_] | by eexists [_; _] ].
  - consent_cases; first [ by exists [] | by eexists [_] | by eexists [_; _] ].
Qed.

(** X26: on a first run (credentials configured, no usable token on disk),
    when the user denies access or the wait for the callback times out,
    [authenticate] fails with exactly that error, whether or not the browser
    could be opened; no code is exchanged, nothing is written, the client
    has no credentials, and the Gmail client is as it was. *)
Theorem denied_consent_fails_without_exchange :
  ∀ a w creds read e1 opened e2 reqs e3 err,
    config_credentials a = Some creds →
    read_file H (aenv H w) = (read, e1) →
    no_stored_token H read →
    open_browser H (generate_auth_url H (scopes a)) e1 = (opened, e2) →
    serve H e2 = (Ok reqs, e3) →
    await_code reqs = Settled (Raise err) →
    authenticate H (a, w)
    = (Settled (Raise err),
       (mkAuth (Some creds) (scopes a)
               (Some (mkOAuth (chosen_redirect creds) None)) (gmailClient a),
        mkAuthWorld H e3
          (EvListen :: EvBrowser (generate_auth_url H (scopes a))
             :: EvReadToken :: events H w))).
Proof.
  intros a w creds read e1 opened e2 reqs e3 err Hc Hr Hn Ho Hi Ha.
  pose proof (loadToken_none
                (mkAuth (Some creds) (scopes a)
                        (Some (mkOAuth (chosen_redirect creds) None)) (gmailClient a), w)
                read e1 Hr Hn) as Hload.
  destruct (await_code_error _ _ Ha) as [m ->].
  unfold authenticate, acatch, abind at 1 2 3 4, agets at 1, set_client, amodify.
  cbn [fst snd config_credentials scopes gmailClient]. rewrite Hc.
  cbn [fst snd]. rewrite ?Hc. fold (chosen_redirect creds). rewrite Hload.
  unfold runConsentFlow, waitForAuthCode, host, acatch, abind, agets, aret.
  cbn [fst snd aenv events scopes oauth2Client]. rewrite Ho.
  destruct opened as [[]|?]; cbn [aenv events fst snd]; rewrite Hi, Ha; reflexivity.
Qed.

(** X27: on a first run where the user grants access, the code of the
    callback is exchanged once, the tokens received become the client's
    credentials and are written to the token file, and [authenticate]
    succeeds, whether or not the browser could be opened. *)
Theorem first_consent_saves_exchanged_token :
  ∀ a w creds read e1 opened e2 reqs e3 code tokens e4 e5,
    config_credentials a = Some creds →
    read_file H (aenv H w) = (read, e1) →
    no_stored_token H read →
    open_browser H (generate_auth_url H (scopes a)) e1 = (opened, e2) →
    serve H e2 = (Ok reqs, e3) →
    await_code reqs = Settled (Ok code) →
    get_token H code e3 = (Ok tokens, e4) →
    write_token H tokens e4 = (Ok tt, e5) →
    authenticate H (a, w)
    = (Settled (Ok tt),
       (mkAuth (Some creds) (scopes a)
               (Some (mkOAuth (chosen_redirect creds) (Some tokens))) true,
        mkAuthWorld H e5
          (EvSave tokens :: EvExchange code :: EvListen
             :: EvBrowser (generate_auth_url H (scopes a))
             :: EvReadToken :: events H w))).
Proof.
  intros a w creds read e1 opened e2 reqs e3 code tokens e4 e5 Hc Hr Hn Ho Hi Ha Hg Hw.
  pose proof (loadToken_none
                (mkAuth (Some creds) (scopes a)
                        (Some (mkOAuth (chosen_redirect creds) None)) (gmailClient a), w)
                read e1 Hr Hn) as Hload.
  unfold authenticate, acatch, abind at 1 2 3 4, agets at 1, set_client, amodify.
  cbn [fst snd config_credentials scopes gmailClient]. rewrite Hc.
  cbn [fst snd]. rewrite ?Hc. fold (chosen_redirect creds). rewrite Hload.
  unfold runConsentFlow, waitForAuthCode, saveToken, setCredentials, set_gmailClient,
    host, acatch, abind, agets, aret, amodify.
  cbn [fst snd aenv events scopes oauth2Client]. rewrite Ho.
  destruct opened as [[]|?]; cbn [aenv events fst snd]; rewrite Hi, Ha;
    cbn [aenv events fst snd]; rewrite Hg; cbn -[REDIRECT_URI]; rewrite Hw; reflexivity.
Qed.

(** X28: how [authenticate] can fail. Without credentials in the
    configuration it fails at once, with an [AUTH_FAILED] error that quotes
    the [TypeError] of the destructuring. And when what the host throws is
    neither a [CalendarApiError] nor [null] or [undefined], every rejection
    of [authenticate] is a [CalendarApiError] with code [AUTH_FAILED]. A
    call that is rejected, or in which the process dies, leaves the Gmail
    client as it was; a successful one sets it. *)
Theorem authenticate_fails_only_with_auth_failed :
  (∀ s, config_credentials (fst s) = None →
        authenticate H s
        = (Settled (Raise (CalendarApiError
                             (lit "Authentication failed: Cannot destructure property 'client_id' of 'this.config.credentials' as it is undefined.")
                             (lit "AUTH_FAILED") None)), s))
  ∧ (host_errors_foreign H →
     ∀ s,
       match fst (authenticate H s) with
       | Settled (Ok _) => gmailClient (fst (snd (authenticate H s))) = true
       | Settled (Raise e) =>
           (∃ m, e = CalendarApiError m ErrorCodes.AUTH_FAILED None)
           ∧ gmailClient (fst (snd (authenticate H s))) = gmailClient (fst s)
       | Died _ => gmailClient (fst (snd (authenticate H s))) = gmailClient (fst s)
       end).
Proof.
  split.
  { intros [a w] Hc. cbn [fst] in Hc. auth_unfold. rewrite Hc. reflexivity. }
  intros (Hread & Hwrite & Hrefresh & Hopen & Hget & Hparse) [a w].
  auth_unfold.
  destruct (config_credentials a) as [creds|];
    [|cbn -[REDIRECT_URI]; split; [eexists; reflexivity|reflexivity]].
  repeat
    (cbn [fst snd aenv events scopes config_credentials redirect_uris oauth2Client
          gmailClient option_map redirectUri credentials read_message];
     match goal with
     | |- context [read_file H ?e] =>
         let F := fresh in
         pose proof (Hread e) as F;
         destruct (read_file H e) as [[?|[? ? ?|?|? [?|]]] ?]; cbn in F;
         try contradiction; clear F
     | |- context [parse_token H ?c] =>
         let F := fresh in
         pose proof (Hparse c) as F;
         destruct (parse_token H c) as [[?|]|[? ? ?|?|? [?|]]]; cbn in F;
         try contradiction; clear F
     | |- context [isTokenExpired ?t ?n] => destruct (isTokenExpired t n)
     | |- context [refresh_access_token H ?e] =>
         let F := fresh in
         pose proof (Hrefresh e) as F;
         destruct (refresh_access_token H e) as [[?|[? ? ?|?|? [?|]]] ?]; cbn in F;
         try contradiction; clear F
     | |- context [write_token H ?t ?e] =>
         let F := fresh in
         pose proof (Hwrite t e) as F;
         destruct (write_token H t e) as [[[]|[? ? ?|?|? [?|]]] ?]; cbn in F;
         try contradiction; clear F
     | |- context [open_browser H ?u ?e] =>
         let F := fresh in
         pose proof (Hopen u e) as F;
         destruct (open_browser H u e) as [[[]|[? ? ?|?|? [?|]]] ?]; cbn in F;
         try contradiction; clear F
     | |- context [serve H ?e] => destruct (serve H e) as [[?|?] ?]
     | |- context [await_code ?reqs] =>
         let Ha := fresh "Ha" in
         destruct (await_code reqs) as [[?|?]|?] eqn:Ha;
         [|apply await_code_error in Ha as [? ->]|]
     | |- context [get_token H ?c ?e] =>
         let F := fresh in
         pose proof (Hget c e) as F;
         destruct (get_token H c e) as [[?|[? ? ?|?|? [?|]]] ?]; cbn in F;
         try contradiction; clear F
     end);
    cbn -[REDIRECT_URI]; try reflexivity; (split; [eexists; reflexivity|reflexivity]).
Qed.

End AuthRuns.

Lemma fake_host_errors_foreign : host_errors_foreign FakeAuth.auth_host.
Proof.
  unfold host_errors_foreign, foreign. cbn.
  split; [intros e; unfold FakeAuth.fake_read; destruct (FakeAuth.token_file e); exact I|].
  split; [intros t e; unfold FakeAuth.fake_write; destruct (FakeAuth.disk_full e); exact I|].
  split; [intros e; cbn; destruct (FakeAuth.refresh_answer e); exact I|].
  split; [intros u e; exact I|].
  split; [intros c e; cbn; destruct (FakeAuth.exchange_answer e); exact I|].
  intros c. destruct (JSON_parse c); exact I.
Qed.

(** A token file whose token expires in an hour. *)
Lemma valid_stored_token_needs_no_network_witness :
  Auth.authenticate FakeAuth.auth_host
    (FakeAuth.fresh_auth,
     Auth.mkAuthWorld FakeAuth.auth_host (FakeAuth.returning 1767229200000 None) [])
  = (Auth.Settled (Ok tt),
     (Auth.mkAuth (Some (Auth.mkCredentials None)) (Auth.scopes FakeAuth.fresh_auth)
        (Some (Auth.mkOAuth Auth.REDIRECT_URI
                 (Some (Auth.mkToken (Some (lit "ya29.old")) (Some 1767229200000)))))
        true,
      Auth.mkAuthWorld FakeAuth.auth_host (FakeAuth.returning 1767229200000 None)
        [Auth.EvReadToken])).
Proof.
  apply (valid_stored_token_needs_no_network FakeAuth.auth_host FakeAuth.fresh_auth
           (Auth.mkAuthWorld FakeAuth.auth_host (FakeAuth.returning 1767229200000 None) [])
           (Auth.mkCredentials None)
           (Fake.fake_stringify
              (FakeAuth.token_json
                 (Auth.mkToken (Some (lit "ya29.old")) (Some 1767229200000))))
           (Auth.mkToken (Some (lit "ya29.old")) (Some 1767229200000))
           (FakeAuth.returning 1767229200000 None)).
  - reflexivity.
  - reflexivity.
  - vm_compute. reflexivity.
  - reflexivity.
Defined.

(** A token file whose token expires in 100 seconds; the refresh works. *)
Lemma expired_token_is_refreshed_and_saved_witness :
  fst (Auth.authenticate FakeAuth.auth_host
         (FakeAuth.fresh_auth,
          Auth.mkAuthWorld FakeAuth.auth_host
            (FakeAuth.returning 1767225700000 (Some FakeAuth.token_2026)) []))
  = Auth.Settled (Ok tt)
  ∧ Auth.events FakeAuth.auth_host
      (snd (snd (Auth.authenticate FakeAuth.auth_host
                   (FakeAuth.fresh_auth,
                    Auth.mkAuthWorld FakeAuth.auth_host
                      (FakeAuth.returning 1767225700000 (Some FakeAuth.token_2026))
                      []))))
    = [Auth.EvSave FakeAuth.token_2026; Auth.EvRefresh; Auth.EvReadToken].
Proof.
  rewrite (expired_token_is_refreshed_and_saved FakeAuth.auth_host FakeAuth.fresh_auth
             (Auth.mkAuthWorld FakeAuth.auth_host
                (FakeAuth.returning 1767225700000 (Some FakeAuth.token_2026)) [])
             (Auth.mkCredentials None)
             (Fake.fake_stringify
                (FakeAuth.token_json
                   (Auth.mkToken (Some (lit "ya29.old")) (Some 1767225700000))))
             (Auth.mkToken (Some (lit "ya29.old")) (Some 1767225700000))
             (FakeAuth.returning 1767225700000 (Some FakeAuth.token_2026))
             FakeAuth.token_2026
             (FakeAuth.returning 1767225700000 (Some FakeAuth.token_2026))
             (snd (FakeAuth.fake_write FakeAuth.token_2026
                     (FakeAuth.returning 1767225700000 (Some FakeAuth.token_2026))))).
  - split; reflexivity.
  - reflexivity.
  - reflexivity.
  - vm_compute. reflexivity.
  - reflexivity.
  - reflexivity.
  - reflexivity.
Defined.

(** The same token file when Google refuses the refresh. *)
Lemma failed_refresh_falls_back_to_consent_witness :
  ∃ newer,
    Auth.events FakeAuth.auth_host
      (snd (snd (Auth.authenticate FakeAuth.auth_host
                   (FakeAuth.fresh_auth,
                    Auth.mkAuthWorld FakeAuth.auth_host
                      (FakeAuth.returning 1767225700000 None) []))))
    = newer ++ [Auth.EvListen; Auth.EvBrowser FakeAuth.consent_url;
                Auth.EvRefresh; Auth.EvReadToken].
Proof.
  exact (failed_refresh_falls_back_to_consent FakeAuth.auth_host FakeAuth.fresh_auth
           (Auth.mkAuthWorld FakeAuth.auth_host (FakeAuth.returning 1767225700000 None) [])
           (Auth.mkCredentials None)
           (Fake.fake_stringify
              (FakeAuth.token_json
                 (Auth.mkToken (Some (lit "ya29.old")) (Some 1767225700000))))
           (Auth.mkToken (Some (lit "ya29.old")) (Some 1767225700000))
           (FakeAuth.returning 1767225700000 None)
           (Raise (OtherError (lit "invalid_grant")))
           (FakeAuth.returning 1767225700000 None)
           eq_refl eq_refl ltac:(vm_compute; reflexivity) eq_refl eq_refl).
Defined.

(** A first run where the user refuses. *)
Lemma denied_consent_fails_without_exchange_witness :
  fst (Auth.authenticate FakeAuth.auth_host
         (FakeAuth.fresh_auth,
          Auth.mkAuthWorld FakeAuth.auth_host FakeAuth.first_run_denied []))
  = Auth.Settled (Raise (CalendarApiError (lit "Authorization denied: access_denied")
                                          (lit "AUTH_FAILED") None))
  ∧ Auth.events FakeAuth.auth_host
      (snd (snd (Auth.authenticate FakeAuth.auth_host
                   (FakeAuth.fresh_auth,
                    Auth.mkAuthWorld FakeAuth.auth_host FakeAuth.first_run_denied []))))
    = [Auth.EvListen; Auth.EvBrowser FakeAuth.consent_url; Auth.EvReadToken].
Proof.
  rewrite (denied_consent_fails_without_exchange FakeAuth.auth_host FakeAuth.fresh_auth
             (Auth.mkAuthWorld FakeAuth.auth_host FakeAuth.first_run_denied [])
             (Auth.mkCredentials None)
             (Raise (OtherError (lit "ENOENT: no such file or directory")))
             FakeAuth.first_run_denied (Ok tt) FakeAuth.first_run_denied
             [Auth.Callback None (Some (lit "access_denied"))]
             FakeAuth.first_run_denied
             (CalendarApiError (lit "Authorization denied: access_denied")
                               (lit "AUTH_FAILED") None)).
  - split; reflexivity.
  - reflexivity.
  - reflexivity.
  - exact I.
  - reflexivity.
  - reflexivity.
  - reflexivity.
Defined.

(** A first run where the user grants access. *)
Lemma first_consent_saves_exchanged_token_witness :
  fst (Auth.authenticate FakeAuth.auth_host
         (FakeAuth.fresh_auth,
          Auth.mkAuthWorld FakeAuth.auth_host FakeAuth.first_run []))
  = Auth.Settled (Ok tt)
  ∧ Auth.events FakeAuth.auth_host
      (snd (snd (Auth.authenticate FakeAuth.auth_host
                   (FakeAuth.fresh_auth,
                    Auth.mkAuthWorld FakeAuth.auth_host FakeAuth.first_run []))))
    = [Auth.EvSave FakeAuth.token_2026; Auth.EvExchange (lit "4/0AX4");
       Auth.EvListen; Auth.EvBrowser FakeAuth.consent_url; Auth.EvReadToken].
Proof.
  rewrite (first_consent_saves_exchanged_token FakeAuth.auth_host FakeAuth.fresh_auth
             (Auth.mkAuthWorld FakeAuth.auth_host FakeAuth.first_run [])
             (Auth.mkCredentials None)
             (Raise (OtherError (lit "ENOENT: no such file or directory")))
             FakeAuth.first_run (Ok tt) FakeAuth.first_run
             [Auth.Callback None None; Auth.Callback (Some (lit "4/0AX4")) None]
             FakeAuth.first_run (lit "4/0AX4") FakeAuth.token_2026 FakeAuth.first_run
             (snd (FakeAuth.fake_write FakeAuth.token_2026 FakeAuth.first_run))).
  - split; reflexivity.
  - reflexivity.
  - reflexivity.
  - exact I.
  - reflexivity.
  - reflexivity.
  - reflexivity.
  - reflexivity.
  - reflexivity.
Defined.

(** The fake host throws no [CalendarApiError] and no [null]: a refused
    first run is rejected with [AUTH_FAILED], and a run on a machine where
    the callback port is taken dies of the error event. *)
Lemma authenticate_fails_only_with_auth_failed_witness :
  host_errors_foreign FakeAuth.auth_host
  ∧ (∃ m, fst (Auth.authenticate FakeAuth.auth_host
                 (FakeAuth.fresh_auth,
                  Auth.mkAuthWorld FakeAuth.auth_host FakeAuth.first_run_denied []))
          = Auth.Settled (Raise (CalendarApiError m ErrorCodes.AUTH_FAILED None)))
  ∧ fst (Auth.authenticate FakeAuth.auth_host
           (FakeAuth.fresh_auth,
            Auth.mkAuthWorld FakeAuth.auth_host
              (FakeAuth.mkAuthEnv 1767225600000 None false None true [] None) []))
    = Auth.Died (OtherError (lit "listen EADDRINUSE: address already in use :::3847")).
Proof.
  split; [exact fake_host_errors_foreign|]. split; [|reflexivity].
  pose proof (proj2 (authenticate_fails_only_with_auth_failed FakeAuth.auth_host)
                fake_host_errors_foreign
                (FakeAuth.fresh_auth,
                 Auth.mkAuthWorld FakeAuth.auth_host FakeAuth.first_run_denied []))
    as Hrun.
  destruct (fst (Auth.authenticate FakeAuth.auth_host
                   (FakeAuth.fresh_auth,
                    Auth.mkAuthWorld FakeAuth.auth_host FakeAuth.first_run_denied [])))
    as [[[]|e]|e] eqn:Hfate.
  - exfalso. vm_compute in Hfate. discriminate Hfate.
  - destruct Hrun as [[m ->] _]. exists m. reflexivity.
  - exfalso. vm_compute in Hfate. discriminate Hfate.
Defined.
